(** * A multithreaded HTTP/HTTPS forward proxy: model and properties

    Shallow embedding of the proxy's core ([utils.py], [logging_utils.py],
    [handlers.py], [proxy.py], and the average computation of [main.py])
    followed by the properties of its rate limiter, header rewriter,
    request classifier, statistics and connection handlers.

    Conventions of the model.
    - A Python [str] is a list of Unicode code points ([list N]); a
      [bytes] object is a [list byte].
    - A Python [int] is a [Z].  A Python [float] holding a clock reading or
      a duration is an exact rational ([Q]): rounding of float arithmetic
      is not modelled.
    - A [dict] is a [gmap].  The two process-wide dictionaries are only
      touched under their locks, so every critical section is one atomic
      step of the model. *)

From Stdlib Require Import ZArith QArith Lqa List Sorted DecimalString.
From Stdlib.Strings Require Import Ascii String Byte.
From stdpp Require Import gmap list strings sorting.

Set Default Proof Using "Type".
#[local] Set Warnings "-clear-no-such-hyp".
Local Open Scope Z_scope.

(** ** Text: the built-in operations on [str] that the proxy uses *)

Abbreviation str := (list N) (only parsing).

(** A string literal of the source (without escapes). *)
Definition lit (s : string) : str :=
  map (λ b, Byte.to_N b) (list_byte_of_string s).

(** The literal ["\r\n"]. *)
Definition CRLF : str := [13; 10]%N.

(** The part of the interpreter's Unicode character database that the
    proxy's string operations consult for code points beyond ASCII.  It
    is data of the Python runtime, not of the repository, so the model
    takes it as a parameter:
    - [lower_beyond_ascii before c after]: the lowercase expansion of [c]
      standing between [before] and [after] (the context decides the
      lowercase of a capital sigma);
    - [upper_beyond_ascii c]: the uppercase expansion of [c];
    - [decimal_beyond_ascii c]: the value of [c] if it is a decimal digit;
    - [int_max_str_digits]: the cap that [int] puts on the number of
      digits it converts, if the interpreter has one. *)
Class UnicodeData := {
  lower_beyond_ascii : str → N → str → str;
  upper_beyond_ascii : N → str;
  decimal_beyond_ascii : N → option N;
  int_max_str_digits : option nat
}.

(** A database that leaves every code point beyond ASCII alone; the
    concrete examples of this development are ASCII and evaluate the same
    under every database. *)
#[global] Instance ascii_only : UnicodeData := {|
  lower_beyond_ascii := λ _ c _, [c];
  upper_beyond_ascii := λ c, [c];
  decimal_beyond_ascii := λ _, None;
  int_max_str_digits := Some 4300%nat
|}.

Module Py.
Section builtins.
Context `{UnicodeData}.
Local Open Scope N_scope.

(** [s.startswith(prefix)]. *)
Fixpoint startswith (s prefix : str) {struct prefix} : bool :=
  match prefix, s with
  | [], _ => true
  | p :: prefix, c :: s => (p =? c) && startswith s prefix
  | _ :: _, [] => false
  end.

(** [s.partition(sep)], as [None] when [sep] does not occur: the text
    before the leftmost occurrence of [sep] and the text after it. *)
Fixpoint cut (sep s : str) {struct s} : option (str * str) :=
  if startswith s sep then Some ([], drop (length sep) s)
  else match s with
       | [] => None
       | c :: s' =>
           match cut sep s' with
           | Some (a, b) => Some (c :: a, b)
           | None => None
           end
       end.

(** [sep in s]. *)
Definition contains (sep s : str) : bool :=
  match cut sep s with Some _ => true | None => false end.

(** [s.split(sep, maxsplit)]: cut at the leftmost occurrences of [sep],
    at most [maxsplit] times. *)
Fixpoint split_max (maxsplit : nat) (sep s : str) : list str :=
  match maxsplit with
  | O => [s]
  | S n =>
      match cut sep s with
      | None => [s]
      | Some (a, b) => a :: split_max n sep b
      end
  end.

(** [s.split(sep)]: no bound on the number of cuts; a string of length
    [n] cannot be cut more than [n] times. *)
Definition split (sep s : str) : list str := split_max (length s) sep s.

(** [sep.join(xs)]. *)
Fixpoint join (sep : str) (xs : list str) : str :=
  match xs with
  | [] => []
  | x :: xs' =>
      match xs' with
      | [] => x
      | _ :: _ => x ++ sep ++ join sep xs'
      end
  end.

(** [xs.index(x)], as [None] where Python raises [ValueError]. *)
Fixpoint index (x : str) (xs : list str) : option nat :=
  match xs with
  | [] => None
  | y :: xs' => if decide (y = x) then Some O else S <$> index x xs'
  end.

(** [xs.insert(i, x)] for [0 <= i]; an index past the end appends. *)
Definition insert_at (i : nat) (x : str) (xs : list str) : list str :=
  take i xs ++ x :: drop i xs.

(** The suffixes of a text, longest first. *)
Fixpoint suffixes (s : str) : list str :=
  s :: match s with [] => [] | _ :: s' => suffixes s' end.

Definition ascii_lower (c : N) : N := if (65 <=? c) && (c <=? 90) then c + 32 else c.
Definition ascii_upper (c : N) : N := if (97 <=? c) && (c <=? 122) then c - 32 else c.

(** [s.lower()]. *)
Fixpoint lower_from (before s : str) : str :=
  match s with
  | [] => []
  | c :: after =>
      (if c <? 128 then [ascii_lower c] else lower_beyond_ascii before c after)
        ++ lower_from (before ++ [c]) after
  end.
Definition lower (s : str) : str := lower_from [] s.

(** [s.upper()]. *)
Definition upper (s : str) : str :=
  flat_map (λ c, if c <? 128 then [ascii_upper c] else upper_beyond_ascii c) s.

(** [c.isspace()]: the white space that [strip] removes. *)
Definition isspace (c : N) : bool :=
  ((9 <=? c) && (c <=? 13)) || ((28 <=? c) && (c <=? 32))
  || (c =? 133) || (c =? 160) || (c =? 5760)
  || ((8192 <=? c) && (c <=? 8202))
  || (c =? 8232) || (c =? 8233) || (c =? 8239) || (c =? 8287) || (c =? 12288).

(** Drop the longest prefix of characters that satisfy [p]. *)
Fixpoint skip (p : N → bool) (s : str) : str :=
  match s with
  | c :: s' => if p c then skip p s' else s
  | [] => []
  end.

Definition lstrip (s : str) : str := skip isspace s.
Definition rstrip (s : str) : str := rev (skip isspace (rev s)).
(** [s.strip()]. *)
Definition strip (s : str) : str := rstrip (lstrip s).

(** The line boundaries of [splitlines]. *)
Definition is_linebreak (c : N) : bool :=
  ((10 <=? c) && (c <=? 13)) || ((28 <=? c) && (c <=? 30))
  || (c =? 133) || (c =? 8232) || (c =? 8233).

(** [s.splitlines()], with [cur] the line being read; ["\r\n"] is one
    boundary, and no empty line is produced after the last boundary. *)
Fixpoint splitlines_from (cur s : str) {struct s} : list str :=
  match s with
  | [] => match cur with [] => [] | _ :: _ => [cur] end
  | c :: rest =>
      if is_linebreak c then
        cur :: match rest with
               | d :: rest' =>
                   if (c =? 13) && (d =? 10) then splitlines_from [] rest'
                   else splitlines_from [] rest
               | [] => []
               end
      else splitlines_from (cur ++ [c]) rest
  end.
Definition splitlines (s : str) : list str := splitlines_from [] s.

(** The value of a decimal digit, ASCII or not. *)
Definition decimal (c : N) : option N :=
  if (48 <=? c) && (c <=? 57) then Some (c - 48)
  else if c <? 128 then None
  else decimal_beyond_ascii c.

(** [int(s)] reads [s] in two passes.  The first maps every white-space
    character from U+007F on to a blank and every decimal digit from
    there on to its ASCII digit, and fails on any other such code point. *)
Fixpoint to_ascii_decimal (s : str) : option str :=
  match s with
  | [] => Some []
  | c :: s' =>
      let c' := if c <? 127 then Some c
                else if isspace c then Some 32
                else match decimal c with Some d => Some (48 + d) | None => None end in
      match c', to_ascii_decimal s' with
      | Some c', Some r => Some (c' :: r)
      | _, _ => None
      end
  end.

(** The white space that the second pass skips. *)
Definition is_c_space (c : N) : bool := ((9 <=? c) && (c <=? 13)) || (c =? 32).

(** The digits of a decimal literal: digits with single underscores in
    between.  [acc] is the value read so far, [n] the number of digits
    read so far, [after_digit] whether the previous character was a
    digit; the result is the value, the number of digits and the text
    left over. *)
Fixpoint digits (acc : Z) (n : nat) (after_digit : bool) (s : str)
    : option (Z * nat * str) :=
  match s with
  | [] => if after_digit then Some (acc, n, []) else None
  | c :: s' =>
      if (48 <=? c) && (c <=? 57)
      then digits (10 * acc + Z.of_N (c - 48)) (S n) true s'
      else if (c =? 95) && after_digit then
        match s' with
        | d :: _ => if (48 <=? d) && (d <=? 57) then digits acc n false s' else None
        | [] => None
        end
      else if after_digit then Some (acc, n, s) else None
  end.

(** [int(s)], as [None] where Python raises [ValueError]. *)
Definition int (s : str) : option Z :=
  match to_ascii_decimal s with
  | None => None
  | Some s =>
      let s := skip is_c_space s in
      let '(sign, s) :=
        match s with
        | 43 :: s' => (1%Z, s')
        | 45 :: s' => ((-1)%Z, s')
        | _ => (1%Z, s)
        end in
      match digits 0 0 false s with
      | None => None
      | Some (v, n, rest) =>
          match skip is_c_space rest with
          | _ :: _ => None
          | [] =>
              match int_max_str_digits with
              | Some m => if decide (m < n)%nat then None else Some (sign * v)%Z
              | None => Some (sign * v)%Z
              end
          end
      end
  end.

End builtins.
End Py.

(** ** Regular expressions: the fragment of [re] that the proxy uses

    A backtracking matcher in continuation-passing style.  A continuation
    receives the text matched by the expression, the text left, and the
    groups captured so far.  Repetition is only needed over character
    classes, which keeps the matcher structurally recursive. *)

Module Re.
Section matcher.
Context `{UnicodeData}.

Inductive regex :=
| Bos                          (* [^]: the start of the text *)
| Eos                          (* [$]: the end, or before a final newline *)
| Chr (c : N)                  (* a literal character *)
| Cls (p : N → bool)           (* one character of a class *)
| Many (p : N → bool)          (* [[p]*], greedy *)
| Seq (r1 r2 : regex)
| Opt (r : regex)              (* [r?], greedy *)
| Grp (i : nat) (r : regex).   (* the capturing group number [i] *)

Definition captures := gmap nat str.
Definition cont := str → str → captures → option captures.

Fixpoint many (p : N → bool) (s : str) (caps : captures) (k : cont)
    : option captures :=
  match s with
  | c :: s' =>
      if p c then
        match many p s' caps (λ a, k (c :: a)) with
        | Some m => Some m
        | None => k [] s caps
        end
      else k [] s caps
  | [] => k [] s caps
  end.

Definition at_end (s : str) : bool :=
  match s with
  | [] => true
  | [c] => (c =? 10)%N
  | _ => false
  end.

(** [exec n r s caps k]: match [r] at the head of [s], inside a text of
    length [n], then continue with [k]. *)
Fixpoint exec (n : nat) (r : regex) (s : str) (caps : captures) (k : cont)
    : option captures :=
  match r with
  | Bos => if decide (length s = n) then k [] s caps else None
  | Eos => if at_end s then k [] s caps else None
  | Chr c =>
      match s with
      | d :: s' => if (c =? d)%N then k [d] s' caps else None
      | [] => None
      end
  | Cls p =>
      match s with
      | d :: s' => if p d then k [d] s' caps else None
      | [] => None
      end
  | Many p => many p s caps k
  | Seq r1 r2 =>
      exec n r1 s caps (λ a s1 caps1, exec n r2 s1 caps1 (λ b, k (a ++ b)))
  | Opt r =>
      match exec n r s caps k with
      | Some m => Some m
      | None => k [] s caps
      end
  | Grp i r => exec n r s caps (λ a s' caps', k a s' (<[i := a]> caps'))
  end.

(** [re.match(r, s)]: the groups of the match of [r] at the start of
    [s], or [None]. *)
Definition re_match (r : regex) (s : str) : option captures :=
  exec (length s) r s ∅ (λ _ _ caps, Some caps).

(** A literal text. *)
Fixpoint Lit (s : str) : regex :=
  match s with
  | [] => Many (λ _, false)
  | [c] => Chr c
  | c :: s' => Seq (Chr c) (Lit s')
  end.

(** [[p]+]. *)
Definition Many1 (p : N → bool) : regex := Seq (Cls p) (Many p).

(** [.] matches everything but a newline. *)
Definition dot (c : N) : bool := negb (c =? 10)%N.

(** [\d] matches the decimal digits of Unicode. *)
Definition digit (c : N) : bool :=
  match Py.decimal c with Some _ => true | None => false end.

End matcher.
End Re.

Declare Scope regex_scope.
Delimit Scope regex_scope with re.
Bind Scope regex_scope with Re.regex.
Infix "⋅" := Re.Seq (at level 40, left associativity) : regex_scope.

(** ** UTF-8: [bytes.decode] and [str.encode] *)

Module Utf8.
Local Open Scope N_scope.

(** What stands at the head of a byte sequence: a code point, or bytes
    that do not decode; [n] is the number of bytes it takes up. *)
Inductive item :=
| Char (c : N) (n : nat)
| Invalid (n : nat).

Definition is_continuation (b : N) : bool := (0x80 <=? b) && (b <=? 0xBF).

(** The item at the head of [b :: rest].  An ill-formed sequence is
    invalid up to the byte that breaks it; a sequence cut short by the
    end of the data is invalid as a whole. *)
Definition next (b : N) (rest : list N) : item :=
  if b <? 0x80 then Char b 1
  else if b <? 0xC2 then Invalid 1
  else if b <? 0xE0 then
    match rest with
    | [] => Invalid 1
    | b2 :: _ =>
        if is_continuation b2 then Char ((b - 0xC0) * 64 + (b2 - 0x80)) 2
        else Invalid 1
    end
  else if b <? 0xF0 then
    match rest with
    | [] => Invalid 1
    | b2 :: rest2 =>
        if negb (is_continuation b2)
           || (b =? 0xE0) && (b2 <? 0xA0) || (b =? 0xED) && (0xA0 <=? b2)
        then Invalid 1
        else
          match rest2 with
          | [] => Invalid 2
          | b3 :: _ =>
              if is_continuation b3
              then Char ((b - 0xE0) * 4096 + (b2 - 0x80) * 64 + (b3 - 0x80)) 3
              else Invalid 2
          end
    end
  else if b <? 0xF5 then
    match rest with
    | [] => Invalid 1
    | b2 :: rest2 =>
        if negb (is_continuation b2)
           || (b =? 0xF0) && (b2 <? 0x90) || (b =? 0xF4) && (0x90 <=? b2)
        then Invalid 1
        else
          match rest2 with
          | [] => Invalid 2
          | b3 :: rest3 =>
              if negb (is_continuation b3) then Invalid 2
              else
                match rest3 with
                | [] => Invalid 3
                | b4 :: _ =>
                    if is_continuation b4
                    then Char ((b - 0xF0) * 262144 + (b2 - 0x80) * 4096
                               + (b3 - 0x80) * 64 + (b4 - 0x80)) 4
                    else Invalid 3
                end
          end
    end
  else Invalid 1.

(** The error handlers that the proxy passes to [decode]. *)
Inductive errors := ignore | backslashreplace.

Definition hex_digit (n : N) : N := if n <? 10 then 48 + n else 87 + n.

(** The escape [\xNN] of a byte. *)
Definition escape (b : N) : str := [92; 120; hex_digit (b / 16); hex_digit (b mod 16)].

(** Decoding, with [skip] the number of bytes ahead that belong to the
    item already handled. *)
Fixpoint decode_from (handler : errors) (skip : nat) (bs : list N) : str :=
  match bs with
  | [] => []
  | b :: rest =>
      match skip with
      | S skip => decode_from handler skip rest
      | O =>
          match next b rest with
          | Char c n => c :: decode_from handler (n - 1) rest
          | Invalid n =>
              match handler with
              | ignore => []
              | backslashreplace => flat_map escape (take n bs)
              end ++ decode_from handler (n - 1) rest
          end
      end
  end.

(** [data.decode('utf-8', handler)]. *)
Definition decode (handler : errors) (data : list byte) : str :=
  decode_from handler 0 (map Byte.to_N data).

(** The UTF-8 bytes of a code point; surrogates have none. *)
Definition encode_char (c : N) : option (list N) :=
  if c <? 0x80 then Some [c]
  else if c <? 0x800 then Some [0xC0 + c / 64; 0x80 + c mod 64]
  else if (0xD800 <=? c) && (c <=? 0xDFFF) then None
  else if c <? 0x10000
  then Some [0xE0 + c / 4096; 0x80 + (c / 64) mod 64; 0x80 + c mod 64]
  else if c <? 0x110000
  then Some [0xF0 + c / 262144; 0x80 + (c / 4096) mod 64;
             0x80 + (c / 64) mod 64; 0x80 + c mod 64]
  else None.

(** [s.encode('utf-8')], as [None] where Python raises
    [UnicodeEncodeError]. *)
Fixpoint encode (s : str) : option (list byte) :=
  match s with
  | [] => Some []
  | c :: s' =>
      match encode_char c, encode s' with
      | Some bs, Some r => Some (map (λ b, default Byte.x00 (Byte.of_N b)) bs ++ r)
      | _, _ => None
      end
  end.

End Utf8.

(** ** Exceptions *)

Inductive exn_class :=
| ValueError
| AttributeError
| UnicodeEncodeError
| socket_timeout            (* [socket.timeout], an [OSError] *)
| socket_gaierror           (* [socket.gaierror], an [OSError] *)
| OSError                   (* any other [OSError], also [socket.error] *)
| OtherException.           (* any other subclass of [Exception] *)

#[global] Instance exn_class_eq_dec : EqDecision exn_class.
Proof. solve_decision. Defined.

(** An exception: its class and the text that [str(e)] gives. *)
Record exn := Exn { exn_class_of : exn_class; exn_text : list N }.

Definition is_timeout (e : exn) : bool :=
  match exn_class_of e with socket_timeout => true | _ => false end.

(** [isinstance(e, OSError)]. *)
Definition is_socket_error (e : exn) : bool :=
  match exn_class_of e with
  | socket_timeout | socket_gaierror | OSError => true
  | _ => false
  end.

(** The outcome of running a piece of code: a value or a raised
    exception. *)
Inductive outcome (A : Type) :=
| Ret (a : A)
| Raise (e : exn).
Arguments Ret {A} a.
Arguments Raise {A} e.

#[global] Instance Qlt_dec : RelDecision Qlt :=
  λ x y, decide (Qnum x * QDen y < Qnum y * QDen x)%Z.

#[global] Instance Qle_dec : RelDecision Qle :=
  λ x y, decide (Qnum x * QDen y ≤ Qnum y * QDen x)%Z.

(** ** utils.py *)

(** An entry of [domain_stats]: the dictionary with the keys
    ['requests'], ['bytes_sent'], ['bytes_received'], ['total_duration']
    and ['total_ttfb']. *)
Record stats := {
  requests : Z;
  bytes_sent : Z;
  bytes_received : Z;
  total_duration : Q;
  total_ttfb : Q
}.

#[global] Instance stats_inhabited : Inhabited stats :=
  populate {| requests := 0; bytes_sent := 0; bytes_received := 0;
              total_duration := 0; total_ttfb := 0 |}.

Module utils.
Section utils.
Context `{UnicodeData}.

Definition BUFFER_SIZE : Z := 65536.

(** [update_domain_stats(hostname, bytes_sent, bytes_received, duration,
    ttfb=None)], with the dictionary [domain_stats] passed explicitly;
    the body runs under [domain_stats_lock]. *)
Definition update_domain_stats (hostname : str) (sent received : Z)
    (duration : Q) (ttfb : option Q) (domain_stats : gmap (list N) stats)
    : gmap (list N) stats :=
  let domain_stats :=
    if decide (domain_stats !! hostname = None)
    then <[hostname := {| requests := 0; bytes_sent := 0; bytes_received := 0;
                          total_duration := 0; total_ttfb := 0 |}]> domain_stats
    else domain_stats in
  let stats := domain_stats !!! hostname in
  <[hostname := {| requests := requests stats + 1;
                   bytes_sent := bytes_sent stats + sent;
                   bytes_received := bytes_received stats + received;
                   total_duration := total_duration stats + duration;
                   total_ttfb := match ttfb with
                                 | Some ttfb => total_ttfb stats + ttfb
                                 | None => total_ttfb stats
                                 end |}]> domain_stats.

(** The pattern of [modify_headers]: [^https?://[^/]+], then group 1,
    a slash and any run of characters other than a newline, then [$]. *)
Definition absolute_url : Re.regex :=
  (Re.Bos ⋅ Re.Lit (lit "http") ⋅ Re.Opt (Re.Chr 115) ⋅ Re.Lit (lit "://")
   ⋅ Re.Many1 (λ c, negb (c =? 47)%N)
   ⋅ Re.Grp 1 (Re.Chr 47 ⋅ Re.Many Re.dot) ⋅ Re.Eos)%re.

(** The loop over [lines[1:]]: one step for one [line], on the pair of
    [new_lines] and [found_connection]. *)
Definition connection_step (acc : list (list N) * bool) (line : str)
    : list (list N) * bool :=
  let '(new_lines, found_connection) := acc in
  if Py.startswith (Py.lower line) (lit "connection:")
  then (new_lines ++ [lit "Connection: close"], true)
  else (new_lines ++ [line], found_connection).

(** [modify_headers(request_str, hostname=None)]. *)
Definition modify_headers (request_str : str) (hostname : option (list N)) : str :=
  let lines := Py.split CRLF request_str in
  match lines with
  | [] => request_str
  | request_line :: _ =>
      let parts := Py.split_max 2 (lit " ") request_line in
      let lines :=
        match parts with
        | method :: target :: rest =>
            match Re.re_match absolute_url target with
            | Some m =>
                let target := default [] (m !! 1%nat) in
                <[0%nat := Py.join (lit " ") (method :: target :: rest)]> lines
            | None => lines
            end
        | _ => lines
        end in
      let '(new_lines, found_connection) :=
        foldl connection_step ([], false) (tail lines) in
      let new_lines :=
        if found_connection then new_lines
        else
          let blank_idx :=
            match Py.index [] new_lines with
            | Some i => i
            | None => length new_lines
            end in
          Py.insert_at blank_idx (lit "Connection: close") new_lines in
      Py.join CRLF (take 1 lines ++ new_lines)
  end.

End utils.
End utils.

(** ** main.py: the averages computed at shutdown *)

Module main.



End main.

(** ** The outside world

    A connection worker talks to two sockets, the console, the clock and
    the file system.  What it does there is recorded, in order, in a
    trace of events; what the outside answers is scripted in an
    environment, one field for each place where the code asks. *)

Inductive socket := client_socket | server_socket.

(** The file that [log_request] writes; the absent fields are the
    arguments that were [None]. *)
Record log_entry := {
  log_hostname : list N;
  log_incoming_header : list N;
  log_modified_header : option (list N);
  log_server_response : option (list N);
  log_response_sent : option (list N);
  log_bytes_sent : option Z;
  log_bytes_received : option Z;
  log_duration : option Q;
  log_ttfb : option Q
}.

Inductive event :=
| Print (text : list N)
| Settimeout (s : socket) (seconds : Q)
| Connect (ip : list N) (port : Z)
| Recv (s : socket)
| Sendall (s : socket) (data : list byte)
| Close (s : socket)
| Gethostbyname (hostname : list N)
| LogRequest (entry : log_entry)
| LogBlocked (hostname client_ip : list N).

(** The state of the process: the two shared dictionaries, the logging
    flag, and the trace. *)
Record world := {
  request_counter : gmap (list N) (list Q);
  domain_stats : gmap (list N) stats;
  LOG_FLAG : bool;
  trace : list event
}.

(** One turn of a relay loop: what [recv] gives, and whether the
    [sendall] that forwards it raises. *)
Record relay_step := {
  relay_recv : outcome (list byte);
  relay_send : option exn
}.

(** One turn of the response loop of the HTTP forwarder: as for a relay,
    with the reading of [time.perf_counter()] taken after the forward. *)
Record http_step := {
  http_recv : outcome (list byte);
  http_forward : option exn;
  http_clock : Q
}.

(** The answers of the outside world during one connection. *)
Record environment := {
  env_time : Q;                          (* time.time() in check_rate_limit *)
  env_error_send : option exn;           (* the sendall of send_error *)
  env_request : outcome (list byte);     (* the recv of proxy *)
  env_log_blocked : option exn;          (* log_blocked_request *)
  env_resolve : outcome (list N);        (* socket.gethostbyname *)
  env_start : Q;                         (* time.perf_counter() in proxy *)
  env_connect : option exn;              (* socket(), settimeout, connect *)
  env_origin_send : option exn;          (* the sendall of the request *)
  env_origin_reads : list http_step;     (* the response loop *)
  env_established_send : option exn;     (* the sendall of the 200 *)
  env_established_clock : Q;             (* time.perf_counter() after it *)
  env_client_to_origin : list relay_step;
  env_origin_to_client : list relay_step;
  env_end : Q;                           (* time.perf_counter() at the end *)
  env_log_request : option exn           (* log_request *)
}.

(** Code that runs in the world: it may change the state and ends with a
    value or an exception. *)
Definition M (A : Type) : Type := world → outcome A * world.

#[global] Instance M_ret : MRet M := λ A a w, (Ret a, w).
#[global] Instance M_bind : MBind M := λ A B f m w,
  match m w with
  | (Ret a, w') => f a w'
  | (Raise e, w') => (Raise e, w')
  end.

Definition raise {A} (e : exn) : M A := λ w, (Raise e, w).

(** The value or exception that the environment scripted. *)
Definition answer {A} (o : outcome A) : M A := λ w, (o, w).

(** What [recv(bufsize)] makes of the data that the environment has for
    it: at most [bufsize] bytes. *)
Definition recv (bufsize : Z) (o : outcome (list byte)) : outcome (list byte) :=
  match o with
  | Ret data => Ret (take (Z.to_nat bufsize) data)
  | Raise e => Raise e
  end.

(** [try: body except Exception as e: handler(e)]. *)
Definition try_except {A} (body : M A) (handler : exn → M A) : M A := λ w,
  match body w with
  | (Ret a, w') => (Ret a, w')
  | (Raise e, w') => handler e w'
  end.

(** [with ... : body], where leaving the block runs [cleanup]. *)
Definition on_exit {A} (body : M A) (cleanup : M unit) : M A := λ w,
  match body w with
  | (r, w') =>
      match cleanup w' with
      | (Ret _, w'') => (r, w'')
      | (Raise e, w'') => (Raise e, w'')
      end
  end.

Definition emit (e : event) : M unit := λ w,
  (Ret (),
   {| request_counter := request_counter w; domain_stats := domain_stats w;
      LOG_FLAG := LOG_FLAG w; trace := trace w ++ [e] |}).

(** Code that reads and updates the dictionary [request_counter]. *)
Definition with_request_counter {A}
    (f : gmap (list N) (list Q) → A * gmap (list N) (list Q)) : M A := λ w,
  (Ret (f (request_counter w)).1,
   {| request_counter := (f (request_counter w)).2; domain_stats := domain_stats w;
      LOG_FLAG := LOG_FLAG w; trace := trace w |}).

(** Code that updates the dictionary [domain_stats]. *)
Definition with_domain_stats (f : gmap (list N) stats → gmap (list N) stats)
    : M unit := λ w,
  (Ret (),
   {| request_counter := request_counter w; domain_stats := f (domain_stats w);
      LOG_FLAG := LOG_FLAG w; trace := trace w |}).

(** Reading [utils.LOG_FLAG]. *)
Definition get_LOG_FLAG : M bool := λ w, (Ret (LOG_FLAG w), w).

(** An operation on the outside world that returns nothing: it is
    recorded, and raises if the environment says so. *)
Definition perform (e : event) (raises : option exn) : M unit :=
  emit e ;; match raises with Some x => raise x | None => mret () end.

(** [s.encode('utf-8')] as code that may raise. *)
Definition encode (s : str) : M (list byte) :=
  match Utf8.encode s with
  | Some data => mret data
  | None => raise (Exn UnicodeEncodeError (lit "surrogates not allowed"))
  end.

(** A [bytes] literal of the source (without escapes). *)
Definition blit (s : string) : list byte := list_byte_of_string s.
Definition bCRLF : list byte := [Byte.x0d; Byte.x0a].

(** [str(n)] for an [int]. *)
Definition str_of_int (n : Z) : str :=
  lit (NilEmpty.string_of_int (Z.to_int n)).

(** ** logging_utils.py *)

Module logging_utils.

(** [log_request(...)]: nothing unless [LOG_FLAG]; otherwise one file,
    whose writing may fail. *)
Definition log_request (env : environment) (entry : log_entry) : M unit :=
  log_flag ← get_LOG_FLAG;
  if log_flag : bool then perform (LogRequest entry) (env_log_request env)
  else mret ().

(** [log_blocked_request(hostname, client_ip)]. *)
Definition log_blocked_request (env : environment) (hostname client_ip : str)
    : M unit :=
  perform (LogBlocked hostname client_ip) (env_log_blocked env).

(** [generate_text_summary(domain_stats)]: the three totals at the head
    of the report, each the [sum] of one field over the values of the
    dictionary.  They are sums of integers, so the order in which the
    dictionary yields its values does not matter. *)
Definition total_requests (domain_stats : gmap (list N) stats) : Z :=
  map_fold (λ _ d total, total + requests d) 0 domain_stats.

Definition total_bytes_sent (domain_stats : gmap (list N) stats) : Z :=
  map_fold (λ _ d total, total + bytes_sent d) 0 domain_stats.

Definition total_bytes_received (domain_stats : gmap (list N) stats) : Z :=
  map_fold (λ _ d total, total + bytes_received d) 0 domain_stats.

End logging_utils.

(** ** handlers.py *)

Module handlers.
Section handlers.
Context `{UnicodeData}.

(** The locals of the response loop of [handle_http]. *)
Record http_state := {
  total_bytes_sent : Z;
  server_response : list byte;
  ttfb_recorded : bool;
  ttfb : option Q
}.

(** [tunnel(from_socket, to_socket)]: the loop, with [total_bytes]
    carried along.  A socket error ends the relay with the bytes
    counted so far; the script running out is the peer closing. *)
Fixpoint tunnel_loop (from_socket to_socket : socket) (steps : list relay_step)
    (total_bytes : Z) : M Z :=
  match steps with
  | [] => emit (Recv from_socket) ;; mret total_bytes
  | step :: steps =>
      emit (Recv from_socket) ;;
      match recv utils.BUFFER_SIZE (relay_recv step) with
      | Raise e => if is_socket_error e then mret total_bytes else raise e
      | Ret [] => mret total_bytes
      | Ret data =>
          emit (Sendall to_socket data) ;;
          match relay_send step with
          | Some e => if is_socket_error e then mret total_bytes else raise e
          | None =>
              tunnel_loop from_socket to_socket steps
                (total_bytes + Z.of_nat (length data))
          end
      end
  end.

Definition tunnel (from_socket to_socket : socket) (steps : list relay_step) : M Z :=
  tunnel_loop from_socket to_socket steps 0.

(** A thread whose target appends the result of [body] to a list: the
    list after the join.  An exception ends the thread and leaves the
    list empty. *)
Definition thread (body : M Z) : M (list Z) := λ w,
  match body w with
  | (Ret n, w') => (Ret [n], w')
  | (Raise _, w') => (Ret [], w')
  end.

(** The [while True] loop of [handle_http]. *)
Fixpoint response_loop (start_time : Q) (steps : list http_step) (st : http_state)
    : M http_state :=
  match steps with
  | [] => emit (Recv server_socket) ;; mret st
  | step :: steps =>
      emit (Recv server_socket) ;;
      match recv utils.BUFFER_SIZE (http_recv step) with
      | Raise e => if is_timeout e then response_loop start_time steps st else raise e
      | Ret [] => mret st
      | Ret chunk =>
          emit (Sendall client_socket chunk) ;;
          match http_forward step with
          | Some e =>
              if is_timeout e then response_loop start_time steps st else raise e
          | None =>
              let total_bytes_sent := total_bytes_sent st + Z.of_nat (length chunk) in
              let '(ttfb_recorded, ttfb) :=
                if ttfb_recorded st then (true, ttfb st)
                else (true, Some (http_clock step - start_time)%Q) in
              let server_response :=
                if decide (Z.of_nat (length (server_response st)) < 65536)
                then
                  let need := 65536 - Z.of_nat (length (server_response st)) in
                  server_response st ++ take (Z.to_nat need) chunk
                else server_response st in
              response_loop start_time steps
                {| total_bytes_sent := total_bytes_sent;
                   server_response := server_response;
                   ttfb_recorded := ttfb_recorded;
                   ttfb := ttfb |}
          end
      end
  end.

(** [handle_http(client_socket, client_data, server_ip, server_port,
    hostname, start_time)]. *)
Definition handle_http (env : environment) (client_data server_ip : str)
    (server_port : Z) (hostname : str) (start_time : Q) : M unit :=
  try_except
    (let modified_data := utils.modify_headers client_data (Some hostname) in
     st ← on_exit
            (emit (Settimeout server_socket 5) ;;
             perform (Connect server_ip server_port) (env_connect env) ;;
             data ← encode modified_data;
             perform (Sendall server_socket data) (env_origin_send env) ;;
             response_loop start_time (env_origin_reads env)
               {| total_bytes_sent := 0; server_response := [];
                  ttfb_recorded := false; ttfb := None |})
            (emit (Close server_socket));
     let duration := (env_end env - start_time)%Q in
     received ← encode client_data;
     logging_utils.log_request env
       {| log_hostname := hostname;
          log_incoming_header := client_data;
          log_modified_header := Some modified_data;
          log_server_response :=
            Some (match server_response st with
                  | [] => []
                  | _ :: _ => Utf8.decode Utf8.ignore (server_response st)
                  end);
          log_response_sent := Some (lit "HTTP/1.1 200 OK");
          log_bytes_sent := Some (total_bytes_sent st);
          log_bytes_received := Some (Z.of_nat (length received));
          log_duration := Some duration;
          log_ttfb := ttfb st |} ;;
     received ← encode client_data;
     with_domain_stats
       (utils.update_domain_stats hostname (total_bytes_sent st)
          (Z.of_nat (length received)) duration (ttfb st)))
    (λ e,
       emit (Print (lit "HTTP error " ++ exn_text e ++ lit " for " ++ hostname)) ;;
       emit (Close client_socket)).

(** [handle_https(client_socket, server_ip, server_port, hostname,
    client_data, start_time)].  The two relay threads only meet at the
    join; the model runs one after the other. *)
Definition handle_https (env : environment) (server_ip : str) (server_port : Z)
    (hostname client_data : str) (start_time : Q) : M unit :=
  try_except
    (on_exit
       (emit (Settimeout server_socket 2) ;;
        perform (Connect server_ip server_port) (env_connect env) ;;
        perform (Sendall client_socket
                   (blit "HTTP/1.1 200 Connection Established" ++ bCRLF ++ bCRLF))
          (env_established_send env) ;;
        let ttfb := (env_established_clock env - start_time)%Q in
        t1_bytes ← thread (tunnel client_socket server_socket
                             (env_client_to_origin env));
        t2_bytes ← thread (tunnel server_socket client_socket
                             (env_origin_to_client env));
        let total_bytes_sent := foldr Z.add 0 t2_bytes in
        let total_bytes_received := foldr Z.add 0 t1_bytes in
        let duration := (env_end env - start_time)%Q in
        logging_utils.log_request env
          {| log_hostname := hostname;
             log_incoming_header := client_data;
             log_modified_header := None;
             log_server_response := None;
             log_response_sent := Some (lit "HTTP/1.1 200 Connection Established");
             log_bytes_sent := Some total_bytes_sent;
             log_bytes_received := Some total_bytes_received;
             log_duration := Some duration;
             log_ttfb := Some ttfb |} ;;
        with_domain_stats
          (utils.update_domain_stats hostname total_bytes_sent
             total_bytes_received duration (Some ttfb)))
       (emit (Close server_socket)) ;;
     emit (Close client_socket))
    (λ e,
       emit (Print (lit "HTTPS error " ++ exn_text e ++ lit " for " ++ hostname)) ;;
       emit (Close client_socket)).

End handlers.
End handlers.

(** ** proxy.py *)

(** The peer address that [accept] hands to a worker: a tuple, whose
    first component is the host, or anything else, of which the worker
    takes the text. *)
Inductive peer :=
| PeerTuple (host : list N) (port : Z)
| PeerOther (text : list N).

Module proxy.
Section proxy.
Context `{UnicodeData}.

(** ["*.youtube.com"], ["*.ytimg.com"], ["*.googlevideo.com"]. *)
Definition BLOCKLIST : list (list N) :=
  [lit "*.youtube.com"; lit "*.ytimg.com"; lit "*.googlevideo.com"].

(** The pattern of [parse_server_info]: an optional group 1 [https?://],
    group 2 [[^/:]+], an optional colon with group 3 [\d+], an optional
    group 4 of a slash and any run of characters other than a newline,
    and [$]. *)
Definition url : Re.regex :=
  (Re.Bos
   ⋅ Re.Opt (Re.Grp 1 (Re.Lit (lit "http") ⋅ Re.Opt (Re.Chr 115) ⋅ Re.Lit (lit "://")))
   ⋅ Re.Grp 2 (Re.Many1 (λ c, negb ((c =? 47) || (c =? 58))%N))
   ⋅ Re.Opt (Re.Chr 58 ⋅ Re.Grp 3 (Re.Many1 Re.digit))
   ⋅ Re.Opt (Re.Grp 4 (Re.Chr 47 ⋅ Re.Many Re.dot))
   ⋅ Re.Eos)%re.

(** The tuple that [parse_server_info] returns. *)
Definition server_info : Type := option (list N) * option Z * option bool * bool.

(** The body of the [try] of [parse_server_info]. *)
Definition parse_server_info_body (client_data_bytes : list byte)
    : outcome server_info :=
  let client_text := Utf8.decode Utf8.ignore client_data_bytes in
  let lines := Py.splitlines client_text in
  match lines with
  | [] => Ret (None, None, None, false)
  | line0 :: _ =>
      let first_line := Py.strip line0 in
      let parts := Py.split_max 2 (lit " ") first_line in
      match parts with
      | method :: target :: _ =>
          let method := Py.upper method in
          let is_connect := bool_decide (method = lit "CONNECT") in
          if is_connect then
            if negb (Py.contains (lit ":") target) then Ret (None, None, None, false)
            else
              match Py.split_max 1 (lit ":") target with
              | [hostname; port_str] =>
                  match Py.int port_str with
                  | Some server_port =>
                      Ret (Some (Py.lower hostname), Some server_port,
                           Some is_connect, true)
                  | None => Raise (Exn ValueError (lit "invalid literal for int()"))
                  end
              | _ => Raise (Exn ValueError (lit "not enough values to unpack"))
              end
          else
            match Re.re_match url target with
            | None => Ret (None, None, None, false)
            | Some m =>
                let server_port :=
                  match m !! 3%nat with
                  | Some (c :: group3) => Py.int (c :: group3)
                  | _ => Some (if Py.startswith target (lit "https://")
                               then 443 else 80)
                  end in
                match m !! 2%nat, server_port with
                | Some hostname, Some server_port =>
                    Ret (Some (Py.lower hostname), Some server_port,
                         Some is_connect, true)
                | _, None => Raise (Exn ValueError (lit "invalid literal for int()"))
                | None, _ => Raise (Exn AttributeError (lit "no attribute 'lower'"))
                end
            end
      | _ => Ret (None, None, None, false)
      end
  end.

(** [parse_server_info(client_data_bytes)]: the body, with every
    exception turned into the invalid tuple. *)
Definition parse_server_info (client_data_bytes : list byte) : server_info :=
  match parse_server_info_body client_data_bytes with
  | Ret info => info
  | Raise _ => (None, None, None, false)
  end.

(** [fnmatch.fnmatch(name, pat)] for patterns made of [*], [?] and
    literal characters, as those of [BLOCKLIST] are. *)
Fixpoint fnmatch (name pat : str) {struct pat} : bool :=
  match pat with
  | [] => match name with [] => true | _ :: _ => false end
  | p :: pat' =>
      if (p =? 42)%N then existsb (λ rest, fnmatch rest pat') (Py.suffixes name)
      else
        match name with
        | c :: name' => ((p =? 63) || (p =? c))%N && fnmatch name' pat'
        | [] => false
        end
  end.

(** [is_blocked(hostname)]. *)
Definition is_blocked (hostname : str) : bool :=
  existsb (λ pattern, fnmatch hostname pattern) BLOCKLIST.

(** [window = 10] and [limit = 100], the two locals of [check_rate_limit]. *)
Definition window : Q := 10.
Definition limit : nat := 100.

(** [check_rate_limit(client_ip)], with [now] the reading of [time.time()]
    and the dictionary [request_counter] passed explicitly.  The whole
    body after the clock reading runs under [request_counter_lock]. *)
Definition check_rate_limit (client_ip : str) (now : Q)
    (request_counter : gmap (list N) (list Q)) : bool * gmap (list N) (list Q) :=
  let request_counter :=
    if decide (request_counter !! client_ip = None)
    then <[client_ip := []]> request_counter
    else request_counter in
  let request_counter :=
    <[client_ip := filter (λ t, now - t < window)%Q (request_counter !!! client_ip)]>
      request_counter in
  if decide (limit ≤ length (request_counter !!! client_ip))%nat
  then (false, request_counter)
  else (true, <[client_ip := (request_counter !!! client_ip) ++ [now]]> request_counter).

(** [send_error(client_socket, code, message)]. *)
Definition send_error (env : environment) (code : Z) (message : str) : M unit :=
  try_except
    (data ← encode (lit "HTTP/1.1 " ++ str_of_int code ++ lit " " ++ message
                    ++ CRLF ++ CRLF);
     perform (Sendall client_socket data) (env_error_send env))
    (λ _, mret ()) ;;
  emit (Close client_socket).

(** [client_ip[0] if isinstance(client_ip, (list, tuple)) else
    str(client_ip)]. *)
Definition client_ip_str (client_ip : peer) : str :=
  match client_ip with PeerTuple host _ => host | PeerOther text => text end.

(** [proxy(client_socket, client_ip)]. *)
Definition proxy (env : environment) (client_ip : peer) : M unit :=
  emit (Settimeout client_socket 1) ;;
  let client_ip_str := client_ip_str client_ip in
  allowed ← with_request_counter (check_rate_limit client_ip_str (env_time env));
  if negb allowed then
    emit (Print (lit "Rate limit exceeded for " ++ client_ip_str)) ;;
    send_error env 429 (lit "Too Many Requests")
  else
    try_except
      (emit (Recv client_socket) ;;
       raw ← answer (recv utils.BUFFER_SIZE (env_request env));
       match raw with
       | [] => send_error env 502 (lit "Bad Gateway")
       | _ :: _ =>
           let '(hostname, server_port, is_connect, valid) := parse_server_info raw in
           match (if valid then hostname else None) with
           | None => send_error env 400 (lit "Bad Request")
           | Some hostname =>
               let client_data := Utf8.decode Utf8.backslashreplace raw in
               if is_blocked hostname then
                 emit (Print (lit "Blocked request to " ++ hostname ++ lit " from "
                              ++ client_ip_str)) ;;
                 log_flag ← get_LOG_FLAG;
                 (if log_flag : bool then
                    try_except
                      (logging_utils.log_blocked_request env hostname client_ip_str)
                      (λ e, emit (Print (lit "Failed to log blocked request: "
                                         ++ exn_text e)))
                  else mret ()) ;;
                 send_error env 403 (lit "Forbidden")
               else
                 emit (Gethostbyname hostname) ;;
                 match env_resolve env with
                 | Raise e =>
                     if bool_decide (exn_class_of e = socket_gaierror)
                     then send_error env 502 (lit "Bad Gateway")
                     else raise e
                 | Ret server_ip =>
                     let start_time := env_start env in
                     match server_port with
                     | None => raise (Exn OtherException (lit "port is None"))
                     | Some server_port =>
                         if default false is_connect then
                           handlers.handle_https env server_ip server_port hostname
                             client_data start_time
                         else
                           handlers.handle_http env client_data server_ip server_port
                             hostname start_time
                     end
                 end
           end
       end)
      (λ _, emit (Close client_socket)).

End proxy.
End proxy.


(** A history of rate-limit checks: who called and what the clock read. *)
Definition history := list (str * Q).

(** The dictionary after a history of checks. *)
Definition ledger_after (calls : history) (rc : gmap str (list Q)) : gmap str (list Q) :=
  foldl (λ rc c, (proxy.check_rate_limit c.1 c.2 rc).2) rc calls.


(** The answers of a history of checks, in call order. *)
Fixpoint answers (calls : history) (rc : gmap str (list Q)) : list bool :=
  match calls with
  | [] => []
  | c :: calls =>
      let r := proxy.check_rate_limit c.1 c.2 rc in
      r.1 :: answers calls r.2
  end.

(** ** Notions used in the statements about the header rewriter *)

Section header_notions.
Context `{UnicodeData}.

(** The test of the rewriter for a [Connection] header:
    [line.lower().startswith("connection:")]. *)
Definition is_connection_line (line : str) : bool :=
  Py.startswith (Py.lower line) (lit "connection:").

(** The lines of a request before the first empty line. *)
Fixpoint until_blank (lines : list (list N)) : list (list N) :=
  match lines with
  | [] => []
  | l :: lines => match l with [] => [] | _ :: _ => l :: until_blank lines end
  end.

(** The lines of a request after the first empty line. *)
Fixpoint after_blank (lines : list (list N)) : list (list N) :=
  match lines with
  | [] => []
  | l :: lines => match l with [] => lines | _ :: _ => after_blank lines end
  end.

(** The header block of a request: its lines after the request line and
    before the empty line that ends the headers. *)
Definition header_block (request : str) : list (list N) :=
  until_blank (tail (Py.split CRLF request)).

(** What follows the empty line that ends the headers. *)
Definition body_lines (request : str) : list (list N) :=
  after_blank (tail (Py.split CRLF request)).

(** The [Connection] headers among some lines. *)
Definition connection_headers (lines : list (list N)) : list (list N) :=
  filter (λ l, is_connection_line l = true) lines.

(** A request has exactly one [Connection] header, with the value
    [close]. *)
Definition exactly_one_connection_close (request : str) : Prop :=
  connection_headers (header_block request) = [lit "Connection: close"].

(** The first half of [modify_headers]: what it makes of the request
    line. *)
Definition rewrite_request_line (request_line : str) : str :=
  match Py.split_max 2 (lit " ") request_line with
  | method :: target :: rest =>
      match Re.re_match utils.absolute_url target with
      | Some m => Py.join (lit " ") (method :: default [] (m !! 1%nat) :: rest)
      | None => request_line
      end
  | _ => request_line
  end.

(** The second half of [modify_headers]: what it makes of the lines
    after the request line. *)
Definition close_connection (lines : list (list N)) : list (list N) :=
  let new_lines :=
    map (λ l, if is_connection_line l then lit "Connection: close" else l) lines in
  if existsb is_connection_line lines then new_lines
  else
    Py.insert_at
      (match Py.index [] new_lines with Some i => i | None => length new_lines end)
      (lit "Connection: close") new_lines.

End header_notions.

(** ** Notions used in the statements about the request classifier *)

Section classifier_notions.
Context `{UnicodeData}.

(** The parts of the request line as [parse_server_info] reads them:
    the first line of the decoded text, stripped and split at its first
    two blanks; no parts if the text has no line. *)
Definition request_parts (client_data_bytes : list byte) : list (list N) :=
  match Py.splitlines (Utf8.decode Utf8.ignore client_data_bytes) with
  | [] => []
  | line0 :: _ => Py.split_max 2 (lit " ") (Py.strip line0)
  end.

(** The malformed inputs. *)
Inductive malformed (client_data_bytes : list byte) : Prop :=
| empty_input :
    client_data_bytes = [] → malformed client_data_bytes
| too_few_parts :
    (length (request_parts client_data_bytes) < 2)%nat →
    malformed client_data_bytes
| connect_without_colon method target rest :
    request_parts client_data_bytes = method :: target :: rest →
    Py.upper method = lit "CONNECT" →
    Py.contains (lit ":") target = false →
    malformed client_data_bytes
| target_not_a_url method target rest :
    request_parts client_data_bytes = method :: target :: rest →
    Py.upper method ≠ lit "CONNECT" →
    Re.re_match proxy.url target = None →
    malformed client_data_bytes
| connect_port_not_an_integer method target rest hostname port_str :
    request_parts client_data_bytes = method :: target :: rest →
    Py.upper method = lit "CONNECT" →
    Py.cut (lit ":") target = Some (hostname, port_str) →
    Py.int port_str = None →
    malformed client_data_bytes
| url_port_not_an_integer method target rest m port_str :
    request_parts client_data_bytes = method :: target :: rest →
    Py.upper method ≠ lit "CONNECT" →
    Re.re_match proxy.url target = Some m →
    m !! 3%nat = Some port_str →
    port_str ≠ [] →
    Py.int port_str = None →
    malformed client_data_bytes.

End classifier_notions.

(** ** Notions used in the statements about the decoder *)

(** The number of bytes of a sequence that are no part of well-formed
    UTF-8: those that the handler [ignore] drops and the handler
    [backslashreplace] escapes.  [skip] is as in [Utf8.decode_from]. *)
Fixpoint undecodable_from (skip : nat) (bs : list N) : nat :=
  match bs with
  | [] => 0
  | b :: rest =>
      match skip with
      | S skip => undecodable_from skip rest
      | O =>
          match Utf8.next b rest with
          | Utf8.Char _ n => undecodable_from (n - 1) rest
          | Utf8.Invalid n => length (take n bs) + undecodable_from (n - 1) rest
          end
      end
  end.

Definition undecodable (data : list byte) : nat :=
  undecodable_from 0 (map Byte.to_N data).

(** ** Notions used in the statements about connections *)

(** The world with some events added to its trace. *)
Definition after (w : world) (events : list event) : world :=
  {| request_counter := request_counter w; domain_stats := domain_stats w;
     LOG_FLAG := LOG_FLAG w; trace := trace w ++ events |}.

(** Two worlds with the same dictionaries and logging flag: they differ
    in their traces at most. *)
Definition same_state (w w' : world) : Prop :=
  request_counter w' = request_counter w ∧ domain_stats w' = domain_stats w
  ∧ LOG_FLAG w' = LOG_FLAG w.

(** Code that leaves the dictionaries and the logging flag alone. *)
Definition frames {A} (m : M A) : Prop := ∀ w, same_state w (m w).2.

(** An event that says nothing about a count [n]: a socket operation,
    or a console line in which the digits of [n] do not occur; a log file
    is not silent. *)
Definition silent_about (n : Z) (e : event) : Prop :=
  match e with
  | Print text => Py.contains (str_of_int n) text = false
  | LogRequest _ | LogBlocked _ _ => False
  | _ => True
  end.

(** An event that writes no log file. *)
Definition unlogged (e : event) : Prop :=
  match e with
  | LogRequest _ | LogBlocked _ _ => False
  | _ => True
  end.

(** What the handling of a request for [hostname] may do to the world:
    it leaves the rate ledger and the logging flag alone, touches no
    entry of the statistics but that of [hostname], only adds to the
    trace, and adds no log file while logging is off. *)
Definition contained (hostname : list N) (w w' : world) : Prop :=
  request_counter w' = request_counter w
  ∧ LOG_FLAG w' = LOG_FLAG w
  ∧ (∀ h, h ≠ hostname → domain_stats w' !! h = domain_stats w !! h)
  ∧ ∃ events, trace w' = trace w ++ events
              ∧ (LOG_FLAG w = false → Forall unlogged events).

(** Code that keeps a relation between the world before it and the
    world after it, however it ends. *)
Definition keeps {A} (R : relation world) (m : M A) : Prop := ∀ w, R w (m w).2.

#[global] Instance socket_eq_dec : EqDecision socket.
Proof. solve_decision. Defined.

(** The number of bytes that some events pass to [sendall] on a socket. *)
Definition bytes_to (s : socket) (events : list event) : Z :=
  foldr (λ e n, match e with
                | Sendall s' data =>
                    if decide (s' = s) then Z.of_nat (length data) + n else n
                | _ => n
                end) 0 events.

(** What a relay from one socket to another may do: read from the one,
    and send a chunk that is not empty and no longer than the buffer to
    the other. *)
Definition relays (from_socket to_socket : socket) (e : event) : Prop :=
  e = Recv from_socket
  ∨ ∃ data, e = Sendall to_socket data ∧ data ≠ []
            ∧ Z.of_nat (length data) ≤ utils.BUFFER_SIZE.

(** A relay script without incident: every forward succeeds, and a read
    fails with a socket error or not at all. *)
Definition undisturbed (steps : list relay_step) : Prop :=
  Forall (λ step, relay_send step = None
                  ∧ ∀ e, relay_recv step = Raise e → is_socket_error e = true) steps.

(** A script of the response loop without incident: every forward
    succeeds, and a read fails with a time-out or not at all. *)
Definition steady (steps : list http_step) : Prop :=
  Forall (λ step, http_forward step = None
                  ∧ ∀ e, http_recv step = Raise e → is_timeout e = true) steps.

(** What the locals of the response loop keep to: the bytes counted are
    not negative, the excerpt kept for the log is as long as the count,
    up to 65536, and a time to first byte is there exactly when something
    has been counted. *)
Definition counted (st : handlers.http_state) : Prop :=
  0 ≤ handlers.total_bytes_sent st
  ∧ Z.of_nat (length (handlers.server_response st))
    = Z.min 65536 (handlers.total_bytes_sent st)
  ∧ (handlers.ttfb_recorded st = false ↔ handlers.total_bytes_sent st = 0)
  ∧ (handlers.ttfb st = None ↔ handlers.total_bytes_sent st = 0).

(** The first line of an error response. *)
Definition status_line (code : Z) (message : list N) : list N :=
  lit "HTTP/1.1 " ++ str_of_int code ++ lit " " ++ message ++ CRLF ++ CRLF.

(** An environment in which every operation succeeds, with the given
    clock reading for the rate limiter, the given first buffer from the
    client, the given outcome of the dial and the given turns of the
    response loop.  The origin resolves to 93.184.216.34; the
    performance counter reads 0 at the start, 1/20 at the first byte and
    1/5 at the end. *)
Definition environment_of (time : Q) (request : list byte) (dial : option exn)
    (reads : list (list byte)) : environment :=
  {| env_time := time;
     env_error_send := None;
     env_request := Ret request;
     env_log_blocked := None;
     env_resolve := Ret (lit "93.184.216.34");
     env_start := 0;
     env_connect := dial;
     env_origin_send := None;
     env_origin_reads :=
       map (λ chunk, {| http_recv := Ret chunk; http_forward := None;
                        http_clock := 5 # 100 |}) reads;
     env_established_send := None;
     env_established_clock := 5 # 100;
     env_client_to_origin := [];
     env_origin_to_client := [];
     env_end := 2 # 10;
     env_log_request := None |}.

(** A world at start-up, with the given ledger and logging flag. *)
Definition world_of (ledger : gmap (list N) (list Q)) (logging : bool) : world :=
  {| request_counter := ledger; domain_stats := ∅; LOG_FLAG := logging; trace := [] |}.

(** ** Notions used in the statements about the blocklist *)

(** A pattern without wildcards. *)
Definition literal (pat : list N) : Prop := Forall (λ p, p ≠ 42%N ∧ p ≠ 63%N) pat.

(** ** Sample inputs *)

(** Two clients. *)
Definition ip1 : list N := lit "192.168.1.7".
Definition peer1 : peer := PeerTuple ip1 50000.

(** The request of scenario S1, with one [Connection] header. *)
Definition one_connection : list N :=
  lit "GET http://example.com/a?b=1 HTTP/1.1" ++ CRLF
  ++ lit "Host: example.com" ++ CRLF
  ++ lit "Connection: keep-alive" ++ CRLF ++ CRLF.

(** A request with two [Connection] headers. *)
Definition two_connections : list N :=
  lit "GET / HTTP/1.1" ++ CRLF
  ++ lit "Connection: keep-alive" ++ CRLF
  ++ lit "Connection: upgrade" ++ CRLF ++ CRLF.

(** A request with no [Connection] header and a body whose line begins
    with [connection:]. *)
Definition connection_in_body : list N :=
  lit "POST /notes HTTP/1.1" ++ CRLF
  ++ lit "Host: example.com" ++ CRLF ++ CRLF
  ++ lit "connection: lost twice today".

(** The request of scenario S2. *)
Definition connect_request : list byte :=
  blit "CONNECT example.com:443 HTTP/1.1" ++ bCRLF ++ bCRLF.

(** A request of 56 bytes, one of which, 0xFF, is not UTF-8. *)
Definition request_with_ff : list byte :=
  blit "GET http://example.com/" ++ [Byte.xff] ++ blit " HTTP/1.1" ++ bCRLF
  ++ blit "Host: example.com" ++ bCRLF ++ bCRLF.

(** A world in which the ledger of the first client holds a hundred
    readings of the instant 0. *)
Definition full_world : world := world_of {[ ip1 := replicate 100 0%Q ]} true.

(** The address of the origin, and the error of a refused dial. *)
Definition origin_ip : list N := lit "93.184.216.34".
Definition refused : exn := Exn OSError (lit "[Errno 111] Connection refused").

(** An environment in which the dial and every send succeed, with the
    given first read, answer of the resolver, outcome of the writing of
    the request log and scripts of the two relays. *)
Definition environment_with (request : outcome (list byte))
    (resolve : outcome (list N)) (log : option exn)
    (upstream downstream : list relay_step) : environment :=
  {| env_time := 0;
     env_error_send := None;
     env_request := request;
     env_log_blocked := None;
     env_resolve := resolve;
     env_start := 0;
     env_connect := None;
     env_origin_send := None;
     env_origin_reads := [];
     env_established_send := None;
     env_established_clock := 5 # 100;
     env_client_to_origin := upstream;
     env_origin_to_client := downstream;
     env_end := 2 # 10;
     env_log_request := log |}.

(** A relay script: the chunks that arrive, each forwarded without
    incident. *)
Definition chunks (data : list (list byte)) : list relay_step :=
  map (λ chunk, {| relay_recv := Ret chunk; relay_send := None |}) data.

(** A request for a blocked host, and a request in origin form. *)
Definition blocked_request : list byte :=
  blit "GET http://www.youtube.com/watch HTTP/1.1" ++ bCRLF ++ bCRLF.
Definition origin_form_request : list byte :=
  blit "GET /index.html HTTP/1.1" ++ bCRLF ++ bCRLF.
Definition port_request : list byte :=
  blit "GET http://Example.com:8080/a HTTP/1.1" ++ bCRLF ++ bCRLF.

(** The errors of a read that times out, of a name that does not
    resolve, and of a disk that is full. *)
Definition timed_out : exn := Exn socket_timeout (lit "timed out").
Definition unknown_name : exn :=
  Exn socket_gaierror (lit "[Errno -2] Name or service not known").
Definition disk_full : exn := Exn OSError (lit "[Errno 28] No space left on device").

(** ** Notions used in the statements about the statistics *)

(** The arguments of one call of [update_domain_stats]. *)
Record record_call := {
  call_hostname : list N;
  call_sent : Z;
  call_received : Z;
  call_duration : Q;
  call_ttfb : option Q
}.

Definition record `{UnicodeData} (c : record_call) (ds : gmap (list N) stats)
    : gmap (list N) stats :=
  utils.update_domain_stats (call_hostname c) (call_sent c) (call_received c)
    (call_duration c) (call_ttfb c) ds.

(** The dictionary after a sequence of calls. *)
Definition stats_after `{UnicodeData} (calls : list record_call)
    (ds : gmap (list N) stats) : gmap (list N) stats :=
  foldl (λ ds c, record c ds) ds calls.


(** The sums of the arguments of some calls, each taken in call order
    from zero; the time to first byte only where it was given. *)
Definition totals (calls : list record_call) : stats :=
  {| requests := Z.of_nat (length calls);
     bytes_sent := foldl Z.add 0 (map call_sent calls);
     bytes_received := foldl Z.add 0 (map call_received calls);
     total_duration := foldl Qplus 0%Q (map call_duration calls);
     total_ttfb := foldl Qplus 0%Q (omap call_ttfb calls) |}.



(* ====================================================================== *)
(** * Properties *)
(* ====================================================================== *)

Section text.
Implicit Types (s sep a b : list N) (c d : N).

Lemma startswith_split s sep :
  Py.startswith s sep = true → s = sep ++ drop (length sep) s.
Proof.
  revert s. induction sep as [|p sep IH]; intros [|c s] Hs; try done.
  cbn in Hs. apply andb_prop in Hs as [Hc Hs]. apply N.eqb_eq in Hc as ->.
  cbn. f_equal. by apply IH.
Qed.

Lemma startswith_mono s sep b :
  Py.startswith s sep = true → Py.startswith (s ++ b) sep = true.
Proof.
  revert s. induction sep as [|p sep IH]; intros [|c s] Hs; try done.
  cbn in *. apply andb_prop in Hs as [-> Hs]. by rewrite IH.
Qed.

Lemma cut_nil sep : sep ≠ [] → Py.cut sep [] = None.
Proof. by destruct sep. Qed.

Lemma cut_cons sep c s :
  Py.cut sep (c :: s) =
    if Py.startswith (c :: s) sep then Some ([], drop (length sep) (c :: s))
    else match Py.cut sep s with Some (a, b) => Some (c :: a, b) | None => None end.
Proof. done. Qed.

(** The result of a cut: the pieces around the separator, the first of
    which is free of it. *)
Lemma cut_Some sep s a b :
  sep ≠ [] → Py.cut sep s = Some (a, b) → s = a ++ sep ++ b ∧ Py.cut sep a = None.
Proof.
  intros Hsep. revert a. induction s as [|c s IH]; intros a Hcut.
  { by rewrite cut_nil in Hcut. }
  rewrite cut_cons in Hcut.
  destruct (Py.startswith (c :: s) sep) eqn:Hst.
  - injection Hcut as <- <-. split; [by apply startswith_split|by apply cut_nil].
  - destruct (Py.cut sep s) as [[a' b']|] eqn:Hs; [|done].
    injection Hcut as <- <-. destruct (IH a' eq_refl) as [-> Ha'].
    split; [done|]. rewrite cut_cons, Ha'.
    destruct (Py.startswith (c :: a') sep) eqn:Hst'; [|done].
    apply (startswith_mono _ _ (sep ++ b')) in Hst'. cbn [app] in Hst, Hst'. congruence.
Qed.

Lemma cut_length sep s a b :
  sep ≠ [] → Py.cut sep s = Some (a, b) → (length b < length s)%nat.
Proof.
  intros Hsep Hcut. apply cut_Some in Hcut as [-> _]; [|done].
  rewrite !length_app. destruct sep; [done|]. cbn. lia.
Qed.

(** Every piece of a complete split is free of the separator. *)
Lemma split_max_free sep n s :
  sep ≠ [] → (length s ≤ n)%nat →
  Forall (λ x, Py.cut sep x = None) (Py.split_max n sep s).
Proof.
  intros Hsep. revert s. induction n as [|n IH]; intros s Hlen.
  { destruct s; [|cbn in Hlen; lia]. cbn. apply Forall_singleton. by apply cut_nil. }
  cbn. destruct (Py.cut sep s) as [[a b]|] eqn:Hcut.
  - apply Forall_cons. split; [by eapply cut_Some|].
    apply IH. apply cut_length in Hcut; [lia|done].
  - by apply Forall_singleton.
Qed.

Lemma split_max_nonempty sep n s : Py.split_max n sep s ≠ [].
Proof. destruct n; [done|]. cbn. by destruct (Py.cut sep s) as [[??]|]. Qed.

(** *** The separator ["\r\n"] *)

Lemma cut_crlf_app a b :
  Py.cut CRLF a = None → Py.cut CRLF (a ++ CRLF ++ b) = Some (a, b).
Proof.
  induction a as [|c a IH]; intros Ha; [done|].
  rewrite cut_cons in Ha.
  destruct (Py.startswith (c :: a) CRLF) eqn:Hst; [done|].
  destruct (Py.cut CRLF a) as [[??]|] eqn:Hcut; [done|].
  cbn [app]. rewrite cut_cons, IH by done.
  destruct (Py.startswith (c :: a ++ CRLF ++ b) CRLF) eqn:Hst'; [|done].
  exfalso. cbn -[N.eqb] in Hst, Hst'. destruct (13 =? c)%N; [|done].
  destruct a as [|d a]; [done|]. cbn -[N.eqb] in Hst, Hst'. congruence.
Qed.

Lemma join_cons sep (x y : list N) (xs : list (list N)) :
  Py.join sep (x :: y :: xs) = x ++ sep ++ Py.join sep (y :: xs).
Proof. done. Qed.

(** Splitting a joined list of lines gives the lines back, provided no
    line contains the separator. *)
Lemma split_max_join_crlf n (xs : list (list N)) :
  xs ≠ [] → (length xs ≤ S n)%nat → Forall (λ x, Py.cut CRLF x = None) xs →
  Py.split_max n CRLF (Py.join CRLF xs) = xs.
Proof.
  revert n. induction xs as [|x xs IH]; intros n Hne Hlen Hfree; [done|].
  apply Forall_cons in Hfree as [Hx Hfree].
  destruct xs as [|y xs].
  - cbn [Py.join]. destruct n; [done|]. cbn. by rewrite Hx.
  - rewrite join_cons. destruct n as [|n]; [cbn in Hlen; lia|].
    cbn [Py.split_max]. rewrite cut_crlf_app by done.
    f_equal. apply IH; [done|cbn in *; lia|done].
Qed.

Lemma join_crlf_length (xs : list (list N)) :
  (length xs ≤ S (length (Py.join CRLF xs)))%nat.
Proof.
  induction xs as [|x xs IH]; [cbn; lia|].
  destruct xs as [|y xs]; [cbn; lia|].
  rewrite join_cons, !length_app. change (length CRLF) with 2%nat.
  cbn [length] in *. lia.
Qed.

Lemma split_join_crlf (xs : list (list N)) :
  xs ≠ [] → Forall (λ x, Py.cut CRLF x = None) xs →
  Py.split CRLF (Py.join CRLF xs) = xs.
Proof.
  intros Hne Hfree. unfold Py.split.
  apply split_max_join_crlf; [done|apply join_crlf_length|done].
Qed.

Lemma split_crlf_free s : Forall (λ x, Py.cut CRLF x = None) (Py.split CRLF s).
Proof. by apply split_max_free. Qed.

Lemma cut_cons_None sep c s :
  Py.cut sep (c :: s) = None ↔
  Py.startswith (c :: s) sep = false ∧ Py.cut sep s = None.
Proof.
  rewrite cut_cons. destruct (Py.startswith (c :: s) sep); [naive_solver|].
  destruct (Py.cut sep s) as [[??]|]; naive_solver.
Qed.

Lemma startswith_crlf c s :
  Py.startswith (c :: s) CRLF = true ↔ c = 13%N ∧ head s = Some 10%N.
Proof.
  cbn -[N.eqb]. destruct (N.eqb_spec 13 c) as [<-|Hc]; [|naive_solver].
  destruct s as [|d s]; [naive_solver|]. cbn -[N.eqb].
  destruct (N.eqb_spec 10 d) as [<-|Hd]; naive_solver.
Qed.

(** Where ["\r\n"] can occur in a concatenation: inside either part, or
    across the seam. *)
Lemma cut_crlf_app_None a b :
  Py.cut CRLF (a ++ b) = None ↔
  Py.cut CRLF a = None ∧ Py.cut CRLF b = None
  ∧ ¬ (last a = Some 13%N ∧ head b = Some 10%N).
Proof.
  induction a as [|c a IH]; [cbn [app last]; naive_solver|].
  cbn [app]. rewrite !cut_cons_None, IH.
  rewrite <- !not_true_iff_false, !startswith_crlf.
  destruct a as [|d a]; cbn [app head last]; [|naive_solver].
  assert (Py.cut CRLF [] = None) by done. naive_solver.
Qed.

Lemma cut_crlf_cons_None c s :
  Py.cut CRLF (c :: s) = None ↔
  Py.cut CRLF s = None ∧ ¬ (c = 13%N ∧ head s = Some 10%N).
Proof.
  rewrite cut_cons_None, <- not_true_iff_false, startswith_crlf. naive_solver.
Qed.

(** *** A separator of one character *)

Lemma cut_char_None c s : Py.cut [c] s = None ↔ c ∉ s.
Proof.
  induction s as [|d s IH]; [cbn; split; [intros _; apply not_elem_of_nil|done]|].
  rewrite cut_cons_None, IH, not_elem_of_cons. cbn -[N.eqb].
  rewrite andb_true_r. destruct (N.eqb_spec c d); naive_solver.
Qed.

Lemma cut_char_app c a b : c ∉ a → Py.cut [c] (a ++ [c] ++ b) = Some (a, b).
Proof.
  induction a as [|d a IH]; intros Ha.
  { cbn -[N.eqb]. by rewrite N.eqb_refl. }
  apply not_elem_of_cons in Ha as [Hd Ha]. cbn [app]. rewrite cut_cons.
  cbn [app] in IH. rewrite IH by done. cbn -[N.eqb].
  destruct (N.eqb_spec c d); [done|]. by rewrite andb_false_l.
Qed.

End text.

Section regex.
Context `{UnicodeData}.
Import Re.

Lemma many_inv p s caps (k : cont) m :
  many p s caps k = Some m → ∃ a s', s = a ++ s' ∧ k a s' caps = Some m.
Proof.
  revert k. induction s as [|c s IH]; intros k Hm; cbn in Hm.
  { by exists [], []. }
  destruct (p c); [|by exists [], (c :: s)].
  destruct (many p s caps (λ a, k (c :: a))) as [m'|] eqn:Hrec.
  - injection Hm as ->. apply IH in Hrec as (a & s' & -> & Hk).
    by exists (c :: a), s'.
  - by exists [], (c :: s).
Qed.

(** What a successful match consumed is a prefix of the text, and the
    continuation succeeded on the rest. *)
Lemma exec_inv n r s caps (k : cont) m :
  exec n r s caps k = Some m →
  ∃ a s' caps', s = a ++ s' ∧ k a s' caps' = Some m.
Proof.
  revert s caps k. induction r as [| |c|p|p|r1 IH1 r2 IH2|r IH|i r IH];
    intros s caps k Hm; cbn -[N.eqb] in Hm.
  - case_decide; [|done]. by exists [], s, caps.
  - destruct (at_end s); [|done]. by exists [], s, caps.
  - destruct s as [|d s]; [done|]. destruct (c =? d)%N; [|done].
    by exists [d], s, caps.
  - destruct s as [|d s]; [done|]. destruct (p d); [|done].
    by exists [d], s, caps.
  - apply many_inv in Hm as (a & s' & -> & Hk). by exists a, s', caps.
  - apply IH1 in Hm as (a & s1 & caps1 & -> & Hm).
    apply IH2 in Hm as (b & s2 & caps2 & -> & Hm).
    exists (a ++ b), s2, caps2. by rewrite <- app_assoc.
  - destruct (exec n r s caps k) as [m'|] eqn:Hr.
    + injection Hm as ->. by apply IH in Hr.
    + by exists [], s, caps.
  - apply IH in Hm as (a & s' & caps' & -> & Hm). by eexists a, s', _.
Qed.

Lemma exec_Seq n r1 r2 s caps (k : cont) :
  exec n (Seq r1 r2) s caps k =
    exec n r1 s caps (λ a s1 caps1, exec n r2 s1 caps1 (λ b, k (a ++ b))).
Proof. done. Qed.

(** A target that the pattern of [modify_headers] matches has group 1,
    which starts with a slash and is a part of the target. *)
Lemma absolute_url_group target m :
  re_match utils.absolute_url target = Some m →
  ∃ g pre post, m !! 1%nat = Some (47%N :: g) ∧ target = pre ++ (47%N :: g) ++ post.
Proof.
  unfold re_match, utils.absolute_url. intros Hm.
  do 2 rewrite exec_Seq in Hm.
  apply exec_inv in Hm as (pre & s1 & caps1 & -> & Hm).
  cbn -[N.eqb] in Hm. destruct s1 as [|d s1]; [done|].
  destruct (N.eqb_spec 47 d) as [<-|]; [|done].
  apply many_inv in Hm as (g & post & -> & Hm).
  destruct (at_end post); [|done]. injection Hm as <-.
  exists g, pre, post. split; [|done].
  cbn [app]. apply lookup_insert_eq.
Qed.

(** The pattern needs an [h] in front, so no target that starts with a
    slash matches it. *)
Lemma absolute_url_slash s : re_match utils.absolute_url (47%N :: s) = None.
Proof. unfold re_match. cbn. by rewrite decide_True. Qed.

End regex.

Section header_rewriter.
Context `{UnicodeData}.

Local Abbreviation close := (lit "Connection: close").
Local Abbreviation fix_line := (λ l : list N, if is_connection_line l then close else l).

Lemma is_connection_close : is_connection_line close = true.
Proof. reflexivity. Qed.

Lemma close_free : Py.cut CRLF close = None.
Proof. reflexivity. Qed.

Lemma fix_line_fix_line l : fix_line (fix_line l) = fix_line l.
Proof.
  cbv beta. destruct (is_connection_line l) eqn:Hl.
  - by rewrite is_connection_close.
  - by rewrite Hl.
Qed.

(** The loop of [modify_headers] is a map together with a search. *)
Lemma foldl_connection_step (lines new_lines : list (list N)) found :
  foldl utils.connection_step (new_lines, found) lines
  = (new_lines ++ map fix_line lines, found || existsb is_connection_line lines).
Proof.
  revert new_lines found. induction lines as [|l lines IH]; intros new_lines found.
  { cbn. by rewrite app_nil_r, orb_false_r. }
  cbn [foldl map existsb]. unfold utils.connection_step at 2.
  fold (is_connection_line l). destruct (is_connection_line l).
  - rewrite IH, <- app_assoc. cbn. by rewrite orb_true_r.
  - rewrite IH, <- app_assoc. by cbn.
Qed.

(** [modify_headers] in two halves. *)
Lemma modify_headers_eq request_str hostname l0 rest :
  Py.split CRLF request_str = l0 :: rest →
  utils.modify_headers request_str hostname
  = Py.join CRLF (rewrite_request_line l0 :: close_connection rest).
Proof.
  intros Hsplit. unfold utils.modify_headers. rewrite Hsplit. cbn zeta.
  assert (Hlines :
    match Py.split_max 2 (lit " ") l0 with
    | method :: target :: rest0 =>
        match Re.re_match utils.absolute_url target with
        | Some m =>
            <[0%nat := Py.join (lit " ") (method :: default [] (m !! 1%nat) :: rest0)]>
              (l0 :: rest)
        | None => l0 :: rest
        end
    | _ => l0 :: rest
    end = rewrite_request_line l0 :: rest).
  { unfold rewrite_request_line.
    destruct (Py.split_max 2 (lit " ") l0) as [|method [|target rest0]]; try done.
    by destruct (Re.re_match utils.absolute_url target). }
  rewrite Hlines. cbn [tail take app].
  rewrite foldl_connection_step. cbn [app orb]. unfold close_connection.
  by destruct (existsb is_connection_line rest).
Qed.

(** *** The request line *)

Lemma split_max_2_space l :
  Py.split_max 2 (lit " ") l =
    match Py.cut [32%N] l with
    | None => [l]
    | Some (a, b) =>
        match Py.cut [32%N] b with
        | None => [a; b]
        | Some (b1, c) => [a; b1; c]
        end
    end.
Proof.
  change (lit " ") with [32%N]. cbn [Py.split_max].
  destruct (Py.cut [32%N] l) as [[a b]|]; [|done].
  by destruct (Py.cut [32%N] b) as [[b1 c]|].
Qed.

(** What the rewriter does to a request line, case by case. *)
Lemma rewrite_request_line_cases l :
  rewrite_request_line l = l
  ∨ ∃ a g pre post rest,
      rewrite_request_line l = a ++ 32%N :: (47%N :: g) ++ rest
      ∧ l = a ++ 32%N :: (pre ++ (47%N :: g) ++ post) ++ rest
      ∧ (32%N ∉ a) ∧ (32%N ∉ pre ++ (47%N :: g) ++ post)
      ∧ (rest = [] ∨ ∃ c, rest = 32%N :: c).
Proof.
  unfold rewrite_request_line. rewrite split_max_2_space.
  destruct (Py.cut [32%N] l) as [[a b]|] eqn:Hl; [|by left].
  apply cut_Some in Hl as [-> Ha]; [|done]. apply cut_char_None in Ha.
  destruct (Py.cut [32%N] b) as [[b1 c]|] eqn:Hb.
  - apply cut_Some in Hb as [-> Hb1]; [|done]. apply cut_char_None in Hb1.
    destruct (Re.re_match utils.absolute_url b1) as [m|] eqn:Hm; [|by left].
    apply absolute_url_group in Hm as (g & pre & post & Hg & ->).
    right. exists a, g, pre, post, (32%N :: c). rewrite Hg.
    split; [done|]. split; [by rewrite <- !app_assoc|]. eauto.
  - apply cut_char_None in Hb.
    destruct (Re.re_match utils.absolute_url b) as [m|] eqn:Hm; [|by left].
    apply absolute_url_group in Hm as (g & pre & post & Hg & ->).
    right. exists a, g, pre, post, []. rewrite Hg.
    split; [by rewrite app_nil_r|]. split; [by rewrite app_nil_r|]. eauto.
Qed.

Lemma rewrite_request_line_idem l :
  rewrite_request_line (rewrite_request_line l) = rewrite_request_line l.
Proof.
  destruct (rewrite_request_line_cases l)
    as [Hl|(a & g & pre & post & rest & Hl & _ & Ha & Hb & Hrest)];
    rewrite Hl; [done|].
  assert (Hg : 32%N ∉ 47%N :: g).
  { intros Hin. apply Hb. apply elem_of_app. right. apply elem_of_app. by left. }
  unfold rewrite_request_line. rewrite split_max_2_space.
  change (a ++ 32%N :: (47%N :: g) ++ rest)
    with (a ++ [32%N] ++ ((47%N :: g) ++ rest)).
  rewrite cut_char_app by done.
  destruct Hrest as [->|[c ->]].
  - rewrite app_nil_r. apply cut_char_None in Hg. rewrite Hg.
    by rewrite absolute_url_slash.
  - change ((47%N :: g) ++ 32%N :: c) with ((47%N :: g) ++ [32%N] ++ c).
    rewrite cut_char_app by done. by rewrite absolute_url_slash.
Qed.

Lemma rewrite_request_line_free l :
  Py.cut CRLF l = None → Py.cut CRLF (rewrite_request_line l) = None.
Proof.
  destruct (rewrite_request_line_cases l)
    as [Hl|(a & g & pre & post & rest & Hl & -> & _ & _ & Hrest)];
    rewrite Hl; [done|].
  rewrite !cut_crlf_app_None, !cut_crlf_cons_None, !cut_crlf_app_None,
    !cut_crlf_cons_None.
  intros (Ha & (Hpgr & _) & _). destruct Hpgr as ((_ & (Hg & _) & _) & Hr & Hseam).
  split; [done|]. split; [|cbn; naive_solver]. split; [|naive_solver].
  split; [done|]. split; [done|].
  destruct Hrest as [->|[c ->]]; cbn; naive_solver.
Qed.

(** *** The lines after the request line *)

Lemma close_connection_fixed (lines : list (list N)) :
  Forall (λ l, fix_line l = l) lines →
  existsb is_connection_line lines = true →
  close_connection lines = lines.
Proof.
  intros Hfix Hex. unfold close_connection. rewrite Hex.
  induction Hfix as [|l lines Hl _ IH]; [done|]. cbn [map]. rewrite Hl. f_equal.
  destruct (existsb is_connection_line lines) eqn:Hrest; [by apply IH|].
  clear -Hrest. induction lines as [|l' lines IH]; [done|].
  cbn [existsb] in Hrest. apply orb_false_elim in Hrest as [Hl' Hrest].
  cbn [map]. rewrite Hl'. f_equal. by apply IH.
Qed.

Lemma map_fix_line_none (lines : list (list N)) :
  existsb is_connection_line lines = false → map fix_line lines = lines.
Proof.
  induction lines as [|l lines IH]; [done|]. cbn [map existsb]. intros Hex.
  apply orb_false_elim in Hex as [-> Hex]. f_equal. by apply IH.
Qed.

Lemma close_connection_idem (lines : list (list N)) :
  close_connection (close_connection lines) = close_connection lines.
Proof.
  apply close_connection_fixed.
  - unfold close_connection. destruct (existsb is_connection_line lines) eqn:Hex.
    + apply Forall_forall. intros l Hl. apply list_elem_of_In, in_map_iff in Hl.
      destruct Hl as (l' & <- & _). apply fix_line_fix_line.
    + rewrite map_fix_line_none by done. unfold Py.insert_at.
      assert (Hall : Forall (λ l, fix_line l = l) lines).
      { apply Forall_forall. intros l Hl. cbv beta.
        destruct (is_connection_line l) eqn:Hc; [|done].
        assert (existsb is_connection_line lines = true); [|congruence].
        apply existsb_exists. exists l. split; [by apply list_elem_of_In|done]. }
      apply Forall_app. split; [by apply Forall_take|].
      apply Forall_cons. split; [by rewrite is_connection_close|by apply Forall_drop].
  - unfold close_connection. destruct (existsb is_connection_line lines) eqn:Hex.
    + apply existsb_exists in Hex as (l & Hl & Hc). apply existsb_exists.
      exists close. split; [|apply is_connection_close].
      apply in_map_iff. exists l. by rewrite Hc.
    + apply existsb_exists. exists close. split; [|apply is_connection_close].
      unfold Py.insert_at. apply in_or_app. right. by left.
Qed.

Lemma close_connection_free (lines : list (list N)) :
  Forall (λ l, Py.cut CRLF l = None) lines →
  Forall (λ l, Py.cut CRLF l = None) (close_connection lines).
Proof.
  intros Hfree.
  assert (Hmap : Forall (λ l, Py.cut CRLF l = None) (map fix_line lines)).
  { induction Hfree as [|l lines Hl _ IH]; [done|]. cbn [map].
    apply Forall_cons. split; [|done].
    destruct (is_connection_line l); [apply close_free|done]. }
  unfold close_connection. destruct (existsb is_connection_line lines); [done|].
  unfold Py.insert_at. apply Forall_app. split; [by apply Forall_take|].
  apply Forall_cons. split; [apply close_free|by apply Forall_drop].
Qed.

(** The lines of a rewritten request are the two halves of the rewrite. *)
Lemma split_modify_headers request_str hostname l0 rest :
  Py.split CRLF request_str = l0 :: rest →
  Py.split CRLF (utils.modify_headers request_str hostname)
  = rewrite_request_line l0 :: close_connection rest.
Proof.
  intros Hsplit. rewrite (modify_headers_eq _ _ _ _ Hsplit).
  pose proof (split_crlf_free request_str) as Hfree. rewrite Hsplit in Hfree.
  apply Forall_cons in Hfree as [Hl0 Hrest].
  apply split_join_crlf; [done|]. apply Forall_cons.
  split; [by apply rewrite_request_line_free|by apply close_connection_free].
Qed.

(** C2.  The header rewrite is idempotent: rewriting a rewritten
    request gives the same text back, code point for code point (and so
    byte for byte), whatever the request and whatever host names are
    passed along. *)
Theorem modify_headers_idempotent (request_str : list N)
    (hostname hostname' : option (list N)) :
  utils.modify_headers (utils.modify_headers request_str hostname) hostname'
  = utils.modify_headers request_str hostname.
Proof.
  destruct (Py.split CRLF request_str) as [|l0 rest] eqn:Hsplit.
  { by apply split_max_nonempty in Hsplit. }
  rewrite (modify_headers_eq _ hostname' _ _ (split_modify_headers _ hostname _ _ Hsplit)).
  rewrite (modify_headers_eq _ hostname _ _ Hsplit).
  by rewrite rewrite_request_line_idem, close_connection_idem.
Qed.

(** *** The [Connection] headers of a rewritten request *)

Lemma fix_line_nil l : fix_line l = [] ↔ l = [].
Proof.
  cbv beta. destruct (is_connection_line l) eqn:Hl; [|done].
  split; [done|]. intros ->. done.
Qed.

Lemma until_blank_map_fix_line (lines : list (list N)) :
  until_blank (map fix_line lines) = map fix_line (until_blank lines).
Proof.
  induction lines as [|l lines IH]; [done|]. cbn [map until_blank].
  destruct l as [|c l]; [done|].
  destruct (fix_line (c :: l)) as [|c' l'] eqn:Hfix.
  { by apply (fix_line_nil (c :: l)) in Hfix. }
  cbn [map]. rewrite Hfix. f_equal. apply IH.
Qed.

Lemma connection_headers_cons l (lines : list (list N)) :
  connection_headers (l :: lines)
  = (if is_connection_line l then [l] else []) ++ connection_headers lines.
Proof.
  unfold connection_headers. destruct (is_connection_line l) eqn:Hl.
  - by rewrite filter_cons_True.
  - rewrite filter_cons_False; [done|]. by rewrite Hl.
Qed.

Lemma connection_headers_map_fix_line (lines : list (list N)) :
  connection_headers (map fix_line lines)
  = replicate (length (connection_headers lines)) close.
Proof.
  induction lines as [|l lines IH]; [done|].
  cbn [map]. rewrite !connection_headers_cons, IH.
  destruct (is_connection_line l) eqn:Hl.
  - by rewrite is_connection_close.
  - by rewrite Hl.
Qed.

Lemma connection_headers_none (lines : list (list N)) :
  connection_headers lines = [] ↔ existsb is_connection_line lines = false.
Proof.
  induction lines as [|l lines IH]; [done|].
  rewrite connection_headers_cons. cbn [existsb].
  destruct (is_connection_line l); [done|]. by rewrite orb_false_l.
Qed.

Lemma existsb_blank (lines : list (list N)) :
  existsb is_connection_line lines
  = existsb is_connection_line (until_blank lines)
    || existsb is_connection_line (after_blank lines).
Proof.
  induction lines as [|l lines IH]; [done|].
  destruct l as [|c l]; [done|].
  cbn [until_blank after_blank existsb]. by rewrite IH, orb_assoc.
Qed.

Lemma until_blank_insert_close (lines : list (list N)) :
  until_blank
    (Py.insert_at
       (match Py.index [] lines with Some i => i | None => length lines end)
       close lines)
  = until_blank lines ++ [close].
Proof.
  induction lines as [|l lines IH]; [done|].
  destruct l as [|c l]; [done|].
  cbn [Py.index]. rewrite decide_False by done.
  assert (Hi : match S <$> Py.index [] lines with
               | Some i => i
               | None => length ((c :: l) :: lines)
               end
               = S (match Py.index [] lines with
                    | Some i => i
                    | None => length lines
                    end)).
  { by destruct (Py.index [] lines). }
  rewrite Hi. unfold Py.insert_at in *. cbn [take drop app until_blank].
  by rewrite IH.
Qed.

(** C6, as amended.  Take a request in which no line after the empty
    line that ends the headers begins with [connection:]
    (case-insensitively).  In the header block of the rewritten request
    every [Connection] header is exactly [Connection: close], and there
    are as many of them as the header block of the request had, or one
    if it had none.  So there is exactly one when the request had at
    most one [Connection] header, and more than one when it had
    several. *)
Theorem modify_headers_connection_close (request_str : list N)
    (hostname : option (list N)) :
  connection_headers (body_lines request_str) = [] →
  connection_headers (header_block (utils.modify_headers request_str hostname))
  = replicate (1 `max` length (connection_headers (header_block request_str)))
      (lit "Connection: close")
  ∧ ((length (connection_headers (header_block request_str)) ≤ 1)%nat →
     exactly_one_connection_close (utils.modify_headers request_str hostname)).
Proof.
  unfold exactly_one_connection_close, header_block, body_lines.
  destruct (Py.split CRLF request_str) as [|l0 rest] eqn:Hsplit.
  { by apply split_max_nonempty in Hsplit. }
  rewrite (split_modify_headers _ hostname _ _ Hsplit). cbn [tail].
  intros Hbody. apply connection_headers_none in Hbody.
  assert (Hmain :
    connection_headers (until_blank (close_connection rest))
    = replicate (1 `max` length (connection_headers (until_blank rest))) close).
  { unfold close_connection.
    destruct (existsb is_connection_line rest) eqn:Hex.
    - rewrite until_blank_map_fix_line, connection_headers_map_fix_line.
      rewrite existsb_blank, Hbody, orb_false_r in Hex.
      destruct (connection_headers (until_blank rest)) as [|x xs] eqn:Hk.
      + apply connection_headers_none in Hk. congruence.
      + done.
    - rewrite map_fix_line_none by done. rewrite until_blank_insert_close.
      rewrite existsb_blank in Hex. apply orb_false_elim in Hex as [Hex _].
      apply connection_headers_none in Hex.
      unfold connection_headers in *. rewrite filter_app, Hex.
      by rewrite filter_cons_True by apply is_connection_close. }
  split; [done|]. intros Hle. rewrite Hmain.
  destruct (connection_headers (until_blank rest)) as [|x [|y xs]];
    [done|done|cbn in Hle; lia].
Qed.

End header_rewriter.

Section classifier.
Context `{UnicodeData}.
Import proxy.

(** [parse_server_info] in terms of the parts of the request line. *)
Lemma parse_server_info_body_eq data :
  parse_server_info_body data =
    match request_parts data with
    | method :: target :: _ =>
        if bool_decide (Py.upper method = lit "CONNECT") then
          match Py.cut (lit ":") target with
          | None => Ret (None, None, None, false)
          | Some (hostname, port_str) =>
              match Py.int port_str with
              | Some server_port =>
                  Ret (Some (Py.lower hostname), Some server_port, Some true, true)
              | None => Raise (Exn ValueError (lit "invalid literal for int()"))
              end
          end
        else
          match Re.re_match url target with
          | None => Ret (None, None, None, false)
          | Some m =>
              match m !! 2%nat,
                    match m !! 3%nat with
                    | Some (c :: group3) => Py.int (c :: group3)
                    | _ => Some (if Py.startswith target (lit "https://")
                                 then 443 else 80)
                    end with
              | Some hostname, Some server_port =>
                  Ret (Some (Py.lower hostname), Some server_port, Some false, true)
              | _, None => Raise (Exn ValueError (lit "invalid literal for int()"))
              | None, _ => Raise (Exn AttributeError (lit "no attribute 'lower'"))
              end
          end
    | _ => Ret (None, None, None, false)
    end.
Proof.
  unfold parse_server_info_body, request_parts. cbn zeta.
  destruct (Py.splitlines (Utf8.decode Utf8.ignore data)) as [|line0 lines]; [done|].
  destruct (Py.split_max 2 (lit " ") (Py.strip line0)) as [|method [|target rest]];
    [done|done|].
  destruct (bool_decide (Py.upper method = lit "CONNECT")) eqn:Hc; [|done].
  unfold Py.contains. cbn [Py.split_max].
  by destruct (Py.cut (lit ":") target) as [[hostname port_str]|].
Qed.

(** C8.  The request classifier is total.  For every byte string it
    returns a 4-tuple, either the invalid one, with no host, no port and
    no tunnel flag, or a valid one with all three; an exception raised
    inside never leaves it.  On every malformed input (the empty
    input, a first line with fewer than two parts, a CONNECT target
    without a colon, another target that is not a URL of the pattern, a
    port that does not parse as an integer) it returns the invalid
    tuple. *)
Theorem parse_server_info_total (client_data_bytes : list byte) :
  (parse_server_info client_data_bytes = (None, None, None, false)
   ∨ ∃ hostname server_port is_connect,
       parse_server_info client_data_bytes
       = (Some hostname, Some server_port, Some is_connect, true))
  ∧ (∀ e, parse_server_info_body client_data_bytes = Raise e →
       parse_server_info client_data_bytes = (None, None, None, false))
  ∧ (malformed client_data_bytes →
       parse_server_info client_data_bytes = (None, None, None, false)).
Proof.
  unfold parse_server_info. rewrite parse_server_info_body_eq.
  split; [|split].
  - destruct (request_parts client_data_bytes) as [|method [|target rest]];
      [by left|by left|].
    destruct (bool_decide (Py.upper method = lit "CONNECT")).
    + destruct (Py.cut (lit ":") target) as [[hostname port_str]|]; [|by left].
      destruct (Py.int port_str); [right; eauto|by left].
    + destruct (Re.re_match url target) as [m|]; [|by left].
      destruct (m !! 2%nat) as [hostname|], (m !! 3%nat) as [[|c group3]|];
        try (by left); try (right; by eauto).
      * destruct (Py.int (c :: group3)); [right; eauto|by left].
      * by destruct (Py.int (c :: group3)); left.
  - by intros e ->.
  - intros [->|Hlen|method target rest -> Hm Hcolon|method target rest -> Hm Hurl
            |method target rest hostname port_str -> Hm Hcut Hint
            |method target rest m port_str -> Hm Hurl Hport Hne Hint].
    + done.
    + by destruct (request_parts client_data_bytes) as [|method [|target rest]];
        [| |cbn in Hlen; lia].
    + rewrite bool_decide_eq_true_2 by done. unfold Py.contains in Hcolon.
      by destruct (Py.cut (lit ":") target) as [[??]|].
    + rewrite bool_decide_eq_false_2 by done. by rewrite Hurl.
    + rewrite bool_decide_eq_true_2 by done. by rewrite Hcut, Hint.
    + rewrite bool_decide_eq_false_2 by done. rewrite Hurl, Hport.
      destruct port_str as [|c group3]; [done|].
      rewrite Hint. by destruct (m !! 2%nat).
Qed.

(** C5, as amended.  For a CONNECT request the classifier answers
    valid exactly when the target contains a colon and the text after
    the first colon parses as an integer; the port of the answer is that
    integer, whatever its value: the classifier makes no range check, so
    a port outside 1 to 65535 is classified valid as well. *)
Theorem connect_port_unchecked (client_data_bytes : list byte)
    (method target : list N) (rest : list (list N)) :
  request_parts client_data_bytes = method :: target :: rest →
  Py.upper method = lit "CONNECT" →
  parse_server_info client_data_bytes
  = match Py.cut (lit ":") target with
    | Some (hostname, port_str) =>
        match Py.int port_str with
        | Some server_port =>
            (Some (Py.lower hostname), Some server_port, Some true, true)
        | None => (None, None, None, false)
        end
    | None => (None, None, None, false)
    end
  ∧ ((parse_server_info client_data_bytes).2 = true ↔
     ∃ hostname port_str server_port,
       Py.cut (lit ":") target = Some (hostname, port_str)
       ∧ Py.int port_str = Some server_port).
Proof.
  intros Hparts Hm. unfold parse_server_info.
  rewrite parse_server_info_body_eq, Hparts.
  rewrite bool_decide_eq_true_2 by done.
  destruct (Py.cut (lit ":") target) as [[hostname port_str]|].
  - destruct (Py.int port_str) as [server_port|] eqn:Hint; (split; [done|]).
    + split; [eauto|done].
    + split; [done|]. intros (? & ? & ? & [= <- <-] & ?). congruence.
  - split; [done|]. split; [done|]. by intros (? & ? & ? & ? & ?).
Qed.

End classifier.

Section connections.
Context `{UnicodeData}.

Lemma emit_after e w : emit e w = (Ret (), after w [e]).
Proof. done. Qed.

Lemma bind_Ret {A B} (m : M A) (f : A → M B) w a w' :
  m w = (Ret a, w') → (m ≫= f) w = f a w'.
Proof. unfold mbind, M_bind. by intros ->. Qed.

Lemma bind_Raise {A B} (m : M A) (f : A → M B) w e w' :
  m w = (Raise e, w') → (m ≫= f) w = (Raise e, w').
Proof. unfold mbind, M_bind. by intros ->. Qed.

Lemma same_state_trans w1 w2 w3 :
  same_state w1 w2 → same_state w2 w3 → same_state w1 w3.
Proof. unfold same_state. intros (? & ? & ?) (? & ? & ?). repeat split; congruence. Qed.

Lemma frames_mret {A} (a : A) : frames (mret a).
Proof. by intros w. Qed.

Lemma frames_raise {A} e : frames (@raise A e).
Proof. by intros w. Qed.

Lemma frames_emit e : frames (emit e).
Proof. by intros w. Qed.

Lemma frames_bind {A B} (m : M A) (f : A → M B) :
  frames m → (∀ a, frames (f a)) → frames (m ≫= f).
Proof.
  intros Hm Hf w. specialize (Hm w). unfold mbind, M_bind.
  destruct (m w) as [[a|e] w1]; [|done].
  eapply same_state_trans; [exact Hm|apply Hf].
Qed.

Lemma frames_perform e raises : frames (perform e raises).
Proof.
  apply frames_bind; [apply frames_emit|]. intros _.
  destruct raises; [apply frames_raise|apply frames_mret].
Qed.

Lemma frames_encode s : frames (encode s).
Proof. unfold encode. destruct (Utf8.encode s); [apply frames_mret|apply frames_raise]. Qed.

Lemma frames_on_exit {A} (body : M A) cleanup :
  frames body → frames cleanup → frames (on_exit body cleanup).
Proof.
  intros Hb Hc w. specialize (Hb w). unfold on_exit.
  destruct (body w) as [r w1]. specialize (Hc w1).
  destruct (cleanup w1) as [[[]|e] w2]; by eapply same_state_trans.
Qed.

Lemma frames_log_request env entry : frames (logging_utils.log_request env entry).
Proof.
  apply frames_bind; [by intros w|].
  intros [|]; [apply frames_perform|apply frames_mret].
Qed.

Lemma frames_response_loop start_time steps st :
  frames (handlers.response_loop start_time steps st).
Proof.
  revert st. induction steps as [|step steps IH]; intros st; cbn [handlers.response_loop].
  { apply frames_bind; [apply frames_emit|]. intros _. apply frames_mret. }
  apply frames_bind; [apply frames_emit|]. intros _.
  destruct (recv utils.BUFFER_SIZE (http_recv step)) as [[|b chunk]|e].
  - apply frames_mret.
  - apply frames_bind; [apply frames_emit|]. intros _.
    destruct (http_forward step) as [e|].
    + destruct (is_timeout e); [apply IH|apply frames_raise].
    + destruct (handlers.ttfb_recorded st); apply IH.
  - destruct (is_timeout e); [apply IH|apply frames_raise].
Qed.

(** What the HTTP forwarder records.  Whatever the outside world does,
    it leaves the rate ledger alone, and either leaves the statistics as
    they were or adds one request of its host whose bytes received are the
    length of the UTF-8 encoding of the request text that it was given.
    The worker gives it the first buffer decoded with the handler
    [backslashreplace], in which every byte that is not UTF-8 stands as
    the four characters of its escape. *)
Lemma handle_http_bytes_received (env : environment) (client_data server_ip : list N)
    (server_port : Z) (hostname : list N) (start_time : Q) (w : world) :
  let w' := (handlers.handle_http env client_data server_ip server_port hostname
               start_time w).2 in
  request_counter w' = request_counter w
  ∧ (domain_stats w' = domain_stats w
     ∨ ∃ data sent duration ttfb,
         Utf8.encode client_data = Some data
         ∧ domain_stats w'
           = utils.update_domain_stats hostname sent (Z.of_nat (length data))
               duration ttfb (domain_stats w)).
Proof.
  cbn zeta. unfold handlers.handle_http, try_except.
  match goal with |- context [(on_exit ?b ?c ≫= ?f) w] =>
    set (origin := on_exit b c); set (rest := f) end.
  assert (Horigin : frames origin).
  { apply frames_on_exit; [|apply frames_emit].
    apply frames_bind; [apply frames_emit|]. intros _.
    apply frames_bind; [apply frames_perform|]. intros _.
    apply frames_bind; [apply frames_encode|]. intros data.
    apply frames_bind; [apply frames_perform|]. intros _.
    apply frames_response_loop. }
  assert (Hhandler : ∀ e : exn, frames
    (emit (Print (lit "HTTP error " ++ exn_text e ++ lit " for " ++ hostname)) ;;
     emit (Close client_socket))).
  { intros e. apply frames_bind; [apply frames_emit|]. intros _. apply frames_emit. }
  assert (Hcaught : ∀ e w1, same_state w w1 →
    let w' := ((emit (Print (lit "HTTP error " ++ exn_text e ++ lit " for " ++ hostname)) ;;
                emit (Close client_socket)) w1).2 in
    request_counter w' = request_counter w
    ∧ (domain_stats w' = domain_stats w
       ∨ ∃ data sent duration ttfb,
           Utf8.encode client_data = Some data
           ∧ domain_stats w'
             = utils.update_domain_stats hostname sent (Z.of_nat (length data))
                 duration ttfb (domain_stats w))).
  { intros e w1 Hw1. cbn zeta.
    destruct (same_state_trans _ _ _ Hw1 (Hhandler e w1)) as (? & ? & _).
    split; [done|by left]. }
  pose proof (Horigin w) as H0.
  destruct (origin w) as [[st|e] w1] eqn:Ho; cbn [snd] in H0.
  2:{ rewrite (bind_Raise _ _ _ _ _ Ho). by apply Hcaught. }
  rewrite (bind_Ret _ _ _ _ _ Ho). subst rest. cbn beta.
  pose proof (frames_encode client_data w1) as H1.
  destruct (encode client_data w1) as [[data1|e] w2] eqn:He1; cbn [snd] in H1.
  2:{ rewrite (bind_Raise _ _ _ _ _ He1). apply Hcaught.
      by eapply same_state_trans. }
  rewrite (bind_Ret _ _ _ _ _ He1).
  match goal with |- context [(logging_utils.log_request env ?entry ≫= ?k) w2] =>
    pose proof (frames_log_request env entry w2) as H2;
    destruct (logging_utils.log_request env entry w2) as [[[]|e] w3] eqn:Hlog;
    [rewrite (bind_Ret _ _ _ _ _ Hlog)|rewrite (bind_Raise _ _ _ _ _ Hlog)];
    cbn [snd] in H2 end.
  2:{ apply Hcaught. eapply same_state_trans; [|exact H2].
      by eapply same_state_trans. }
  pose proof (frames_encode client_data w3) as H3.
  destruct (encode client_data w3) as [[data|e] w4] eqn:He2; cbn [snd] in H3.
  2:{ rewrite (bind_Raise _ _ _ _ _ He2). apply Hcaught.
      eapply same_state_trans; [|exact H3]. eapply same_state_trans; [|exact H2].
      by eapply same_state_trans. }
  rewrite (bind_Ret _ _ _ _ _ He2). unfold with_domain_stats.
  cbn [snd request_counter domain_stats].
  assert (Henc : Utf8.encode client_data = Some data).
  { unfold encode in He2. destruct (Utf8.encode client_data); [|done].
    by injection He2 as -> _. }
  destruct H0 as (Hr0 & Hd0 & _), H1 as (Hr1 & Hd1 & _), H2 as (Hr2 & Hd2 & _),
    H3 as (Hr3 & Hd3 & _).
  split; [congruence|]. right. eexists data, _, _, _. split; [done|].
  by rewrite Hd3, Hd2, Hd1, Hd0.
Qed.

(** C3, as amended.  When the dial of the origin fails in the CONNECT
    tunneler, for whatever reason (refused, timed out), the worker
    closes the origin socket, prints the error with the host name, and
    closes the client socket.  It sends nothing to the client, no 502
    either; it writes no request log and leaves the statistics and the
    rate ledger as they were. *)
Theorem handle_https_dial_failure (env : environment) (server_ip : list N)
    (server_port : Z) (hostname client_data : list N) (start_time : Q)
    (w : world) (e : exn) :
  env_connect env = Some e →
  handlers.handle_https env server_ip server_port hostname client_data start_time w
  = (Ret (),
     after w [Settimeout server_socket 2; Connect server_ip server_port;
              Close server_socket;
              Print (lit "HTTPS error " ++ exn_text e ++ lit " for " ++ hostname);
              Close client_socket]).
Proof.
  intros Hdial. unfold handlers.handle_https, try_except, on_exit, perform.
  rewrite Hdial. unfold mbind, M_bind, raise, emit, after. cbn -[lit app].
  by rewrite <- !app_assoc.
Qed.

(** [send_error] with the code 429: one [sendall] of the status line,
    whose failure is ignored, and the close. *)
Lemma send_error_429 (env : environment) (w : world) :
  proxy.send_error env 429 (lit "Too Many Requests") w
  = (Ret (),
     after w [Sendall client_socket
                (blit "HTTP/1.1 429 Too Many Requests" ++ bCRLF ++ bCRLF);
              Close client_socket]).
Proof.
  unfold proxy.send_error, encode.
  assert (Henc :
    Utf8.encode (lit "HTTP/1.1 " ++ str_of_int 429 ++ lit " "
                 ++ lit "Too Many Requests" ++ CRLF ++ CRLF)
    = Some (blit "HTTP/1.1 429 Too Many Requests" ++ bCRLF ++ bCRLF))
    by (vm_compute; reflexivity).
  rewrite Henc. unfold try_except, perform, mbind, M_bind, mret, M_ret, raise, emit, after.
  destruct (env_error_send env); cbn -[lit blit app]; by rewrite <- !app_assoc.
Qed.

(** C4, as amended.  Whenever the rate limiter denies a connection,
    the worker prints [Rate limit exceeded for] and the source IP, calls
    [sendall] once with exactly the status line
    [HTTP/1.1 429 Too Many Requests] and two line ends, ignoring a
    failure of that send, and closes the client socket.  It never reads
    from the client socket.  The notice names the IP only: nothing that
    the worker emits carries the count of the window, and no log file is
    written.  The ledger is left pruned and the statistics are left as
    they were. *)
Theorem proxy_rate_limited (env : environment) (client_ip : peer) (w : world) :
  let ip := proxy.client_ip_str client_ip in
  let checked := proxy.check_rate_limit ip (env_time env) (request_counter w) in
  checked.1 = false →
  proxy.proxy env client_ip w
  = (Ret (),
     {| request_counter := checked.2;
        domain_stats := domain_stats w;
        LOG_FLAG := LOG_FLAG w;
        trace := trace w ++
          [Settimeout client_socket 1;
           Print (lit "Rate limit exceeded for " ++ ip);
           Sendall client_socket
             (blit "HTTP/1.1 429 Too Many Requests" ++ bCRLF ++ bCRLF);
           Close client_socket] |}).
Proof.
  intros ip checked Hdenied. unfold proxy.proxy.
  rewrite (bind_Ret _ _ _ _ _ (emit_after _ _)).
  fold ip. unfold with_request_counter.
  unfold mbind at 1. unfold M_bind. cbn [request_counter after].
  fold checked. rewrite Hdenied. cbn [negb].
  rewrite (bind_Ret _ _ _ _ _ (emit_after _ _)).
  rewrite send_error_429. unfold after. cbn -[lit blit app].
  by rewrite <- !app_assoc.
Qed.

End connections.

Section statistics.
Context `{UnicodeData}.
Implicit Types (ds : gmap (list N) stats) (c : record_call).

(** [update_domain_stats] in one step: the entry, or the zero entry,
    with the arguments added. *)
Lemma record_lookup c ds :
  record c ds !! call_hostname c
  = Some (let s := default {| requests := 0; bytes_sent := 0; bytes_received := 0;
                              total_duration := 0; total_ttfb := 0 |}
                     (ds !! call_hostname c) in
          {| requests := requests s + 1;
             bytes_sent := bytes_sent s + call_sent c;
             bytes_received := bytes_received s + call_received c;
             total_duration := total_duration s + call_duration c;
             total_ttfb := match call_ttfb c with
                           | Some ttfb => total_ttfb s + ttfb
                           | None => total_ttfb s
                           end |}).
Proof.
  unfold record, utils.update_domain_stats. cbn zeta.
  rewrite lookup_insert_eq. f_equal.
  destruct (ds !! call_hostname c) as [s|] eqn:Hs.
  - rewrite decide_False by done. by rewrite lookup_total_alt, Hs.
  - rewrite decide_True by done. by rewrite lookup_total_insert_eq.
Qed.

Lemma record_lookup_ne c ds hostname :
  hostname ≠ call_hostname c → record c ds !! hostname = ds !! hostname.
Proof.
  intros Hne. unfold record, utils.update_domain_stats. cbn zeta.
  rewrite lookup_insert_ne by done.
  case_decide; [|done]. by rewrite lookup_insert_ne.
Qed.

Lemma stats_after_snoc calls c ds :
  stats_after (calls ++ [c]) ds = record c (stats_after calls ds).
Proof. unfold stats_after. by rewrite foldl_app. Qed.

Lemma totals_snoc calls c :
  totals (calls ++ [c])
  = {| requests := requests (totals calls) + 1;
       bytes_sent := bytes_sent (totals calls) + call_sent c;
       bytes_received := bytes_received (totals calls) + call_received c;
       total_duration := total_duration (totals calls) + call_duration c;
       total_ttfb := match call_ttfb c with
                     | Some ttfb => total_ttfb (totals calls) + ttfb
                     | None => total_ttfb (totals calls)
                     end |}.
Proof.
  unfold totals. cbn [requests bytes_sent bytes_received total_duration total_ttfb].
  rewrite length_app, !map_app, omap_app, !foldl_app. cbn [length map foldl omap].
  f_equal; [lia|]. cbn [omap list_omap]. by destruct (call_ttfb c).
Qed.




End statistics.

Section rate_limiter.
Import proxy.
Implicit Types (rc : gmap (list N) (list Q)) (ip : list N) (now t : Q).

(** The body of [check_rate_limit] in one step: prune, then deny or
    append. *)
Lemma check_rate_limit_eq ip now rc :
  check_rate_limit ip now rc =
    let pruned := filter (λ t, now - t < window)%Q (rc !!! ip) in
    if decide (limit ≤ length pruned)%nat
    then (false, <[ip := pruned]> rc)
    else (true, <[ip := pruned ++ [now]]> rc).
Proof.
  unfold check_rate_limit. cbn zeta.
  set (rc0 := if decide (rc !! ip = None) then <[ip:=[]]> rc else rc).
  assert (Hsame : rc0 !!! ip = rc !!! ip).
  { subst rc0. case_decide as Hn; [|done].
    rewrite lookup_total_insert_eq. by rewrite lookup_total_alt, Hn. }
  assert (Hins : ∀ x, <[ip := x]> rc0 = <[ip := x]> rc).
  { intros x. subst rc0. case_decide; [|done]. by rewrite insert_insert_eq. }
  rewrite lookup_total_insert_eq, Hsame, Hins.
  case_decide; [done|]. by rewrite insert_insert_eq.
Qed.

Lemma check_ledger ip now rc :
  (check_rate_limit ip now rc).2 !!! ip =
    let pruned := filter (λ t, now - t < window)%Q (rc !!! ip) in
    if decide (limit ≤ length pruned)%nat then pruned else pruned ++ [now].
Proof.
  rewrite check_rate_limit_eq. cbn zeta.
  case_decide; cbn [snd]; by rewrite lookup_total_insert_eq.
Qed.

Lemma check_answer ip now rc :
  (check_rate_limit ip now rc).1 =
    bool_decide (length (filter (λ t, now - t < window)%Q (rc !!! ip)) < limit)%nat.
Proof.
  rewrite check_rate_limit_eq. cbn zeta. case_decide; cbn [fst].
  - rewrite bool_decide_eq_false_2; [done|lia].
  - rewrite bool_decide_eq_true_2; [done|lia].
Qed.

Lemma check_other ip ip' now rc :
  ip' ≠ ip → (check_rate_limit ip now rc).2 !! ip' = rc !! ip'.
Proof.
  intros Hne. rewrite check_rate_limit_eq. cbn zeta.
  case_decide; cbn [snd]; by rewrite lookup_insert_ne.
Qed.



Lemma ledger_after_cons calls c rc :
  ledger_after (c :: calls) rc = ledger_after calls (check_rate_limit c.1 c.2 rc).2.
Proof. done. Qed.


Lemma filter_filter_sub {A} (P R : A → Prop) `{∀ x, Decision (P x)}
    `{∀ x, Decision (R x)} (l : list A) :
  (∀ x, P x → R x) → filter P (filter R l) = filter P l.
Proof.
  intros HPR. induction l as [|x l IH]; [done|].
  rewrite !filter_cons. destruct (decide (R x)) as [HR|HR].
  - by rewrite filter_cons, IH.
  - rewrite IH. rewrite decide_False; [done|]. naive_solver.
Qed.






(** A run of denied checks of one client leaves, within the window of
    any later reading, exactly what the ledger held before the run. *)
Lemma denied_run_ledger ip (later : list Q) now' rc :
  Forall (λ t, t <= now')%Q later →
  Forall (λ b, b = false) (answers (map (pair ip) later) rc) →
  filter (λ t, now' - t < window)%Q (ledger_after (map (pair ip) later) rc !!! ip)
  = filter (λ t, now' - t < window)%Q (rc !!! ip).
Proof.
  revert rc. induction later as [|t1 later IH]; intros rc Hle Hden; [done|].
  cbn [map answers fst snd] in Hden. rewrite Forall_cons in Hden.
  destruct Hden as [Hd1 Hden]. rewrite Forall_cons in Hle. destruct Hle as [Ht1 Hle].
  cbn [map]. rewrite ledger_after_cons. cbn [fst snd].
  rewrite IH by done. rewrite check_ledger. cbn zeta.
  rewrite check_answer in Hd1. apply bool_decide_eq_false in Hd1.
  rewrite decide_True by lia. apply filter_filter_sub. intros t Ht. lra.
Qed.

(** C10.  A denied check prunes but records nothing: afterwards the
    ledger of the checked IP is exactly its previous in-window readings,
    and the ledgers of all other IPs are unchanged.  Hence denied checks
    never count toward the limit: after the denied check and any further
    run of denied checks of the same client, the answer to a later check
    is decided by how many readings of the ledger as it was before the
    first denial are still inside the window. *)
Theorem denied_check_prunes_only (client_ip : list N) (now : Q)
    (rc rc' : gmap (list N) (list Q)) :
  check_rate_limit client_ip now rc = (false, rc') →
  rc' !! client_ip = Some (filter (λ t, now - t < window)%Q (rc !!! client_ip))
  ∧ (∀ ip', ip' ≠ client_ip → rc' !! ip' = rc !! ip')
  ∧ (∀ (later : list Q) (now' : Q),
       (now <= now')%Q → Forall (λ t, t <= now')%Q later →
       Forall (λ b, b = false) (answers (map (pair client_ip) later) rc') →
       (check_rate_limit client_ip now'
          (ledger_after (map (pair client_ip) later) rc')).1
       = bool_decide
           (length (filter (λ t, now' - t < window)%Q (rc !!! client_ip)) < limit)%nat).
Proof.
  intros Hcheck.
  assert (Hrc' : rc' = (check_rate_limit client_ip now rc).2) by by rewrite Hcheck.
  assert (Hans : (check_rate_limit client_ip now rc).1 = false) by by rewrite Hcheck.
  rewrite check_answer in Hans. apply bool_decide_eq_false in Hans.
  assert (Hled : rc' !! client_ip
                 = Some (filter (λ t, now - t < window)%Q (rc !!! client_ip))).
  { rewrite Hrc', check_rate_limit_eq. cbn zeta.
    rewrite decide_True by lia. cbn [snd]. by rewrite lookup_insert_eq. }
  split; [done|]. split.
  - intros ip' Hne. rewrite Hrc'. by apply check_other.
  - intros later now' Hnow Hle Hden. rewrite check_answer.
    rewrite denied_run_ledger by done.
    rewrite (lookup_total_alt rc'), Hled. cbn [default from_option id].
    rewrite filter_filter_sub; [done|]. intros t Ht. lra.
Qed.

End rate_limiter.

(* ====================================================================== *)
(** * Further properties of the rate limiter *)
(* ====================================================================== *)

Section rate_limiter_more.
Import proxy.
Implicit Types (rc : gmap (list N) (list Q)) (ip : list N) (now t : Q).

Lemma filter_all {A} (P : A → Prop) `{∀ x, Decision (P x)} (l : list A) :
  Forall P l → filter P l = l.
Proof.
  induction 1 as [|x l Hx _ IH]; [done|]. by rewrite filter_cons_True, IH.
Qed.

Lemma length_filter_filter {A} (P R : A → Prop) `{∀ x, Decision (P x)}
    `{∀ x, Decision (R x)} (l : list A) :
  (length (filter P (filter R l)) ≤ length (filter P l))%nat.
Proof.
  induction l as [|x l IH]; [done|]. rewrite !filter_cons.
  destruct (decide (R x)), (decide (P x)); rewrite ?filter_cons;
    try destruct (decide (P x)); cbn [length]; try done; lia.
Qed.

(** A burst of checks of one client at one instant, on a ledger whose
    readings all lie in the window of that instant, is admitted in arrival
    order until the ledger holds [limit] readings, and denied from then
    on. *)
Theorem burst_admitted_until_full ip now (n : nat) rc :
  Forall (λ t, now - t < window)%Q (rc !!! ip) →
  answers (replicate n (ip, now)) rc
  = replicate (n `min` (limit - length (rc !!! ip))) true
    ++ replicate (n - (limit - length (rc !!! ip))) false.
Proof.
  revert rc. induction n as [|n IH]; intros rc Hin; [done|].
  cbn [replicate answers fst snd].
  rewrite check_answer, IH; rewrite check_ledger; cbn zeta; rewrite filter_all by done.
  - destruct (decide (limit ≤ length (rc !!! ip))%nat) as [Hfull|Hroom].
    + rewrite bool_decide_eq_false_2 by lia.
      replace (limit - length (rc !!! ip))%nat with 0%nat by lia.
      rewrite !Nat.min_0_r, !Nat.sub_0_r. done.
    + rewrite bool_decide_eq_true_2 by lia. rewrite length_app. cbn [length].
      replace (limit - length (rc !!! ip))%nat
        with (S (limit - (length (rc !!! ip) + 1)))%nat by lia.
      rewrite <- Nat.succ_min_distr. cbn [replicate app Nat.sub]. done.
  - case_decide; [done|]. apply Forall_app. split; [done|].
    apply Forall_singleton. unfold window. lra.
Qed.

(** Recovery.  If every reading in the ledger of a client has left the
    window of each of the next checks of that client, and these are at
    most [limit], then all of them are admitted, whatever their order. *)
Theorem idle_client_admitted_again ip (times : list Q) rc :
  Forall (λ now, Forall (λ t, window <= now - t)%Q (rc !!! ip)) times →
  (length times ≤ limit)%nat →
  answers (map (pair ip) times) rc = replicate (length times) true.
Proof.
  intros Hold Hlen.
  assert (Hgen : ∀ (m : nat) rc,
    Forall (λ now, length (filter (λ t, now - t < window)%Q (rc !!! ip)) ≤ m)%nat times →
    (m + length times ≤ limit)%nat →
    answers (map (pair ip) times) rc = replicate (length times) true).
  { clear. induction times as [|now times IH]; intros m rc Hm Hlen; [done|].
    apply Forall_cons in Hm as [Hnow Hm]. cbn [length] in Hlen.
    cbn [map answers fst snd length replicate].
    rewrite check_answer, bool_decide_eq_true_2 by lia. f_equal.
    apply (IH (S m)); [|lia].
    rewrite check_ledger. cbn zeta. rewrite decide_False by lia.
    eapply Forall_impl; [exact Hm|]. intros now' Hnow'. cbn beta in *.
    rewrite filter_app, length_app.
    pose proof (length_filter_filter (λ t, now' - t < window)%Q
                  (λ t, now - t < window)%Q (rc !!! ip)).
    pose proof (length_filter (λ t, now' - t < window)%Q [now]).
    cbn [length] in *. lia. }
  apply (Hgen 0%nat); [|lia].
  eapply Forall_impl; [exact Hold|]. intros now Hnow. cbn beta in *.
  assert (Hnil : filter (λ t, now - t < window)%Q (rc !!! ip) = []);
    [|rewrite Hnil; cbn; lia].
  clear -Hnow. induction Hnow as [|t l Ht _ IH]; [done|].
  rewrite filter_cons_False; [done|]. lra.
Qed.

End rate_limiter_more.

(* ====================================================================== *)
(** * Properties of the blocklist *)
(* ====================================================================== *)

Section blocklist.
Context `{UnicodeData}.
Import proxy.

Lemma fnmatch_literal (name pat : list N) :
  literal pat → fnmatch name pat = true ↔ name = pat.
Proof.
  intros Hlit. revert name. induction Hlit as [|p pat [Hs Hq] _ IH]; intros name.
  { destruct name; cbn; naive_solver. }
  cbn -[N.eqb]. destruct (N.eqb_spec p 42) as [|_]; [done|].
  destruct name as [|c name]; [done|].
  destruct (N.eqb_spec p 63) as [|_]; [done|]. cbn -[N.eqb].
  destruct (N.eqb_spec p c) as [<-|Hne]; cbn; [rewrite IH|]; naive_solver.
Qed.

Lemma elem_of_suffixes (s x : list N) : x ∈ Py.suffixes s ↔ x `suffix_of` s.
Proof.
  induction s as [|c s IH]; cbn [Py.suffixes].
  - rewrite list_elem_of_singleton. split; [by intros ->|]. apply suffix_nil_inv.
  - rewrite elem_of_cons, IH. split.
    + intros [->|Hs]; [done|by apply suffix_cons_r].
    + intros [[|c' k] Hk]; [left; by rewrite Hk|right].
      injection Hk as _ ->. by exists k.
Qed.

Lemma fnmatch_star (name pat : list N) :
  literal pat → fnmatch name (42%N :: pat) = true ↔ pat `suffix_of` name.
Proof.
  intros Hlit. cbn -[N.eqb]. rewrite N.eqb_refl.
  rewrite existsb_exists. split.
  - intros (x & Hx & Hm). apply fnmatch_literal in Hm as ->; [|done].
    by apply elem_of_suffixes, list_elem_of_In.
  - intros Hsuf. exists pat. split; [by apply list_elem_of_In, elem_of_suffixes|].
    by apply fnmatch_literal.
Qed.

(** A host name is blocked exactly if it ends with [.youtube.com],
    [.ytimg.com] or [.googlevideo.com]; the bare domains are not blocked,
    and the comparison is by code point, so case matters. *)
Theorem is_blocked_iff_suffix (hostname : list N) :
  is_blocked hostname = true ↔
  lit ".youtube.com" `suffix_of` hostname
  ∨ lit ".ytimg.com" `suffix_of` hostname
  ∨ lit ".googlevideo.com" `suffix_of` hostname.
Proof.
  unfold is_blocked, BLOCKLIST. cbn [existsb]. rewrite orb_false_r, !orb_true_iff.
  change (lit "*.youtube.com") with (42%N :: lit ".youtube.com").
  change (lit "*.ytimg.com") with (42%N :: lit ".ytimg.com").
  change (lit "*.googlevideo.com") with (42%N :: lit ".googlevideo.com").
  rewrite !fnmatch_star; [done|..]; vm_compute; repeat constructor; done.
Qed.

End blocklist.

(* ====================================================================== *)
(** * Further properties of the header rewriter *)
(* ====================================================================== *)

(** Evaluate the comparisons of two literal characters. *)
Ltac eval_eqb :=
  repeat match goal with
  | |- context [(?a =? ?b)%N] =>
      let v := eval vm_compute in (a =? b)%N in
      lazymatch v with
      | true => change (a =? b)%N with true
      | false => change (a =? b)%N with false
      end
  end; cbn match.

Section header_rewriter_more.
Context `{UnicodeData}.

Local Abbreviation close := (lit "Connection: close").
Local Abbreviation fix_line :=
  (λ l : list N, if is_connection_line l then close else l).

Lemma other_lines_map_fix_line (lines : list (list N)) :
  filter (λ l, is_connection_line l = false) (map fix_line lines)
  = filter (λ l, is_connection_line l = false) lines.
Proof.
  induction lines as [|l lines IH]; [done|]. cbn [map].
  destruct (is_connection_line l) eqn:Hl.
  - rewrite !filter_cons_False, IH; [done|by rewrite Hl|].
    by rewrite is_connection_close.
  - by rewrite !filter_cons_True, IH.
Qed.

(** What the rewriter does to the lines after the request line, for every
    request: the lines that are no [Connection] header are kept as they
    are and in their order; every line that tests as a [Connection] header
    is [Connection: close]; and there is at least one such line. *)
Theorem modify_headers_other_lines (request_str : list N)
    (hostname : option (list N)) :
  let lines := tail (Py.split CRLF request_str) in
  let new_lines := tail (Py.split CRLF (utils.modify_headers request_str hostname)) in
  filter (λ l, is_connection_line l = false) new_lines
  = filter (λ l, is_connection_line l = false) lines
  ∧ Forall (λ l, is_connection_line l = true → l = lit "Connection: close") new_lines
  ∧ lit "Connection: close" ∈ new_lines.
Proof.
  cbn zeta. destruct (Py.split CRLF request_str) as [|l0 rest] eqn:Hsplit.
  { by apply split_max_nonempty in Hsplit. }
  rewrite (split_modify_headers _ hostname _ _ Hsplit). cbn [tail].
  unfold close_connection. destruct (existsb is_connection_line rest) eqn:Hex.
  - split; [apply other_lines_map_fix_line|]. split.
    + apply Forall_forall. intros l Hl Hc.
      apply list_elem_of_In, in_map_iff in Hl as (l' & <- & _).
      destruct (is_connection_line l') eqn:Hl'; [done|congruence].
    + apply existsb_exists in Hex as (l & Hl & Hc).
      apply list_elem_of_In, in_map_iff. exists l. by rewrite Hc.
  - rewrite map_fix_line_none by done. unfold Py.insert_at.
    assert (Hnone : Forall (λ l, is_connection_line l = true → l = close) rest).
    { apply Forall_forall. intros l Hl Hc.
      assert (existsb is_connection_line rest = true); [|congruence].
      apply existsb_exists. exists l. split; [by apply list_elem_of_In|done]. }
    split; [|split].
    + rewrite filter_app, filter_cons_False by (by rewrite is_connection_close).
      rewrite <- filter_app. by rewrite take_drop.
    + apply Forall_app. split; [by apply Forall_take|].
      apply Forall_cons. split; [done|by apply Forall_drop].
    + apply elem_of_app. right. apply elem_of_cons. by left.
Qed.

(** A greedy repetition takes a whole run of the class when the text
    stops there and the continuation agrees. *)
Lemma many_greedy p (a s' : list N) caps (k : Re.cont) m :
  Forall (λ c, p c = true) a →
  match s' with [] => True | c :: _ => p c = false end →
  k a s' caps = Some m →
  Re.many p (a ++ s') caps k = Some m.
Proof.
  intros Ha Hs'. revert k. induction Ha as [|c a Hc _ IH]; intros k Hk.
  - cbn [app]. destruct s' as [|c s']; [done|]. cbn. by rewrite Hs'.
  - cbn [app Re.many]. rewrite Hc. by rewrite (IH (λ a0, k (c :: a0)) Hk).
Qed.

Lemma contains_char_false c (s : list N) : Py.contains [c] s = false ↔ c ∉ s.
Proof.
  rewrite <- cut_char_None. unfold Py.contains.
  destruct (Py.cut [c] s) as [[??]|]; naive_solver.
Qed.

(** The pattern of [modify_headers] matches [http://] or [https://], a
    host and a path, and group 1 is the slash and the path. *)
Lemma absolute_url_match (secure : bool) (host path : list N) :
  host ≠ [] → 47%N ∉ host → 10%N ∉ path →
  ∃ m, Re.re_match utils.absolute_url
         (lit (if secure then "https://" else "http://") ++ host ++ 47%N :: path)
       = Some m
       ∧ m !! 1%nat = Some (47%N :: path).
Proof.
  intros Hhost Hslash Hnl. destruct host as [|c host]; [done|].
  apply not_elem_of_cons in Hslash as [Hc Hslash].
  assert (Hrun : Forall (λ c, negb (c =? 47)%N = true) host).
  { apply Forall_forall. intros d Hd. apply negb_true_iff, N.eqb_neq.
    intros ->. done. }
  assert (Hdot : Forall (λ c, Re.dot c = true) path).
  { apply Forall_forall. intros d Hd. apply negb_true_iff, N.eqb_neq.
    intros ->. done. }
  assert (Hc' : negb (c =? 47)%N = true) by by apply negb_true_iff, N.eqb_neq.
  exists (<[1%nat := 47%N :: path]> ∅). split; [|apply lookup_insert_eq].
  assert (Hc47 : (47 =? c)%N = false) by (apply N.eqb_neq; congruence).
  unfold Re.re_match, utils.absolute_url.
  destruct secure; cbn -[N.eqb negb Re.many]; rewrite decide_True by done;
    eval_eqb; cbn [negb]; rewrite ?Hc47, Hc';
    (erewrite (many_greedy _ host (47%N :: path)); [done|done|done|]);
    eval_eqb;
    (rewrite <- (app_nil_r path) at 1;
     erewrite (many_greedy _ path []); [done|done|done|]);
    cbn; rewrite ?app_nil_r; done.
Qed.

(** A request line [METHOD http://host/path VERSION] (or with [https],
    or without a version) leaves the rewriter as [METHOD /path VERSION]:
    scheme and host are stripped from the target and nothing else of the
    line changes. *)
Theorem modify_headers_strips_origin (secure : bool)
    (method host path version : list N)
    (request_str : list N) (hostname : option (list N)) :
  hd [] (Py.split CRLF request_str)
  = method ++ 32%N :: (lit (if secure then "https://" else "http://")
                         ++ host ++ 47%N :: path) ++ version →
  32%N ∉ method → host ≠ [] → 32%N ∉ host → 47%N ∉ host →
  32%N ∉ path → 10%N ∉ path →
  (version = [] ∨ ∃ v, version = 32%N :: v) →
  hd [] (Py.split CRLF (utils.modify_headers request_str hostname))
  = method ++ 32%N :: (47%N :: path) ++ version.
Proof.
  intros Hline Hmethod Hhost Hsp Hslash Hpath Hnl Hversion.
  destruct (Py.split CRLF request_str) as [|l0 rest] eqn:Hsplit.
  { by apply split_max_nonempty in Hsplit. }
  rewrite (split_modify_headers _ hostname _ _ Hsplit). cbn [hd] in *.
  subst l0. unfold rewrite_request_line. rewrite split_max_2_space.
  set (target := lit (if secure then "https://" else "http://")
                   ++ host ++ 47%N :: path).
  assert (Htarget : 32%N ∉ target).
  { unfold target. rewrite !not_elem_of_app, not_elem_of_cons.
    split; [|split; [done|split; [done|done]]].
    destruct secure; cbn; rewrite !not_elem_of_cons;
      repeat split; try done; apply not_elem_of_nil. }
  destruct (absolute_url_match secure host path) as (m & Hm & Hgroup); try done.
  fold target in Hm.
  change (method ++ 32%N :: target ++ version)
    with (method ++ [32%N] ++ target ++ version).
  rewrite (cut_char_app 32 method (target ++ version)) by done.
  destruct Hversion as [->|[v ->]].
  - rewrite app_nil_r. apply cut_char_None in Htarget. rewrite Htarget.
    rewrite Hm, Hgroup. cbn. by rewrite app_nil_r.
  - change (target ++ 32%N :: v) with (target ++ [32%N] ++ v).
    rewrite (cut_char_app 32 target v) by done.
    rewrite Hm, Hgroup. by cbn.
Qed.

End header_rewriter_more.

(* ====================================================================== *)
(** * Further properties of the statistics *)
(* ====================================================================== *)

Section statistics_more.
Context `{UnicodeData}.
Implicit Types (ds : gmap (list N) stats) (c : record_call).

(** Exchanges with different hosts are recorded independently: the
    dictionary is the same whichever of the two workers takes the lock
    first. *)
Theorem record_commutes c1 c2 ds :
  call_hostname c1 ≠ call_hostname c2 →
  record c1 (record c2 ds) = record c2 (record c1 ds).
Proof.
  intros Hne. apply map_eq. intros h.
  destruct (decide (h = call_hostname c1)) as [->|H1].
  - rewrite record_lookup, !(record_lookup_ne c2) by done.
    by rewrite record_lookup.
  - rewrite (record_lookup_ne c1) by done.
    destruct (decide (h = call_hostname c2)) as [->|H2].
    + rewrite !record_lookup. by rewrite (record_lookup_ne c1) by done.
    + by rewrite !record_lookup_ne by done.
Qed.

Lemma sum_insert (g : stats → Z) ds h s :
  map_fold (λ _ d total, total + g d) 0 (<[h:=s]> ds)
  = map_fold (λ _ d total, total + g d) 0 ds - default 0 (g <$> ds !! h) + g s.
Proof.
  assert (Hcomm : ∀ (m : gmap (list N) stats) (j1 j2 : list N) (z1 z2 : stats) (y : Z),
    j1 ≠ j2 → m !! j1 = Some z1 → m !! j2 = Some z2 →
    y + g z2 + g z1 = y + g z1 + g z2) by (intros; lia).
  destruct (ds !! h) as [s0|] eqn:Hs; cbn [fmap option_fmap option_map default from_option id].
  - rewrite <- insert_delete_eq.
    rewrite (map_fold_insert_L _ _ _ _ _ (Hcomm _)) by apply lookup_delete_eq.
    rewrite (map_fold_delete_L _ _ h s0 ds (Hcomm _) Hs). cbn beta. lia.
  - rewrite (map_fold_insert_L _ _ _ _ _ (Hcomm _) Hs). lia.
Qed.

Lemma sum_record (g : stats → Z) (x : record_call → Z) c ds :
  g {| requests := 0; bytes_sent := 0; bytes_received := 0;
       total_duration := 0; total_ttfb := 0 |} = 0 →
  (∀ s total_ttfb',
     g {| requests := requests s + 1;
          bytes_sent := bytes_sent s + call_sent c;
          bytes_received := bytes_received s + call_received c;
          total_duration := total_duration s + call_duration c;
          total_ttfb := total_ttfb' |} = g s + x c) →
  map_fold (λ _ d total, total + g d) 0 (record c ds)
  = map_fold (λ _ d total, total + g d) 0 ds + x c.
Proof.
  intros Hzero Hbump.
  unfold record, utils.update_domain_stats. cbn zeta.
  destruct (ds !! call_hostname c) as [s|] eqn:Hs.
  - rewrite decide_False by done. rewrite sum_insert, Hs.
    rewrite (lookup_total_correct _ _ _ Hs), Hbump.
    cbn [fmap option_fmap option_map default from_option id]. lia.
  - rewrite decide_True by done. rewrite !sum_insert, Hs, lookup_insert_eq.
    rewrite lookup_total_insert_eq, Hbump, Hzero.
    cbn [fmap option_fmap option_map default from_option id]. lia.
Qed.

(** The totals of the report count every recorded exchange once.  From
    the statistics after any sequence of recorded exchanges, whatever
    their hosts, [generate_text_summary] reports as total requests the
    number of exchanges, and as total bytes sent and received the sums of
    their byte counts. *)
Theorem summary_totals (calls : list record_call) :
  let ds := stats_after calls ∅ in
  logging_utils.total_requests ds = requests (totals calls)
  ∧ logging_utils.total_bytes_sent ds = bytes_sent (totals calls)
  ∧ logging_utils.total_bytes_received ds = bytes_received (totals calls).
Proof.
  cbn zeta. induction calls as [|c calls (IH1 & IH2 & IH3)] using rev_ind; [done|].
  rewrite stats_after_snoc, totals_snoc.
  cbn [requests bytes_sent bytes_received].
  unfold logging_utils.total_requests, logging_utils.total_bytes_sent,
    logging_utils.total_bytes_received in *.
  rewrite <- IH1, <- IH2, <- IH3.
  split; [|split].
  - by apply (sum_record requests (λ _, 1)).
  - by apply (sum_record bytes_sent call_sent).
  - by apply (sum_record bytes_received call_received).
Qed.

End statistics_more.

(* ====================================================================== *)
(** * Further properties of the request classifier *)
(* ====================================================================== *)

Section classifier_more.
Context `{UnicodeData}.
Import proxy.

Lemma opt_Some {A} (x : option A) (alt : option A) m :
  x = Some m → match x with Some m0 => Some m0 | None => alt end = Some m.
Proof. by intros ->. Qed.

Lemma many_greedy_nil p (a : list N) caps (k : Re.cont) m :
  Forall (λ c, p c = true) a → k a [] caps = Some m → Re.many p a caps k = Some m.
Proof.
  intros Ha Hk. rewrite <- (app_nil_r a). by apply many_greedy.
Qed.

(** The pattern of [parse_server_info] on a target with a scheme: group 2
    is the host, group 3 the digits of the port if there is one. *)
Lemma url_match (secure : bool) (host : list N) (port path : option (list N)) :
  host ≠ [] →
  Forall (λ c, c ≠ 47%N ∧ c ≠ 58%N) host →
  (∀ d, port = Some d → d ≠ [] ∧ Forall (λ c, Re.digit c = true) d) →
  (∀ p, path = Some p → 10%N ∉ p) →
  ∃ m, Re.re_match url
         (lit (if secure then "https://" else "http://") ++ host
          ++ match port with Some d => 58%N :: d | None => [] end
          ++ match path with Some p => 47%N :: p | None => [] end)
       = Some m
       ∧ m !! 2%nat = Some host ∧ m !! 3%nat = port.
Proof.
  intros Hhost Hclass Hport Hpath. destruct host as [|c host]; [done|].
  apply Forall_cons in Hclass as [[Hc47 Hc58] Hclass].
  assert (Hc : negb ((c =? 47) || (c =? 58))%N = true).
  { apply negb_true_iff, orb_false_iff. split; by apply N.eqb_neq. }
  assert (Hrun : Forall (λ c, negb ((c =? 47) || (c =? 58))%N = true) host).
  { eapply Forall_impl; [exact Hclass|]. intros d [??].
    apply negb_true_iff, orb_false_iff. split; by apply N.eqb_neq. }
  assert (Hdot : ∀ p, path = Some p → Forall (λ c, Re.dot c = true) p).
  { intros p Hp. apply Forall_forall. intros x Hx.
    apply negb_true_iff, N.eqb_neq. intros ->. by apply (Hpath p Hp). }
  assert (Hslash : Re.digit 47 = false) by done.
  unfold Re.re_match, url.
  destruct port as [[|d1 d]|].
  { by destruct (Hport [] eq_refl). }
  all: try (destruct (Hport _ eq_refl) as [_ [Hd1 Hd]%Forall_cons]).
  all: destruct path as [p|]; try specialize (Hdot _ eq_refl).
  all: destruct secure; (eexists; split;
    [cbn -[N.eqb negb orb Re.many Re.digit]; rewrite decide_True by done;
     eval_eqb; rewrite Hc; repeat apply opt_Some;
     (apply many_greedy; [exact Hrun|by eval_eqb|]);
     cbn -[N.eqb negb orb Re.many Re.digit]; eval_eqb;
     rewrite ?Hd1;
     repeat first
       [ reflexivity
       | apply opt_Some
       | apply many_greedy; [eassumption|first [exact I|eassumption]|]
       | apply many_greedy_nil; [eassumption|]
       | progress (cbn -[N.eqb negb orb Re.many Re.digit]; eval_eqb) ]
    |]).
  all: split; by simplify_map_eq.
Qed.

(** A request in absolute form is classified by its URL.  For a method
    other than CONNECT and a target [http://host], [https://host], with or
    without [:port] and [/path], the classifier answers with the host in
    lower case, no tunnel, and the port that the digits give, or, without
    digits, 443 for [https://] and 80 for [http://].  If the digits do
    not parse (there are too many of them) the answer is the invalid
    tuple. *)
Theorem absolute_form_classified (client_data_bytes : list byte)
    (method : list N) (secure : bool) (host : list N)
    (port path : option (list N)) (rest : list (list N)) :
  request_parts client_data_bytes
  = method
    :: (lit (if secure then "https://" else "http://") ++ host
        ++ match port with Some d => 58%N :: d | None => [] end
        ++ match path with Some p => 47%N :: p | None => [] end)
    :: rest →
  Py.upper method ≠ lit "CONNECT" →
  host ≠ [] →
  Forall (λ c, c ≠ 47%N ∧ c ≠ 58%N) host →
  (∀ d, port = Some d → d ≠ [] ∧ Forall (λ c, Re.digit c = true) d) →
  (∀ p, path = Some p → 10%N ∉ p) →
  parse_server_info client_data_bytes
  = match (match port with
           | Some d => Py.int d
           | None => Some (if secure then 443 else 80)
           end) with
    | Some server_port => (Some (Py.lower host), Some server_port, Some false, true)
    | None => (None, None, None, false)
    end.
Proof.
  intros Hparts Hmethod Hhost Hclass Hport Hpath.
  unfold parse_server_info. rewrite parse_server_info_body_eq, Hparts.
  rewrite bool_decide_eq_false_2 by done.
  destruct (url_match secure host port path Hhost Hclass Hport Hpath)
    as (m & -> & -> & ->).
  destruct port as [[|d1 d]|].
  - by destruct (Hport [] eq_refl).
  - by destruct (Py.int (d1 :: d)).
  - by destruct secure.
Qed.

(** A request in origin form is not accepted.  For a method other than
    CONNECT, a target that starts with a slash does not match the pattern,
    and the classifier answers with the invalid tuple. *)
Theorem origin_form_rejected (client_data_bytes : list byte)
    (method path : list N) (rest : list (list N)) :
  request_parts client_data_bytes = method :: (47%N :: path) :: rest →
  Py.upper method ≠ lit "CONNECT" →
  parse_server_info client_data_bytes = (None, None, None, false).
Proof.
  intros Hparts Hmethod.
  unfold parse_server_info. rewrite parse_server_info_body_eq, Hparts.
  rewrite bool_decide_eq_false_2 by done.
  assert (Hurl : Re.re_match url (47%N :: path) = None);
    [|by rewrite Hurl].
  unfold Re.re_match, url. cbn -[N.eqb negb orb Re.many Re.digit].
  rewrite decide_True by done. by eval_eqb.
Qed.

End classifier_more.

(* ====================================================================== *)
(** * Properties of the decoder *)
(* ====================================================================== *)

Section utf8.
Import Utf8.

Ltac lia_div := zify; Z.to_euclidean_division_equations; lia.

(** Turn a Boolean fact about code points into inequalities. *)
Ltac to_props E :=
  repeat first
    [ rewrite orb_true_iff in E | rewrite orb_false_iff in E
    | rewrite andb_true_iff in E | rewrite andb_false_iff in E
    | rewrite negb_true_iff in E | rewrite negb_false_iff in E
    | rewrite N.ltb_lt in E | rewrite N.ltb_ge in E
    | rewrite N.leb_le in E | rewrite N.leb_gt in E
    | rewrite N.eqb_eq in E | rewrite N.eqb_neq in E ].

(** Follow the tests of a hypothesis from the outside in. *)
Ltac follow H :=
  repeat match type of H with
  | (if ?c then _ else _) = _ =>
      let E := fresh "E" in destruct c eqn:E; to_props E
  | match ?l with [] => _ | _ :: _ => _ end = _ => destruct l
  end.

(** Decide the tests of a goal from the outside in. *)
Ltac decide_tests :=
  repeat match goal with
  | |- (if ?c then _ else _) = _ =>
      let E := fresh "E" in destruct c eqn:E; to_props E
  end.

Lemma decode_from_drop handler skip bs :
  decode_from handler skip bs = decode_from handler 0 (drop skip bs).
Proof.
  revert skip. induction bs as [|b rest IH]; intros [|skip]; try done.
  cbn [decode_from drop]. apply IH.
Qed.

Lemma undecodable_from_drop skip bs :
  undecodable_from skip bs = undecodable_from 0 (drop skip bs).
Proof.
  revert skip. induction bs as [|b rest IH]; intros [|skip]; try done.
  cbn [undecodable_from drop]. apply IH.
Qed.

(** A code point that the decoder reads encodes to the bytes it was read
    from. *)
Lemma next_Char b rest c n :
  next b rest = Char c n →
  (1 ≤ n ≤ S (length rest))%nat ∧ encode_char c = Some (take n (b :: rest)).
Proof.
  unfold next, is_continuation, encode_char. intros Hnext. follow Hnext;
    try discriminate Hnext; injection Hnext as <- <-;
    (split; [cbn [length]; lia|]); cbn [take];
    decide_tests; try (exfalso; lia_div); repeat f_equal; lia_div.
Qed.

Lemma next_Invalid b rest n :
  next b rest = Invalid n → (1 ≤ n ≤ S (length rest))%nat.
Proof.
  unfold next, is_continuation. intros Hnext. follow Hnext;
    try discriminate Hnext; injection Hnext as <-; cbn [length]; lia.
Qed.

Lemma encode_app s s' :
  encode (s ++ s')
  = match encode s, encode s' with
    | Some a, Some b => Some (a ++ b)
    | _, _ => None
    end.
Proof.
  induction s as [|c s IH]; cbn [app encode].
  { by destruct (encode s'). }
  rewrite IH. destruct (encode_char c), (encode s), (encode s'); try done.
  by rewrite app_assoc.
Qed.

Lemma encode_escape b :
  (b < 256)%N → ∃ out, encode (escape b) = Some out ∧ length out = 4%nat.
Proof.
  intros Hb. unfold escape, hex_digit. cbn [encode]. unfold encode_char.
  assert (b / 16 < 16)%N by lia_div. assert (b mod 16 < 16)%N by lia_div.
  assert (Hlow : ∀ n, (n < 16)%N →
            ((if (n <? 10)%N then 48 + n else 87 + n) <? 128)%N = true).
  { intros n Hn. apply N.ltb_lt. destruct (N.ltb_spec n 10); lia. }
  rewrite !Hlow by done. cbn. by eexists.
Qed.

Lemma encode_escapes bs :
  Forall (λ b, b < 256)%N bs →
  ∃ out, encode (flat_map escape bs) = Some out
         ∧ length out = (4 * length bs)%nat.
Proof.
  induction 1 as [|b bs Hb _ (out' & Hout' & Hlen')]; [by exists []|].
  destruct (encode_escape b Hb) as (out & Hout & Hlen).
  exists (out ++ out'). cbn [flat_map]. rewrite encode_app, Hout, Hout'.
  split; [done|]. rewrite length_app. cbn [length]. lia.
Qed.

Lemma to_N_bounded_256 (data : list byte) :
  Forall (λ b, b < 256)%N (map Byte.to_N data).
Proof.
  apply Forall_forall. intros b Hb. apply list_elem_of_In, in_map_iff in Hb.
  destruct Hb as (x & <- & _). pose proof (Byte.to_N_bounded x). lia.
Qed.

Lemma of_to_N_map (data : list byte) :
  map (λ b, default Byte.x00 (Byte.of_N b)) (map Byte.to_N data) = data.
Proof.
  induction data as [|x data IH]; [done|]. cbn [map].
  by rewrite Byte.of_to_N, IH.
Qed.

Lemma encode_decode_backslashreplace (data : list byte) :
  ∃ out,
    encode (decode_from backslashreplace 0 (map Byte.to_N data)) = Some out
    ∧ length out = (length data + 3 * undecodable data)%nat
    ∧ (undecodable data = 0%nat → out = data).
Proof.
  unfold undecodable.
  assert (Hgen : ∀ (m : nat) (data : list byte), (length data ≤ m)%nat →
    ∃ out,
      encode (decode_from backslashreplace 0 (map Byte.to_N data)) = Some out
      ∧ length out
        = (length data + 3 * undecodable_from 0 (map Byte.to_N data))%nat
      ∧ (undecodable_from 0 (map Byte.to_N data) = 0%nat → out = data));
    [|by apply (Hgen (length data))].
  clear data. induction m as [|m IH]; intros data Hm.
  { destruct data; [by exists []|cbn in Hm; lia]. }
  destruct data as [|x rest]; [by exists []|]. cbn [length] in Hm.
  cbn [map decode_from undecodable_from].
  destruct (next (Byte.to_N x) (map Byte.to_N rest)) as [c n|n] eqn:Hnext;
    rewrite decode_from_drop, undecodable_from_drop.
  - apply next_Char in Hnext as [Hn Hc]. rewrite length_map in Hn.
    rewrite skipn_map.
    destruct (IH (drop (n - 1) rest)) as (out' & Hout' & Hlen' & Hsame').
    { rewrite length_drop. lia. }
    change (Byte.to_N x :: map Byte.to_N rest) with (map Byte.to_N (x :: rest)) in Hc.
    rewrite firstn_map in Hc.
    exists (take n (x :: rest) ++ out'). cbn [encode]. rewrite Hc, Hout'.
    rewrite of_to_N_map. split; [done|].
    assert (Hdrop : drop (n - 1) rest = drop n (x :: rest)).
    { destruct n as [|n]; [lia|]. cbn [drop]. f_equal. lia. }
    split.
    + rewrite length_app, length_take, Hlen', length_drop. cbn [length]. lia.
    + intros Hnone. rewrite (Hsame' Hnone), Hdrop. apply take_drop.
  - apply next_Invalid in Hnext as Hn. rewrite length_map in Hn.
    rewrite skipn_map.
    destruct (IH (drop (n - 1) rest)) as (out' & Hout' & Hlen' & Hsame').
    { rewrite length_drop. lia. }
    change (Byte.to_N x :: map Byte.to_N rest) with (map Byte.to_N (x :: rest)).
    rewrite firstn_map.
    destruct (encode_escapes (map Byte.to_N (take n (x :: rest))))
      as (out & Hout & Hlen); [apply to_N_bounded_256|].
    exists (out ++ out'). rewrite encode_app, Hout, Hout'.
    split; [done|]. rewrite length_map, length_take in *. cbn [length] in *.
    split; [|lia].
    rewrite length_app, Hlen, Hlen', length_drop. lia.
Qed.

(** Decoding with [backslashreplace] and encoding again never fails and
    gives three bytes more for every byte that did not decode; well-formed
    UTF-8 comes back as it was. *)
Theorem backslashreplace_encodes (data : list byte) :
  ∃ out,
    encode (decode backslashreplace data) = Some out
    ∧ length out = (length data + 3 * undecodable data)%nat
    ∧ (undecodable data = 0%nat → out = data).
Proof. apply encode_decode_backslashreplace. Qed.

End utf8.

(* ====================================================================== *)
(** * Further properties of the connection worker *)
(* ====================================================================== *)

Section connections_more.
Context `{UnicodeData}.

#[local] Instance contained_preorder hostname : PreOrder (contained hostname).
Proof.
  split.
  - intros w. repeat split; try done. exists []. by rewrite app_nil_r.
  - intros w1 w2 w3 (Hr1 & Hf1 & Hd1 & ev1 & Ht1 & Hl1) (Hr2 & Hf2 & Hd2 & ev2 & Ht2 & Hl2).
    split; [congruence|]. split; [congruence|]. split.
    { intros h Hh. by rewrite Hd2, Hd1. }
    exists (ev1 ++ ev2). split; [by rewrite Ht2, Ht1, app_assoc|].
    intros Hoff. apply Forall_app. split; [by apply Hl1|].
    apply Hl2. congruence.
Qed.

Section keeps.
Context (R : relation world) `{!PreOrder R}.

Lemma keeps_mret {A} (a : A) : keeps R (mret a).
Proof using Type*. by intros w. Qed.

Lemma keeps_raise {A} e : keeps R (@raise A e).
Proof using Type*. by intros w. Qed.

Lemma keeps_answer {A} (o : outcome A) : keeps R (answer o).
Proof using Type*. by intros w. Qed.

Lemma keeps_get_LOG_FLAG : keeps R get_LOG_FLAG.
Proof using Type*. by intros w. Qed.

Lemma keeps_encode s : keeps R (encode s).
Proof using Type*. unfold encode. destruct (Utf8.encode s); [apply keeps_mret|apply keeps_raise]. Qed.

Lemma keeps_bind {A B} (m : M A) (f : A → M B) :
  keeps R m → (∀ a, keeps R (f a)) → keeps R (m ≫= f).
Proof using Type*.
  intros Hm Hf w. specialize (Hm w). unfold mbind, M_bind.
  destruct (m w) as [[a|e] w1]; [|done]. etrans; [exact Hm|apply Hf].
Qed.

Lemma keeps_try_except {A} (body : M A) handler :
  keeps R body → (∀ e, keeps R (handler e)) → keeps R (try_except body handler).
Proof using Type*.
  intros Hb Hh w. specialize (Hb w). unfold try_except.
  destruct (body w) as [[a|e] w1]; [done|]. etrans; [exact Hb|apply Hh].
Qed.

Lemma keeps_on_exit {A} (body : M A) cleanup :
  keeps R body → keeps R cleanup → keeps R (on_exit body cleanup).
Proof using Type*.
  intros Hb Hc w. specialize (Hb w). unfold on_exit.
  destruct (body w) as [r w1]. specialize (Hc w1).
  destruct (cleanup w1) as [[[]|e] w2]; by etrans.
Qed.

Lemma keeps_thread (body : M Z) : keeps R body → keeps R (handlers.thread body).
Proof using Type*.
  intros Hb w. specialize (Hb w). unfold handlers.thread.
  by destruct (body w) as [[n|e] w1].
Qed.

Lemma keeps_perform e raises : keeps R (emit e) → keeps R (perform e raises).
Proof using Type*.
  intros He. apply keeps_bind; [done|]. intros _.
  destruct raises; [apply keeps_raise|apply keeps_mret].
Qed.

End keeps.

Lemma contained_emit hostname e : unlogged e → keeps (contained hostname) (emit e).
Proof.
  intros He w. repeat split; try done. exists [e]. split; [done|].
  intros _. by apply Forall_singleton.
Qed.

Lemma contained_log_request hostname env entry :
  keeps (contained hostname) (logging_utils.log_request env entry).
Proof.
  intros w. unfold logging_utils.log_request, get_LOG_FLAG, mbind, M_bind.
  destruct (LOG_FLAG w) eqn:Hflag; [|reflexivity].
  unfold perform, emit, mbind, M_bind.
  assert (Hw : contained hostname w (after w [LogRequest entry])).
  { repeat split; try done. exists [LogRequest entry]. split; [done|]. congruence. }
  by destruct (env_log_request env).
Qed.

Lemma contained_update_domain_stats hostname sent received duration ttfb :
  keeps (contained hostname)
    (with_domain_stats (utils.update_domain_stats hostname sent received duration ttfb)).
Proof.
  intros w. split; [done|]. split; [done|]. split.
  - intros h Hh. cbn. unfold utils.update_domain_stats. cbn zeta.
    rewrite lookup_insert_ne by done.
    case_decide; [|done]. by rewrite lookup_insert_ne.
  - exists []. cbn. by rewrite app_nil_r.
Qed.

(** One step of a proof that code keeps [contained]. *)
Ltac keeps_step :=
  lazymatch goal with
  | |- keeps _ (mret _) => apply keeps_mret; tc_solve
  | |- keeps _ (raise _) => apply keeps_raise; tc_solve
  | |- keeps _ (answer _) => apply keeps_answer; tc_solve
  | |- keeps _ get_LOG_FLAG => apply keeps_get_LOG_FLAG; tc_solve
  | |- keeps _ (encode _) => apply keeps_encode; tc_solve
  | |- keeps _ (perform _ _) => apply keeps_perform; [tc_solve|]
  | |- keeps _ (emit _) => apply contained_emit; exact I
  | |- keeps _ (logging_utils.log_request _ _) => apply contained_log_request
  | |- keeps _ (with_domain_stats _) => apply contained_update_domain_stats
  | |- keeps _ (on_exit _ _) => apply keeps_on_exit; [tc_solve| |]
  | |- keeps _ (try_except _ _) => apply keeps_try_except; [tc_solve| |intros ?]
  | |- keeps _ (handlers.thread _) => apply keeps_thread; [tc_solve|]
  | |- keeps _ (_ ≫= _) => apply keeps_bind; [tc_solve| |intros ?]
  end.

Lemma contained_tunnel_loop hostname from_socket to_socket steps total_bytes :
  keeps (contained hostname)
    (handlers.tunnel_loop from_socket to_socket steps total_bytes).
Proof.
  revert total_bytes.
  induction steps as [|step steps IH]; intros total_bytes; cbn [handlers.tunnel_loop].
  { repeat keeps_step. }
  repeat keeps_step.
  destruct (recv utils.BUFFER_SIZE (relay_recv step)) as [[|b data]|e].
  - keeps_step.
  - repeat keeps_step. destruct (relay_send step) as [e|]; [|apply IH].
    destruct (is_socket_error e); keeps_step.
  - destruct (is_socket_error e); keeps_step.
Qed.


(** A [try] whose handler cannot raise ends without an exception. *)
Lemma try_except_returns (body : M unit) handler w :
  (∀ e w1, (handler e w1).1 = Ret ()) → (try_except body handler w).1 = Ret ().
Proof.
  intros Hh. unfold try_except. destruct (body w) as [[[]|e] w1]; [done|apply Hh].
Qed.


Lemma contained_handle_https hostname env server_ip server_port client_data start_time :
  keeps (contained hostname)
    (handlers.handle_https env server_ip server_port hostname client_data start_time).
Proof.
  unfold handlers.handle_https. cbn zeta.
  repeat keeps_step; apply contained_tunnel_loop.
Qed.


(** The CONNECT tunneler is contained.  Whatever the origin and the
    client do, [handle_https] ends without an exception, and the last
    thing it does is to close the client socket; it leaves the rate
    ledger and the logging flag alone, touches no entry of the statistics
    but that of its host, only adds to the trace, and writes no log file
    while logging is off. *)
Theorem handle_https_contained (env : environment) (server_ip : list N)
    (server_port : Z) (hostname client_data : list N) (start_time : Q) (w : world) :
  let r := handlers.handle_https env server_ip server_port hostname client_data
             start_time w in
  r.1 = Ret () ∧ contained hostname w r.2 ∧ last (trace r.2) = Some (Close client_socket).
Proof.
  cbn zeta. split; [|split].
  - unfold handlers.handle_https. by apply try_except_returns.
  - apply contained_handle_https.
  - unfold handlers.handle_https, try_except.
    match goal with |- context [(on_exit ?b ?c ≫= ?f) w] =>
      unfold mbind at 1; unfold M_bind at 1; destruct (on_exit b c w) as [[[]|e] w1] end.
    + cbn. apply last_snoc.
    + unfold mbind, M_bind, emit. cbn. apply last_snoc.
Qed.

(** *** The relay of a tunnel *)

Lemma after_after w events events' :
  after (after w events) events' = after w (events ++ events').
Proof. unfold after. cbn. by rewrite app_assoc. Qed.

Lemma after_nil w : after w [] = w.
Proof. destruct w. unfold after. cbn. by rewrite app_nil_r. Qed.

Lemma bytes_to_cons s e events :
  bytes_to s (e :: events)
  = match e with
    | Sendall s' data =>
        if decide (s' = s) then Z.of_nat (length data) + bytes_to s events
        else bytes_to s events
    | _ => bytes_to s events
    end.
Proof. done. Qed.

Lemma bytes_to_nonneg s events : 0 ≤ bytes_to s events.
Proof.
  induction events as [|e events IH]; [done|]. rewrite bytes_to_cons.
  destruct e; try done. case_decide; [lia|done].
Qed.

Lemma bytes_to_app s events events' :
  bytes_to s (events ++ events') = bytes_to s events + bytes_to s events'.
Proof.
  induction events as [|e events IH]; [done|]. cbn [app]. rewrite !bytes_to_cons, IH.
  destruct e; try done. case_decide; [lia|done].
Qed.

Lemma recv_bounded bufsize o data :
  0 ≤ bufsize → recv bufsize o = Ret data → Z.of_nat (length data) ≤ bufsize.
Proof.
  intros Hb. destruct o as [d|e]; [|done]. cbn. intros [= <-].
  rewrite length_take. lia.
Qed.

Lemma tunnel_loop_spec from_socket to_socket steps total_bytes w :
  let r := handlers.tunnel_loop from_socket to_socket steps total_bytes w in
  ∃ events,
    r.2 = after w events
    ∧ Forall (relays from_socket to_socket) events
    ∧ (∀ n, r.1 = Ret n →
         total_bytes ≤ n ≤ total_bytes + bytes_to to_socket events)
    ∧ (∀ e, r.1 = Raise e → is_socket_error e = false)
    ∧ (undisturbed steps → r.1 = Ret (total_bytes + bytes_to to_socket events)).
Proof.
  cbn zeta. revert total_bytes w.
  assert (Hrecv : relays from_socket to_socket (Recv from_socket)) by by left.
  assert (Hstop : ∀ total_bytes w,
    ∃ events,
      after w [Recv from_socket] = after w events
      ∧ Forall (relays from_socket to_socket) events
      ∧ (∀ n, Ret total_bytes = Ret n →
           total_bytes ≤ n ≤ total_bytes + bytes_to to_socket events)
      ∧ (∀ e, @Ret Z total_bytes = Raise e → is_socket_error e = false)
      ∧ @Ret Z total_bytes = Ret (total_bytes + bytes_to to_socket events)).
  { intros total_bytes w. exists [Recv from_socket].
    split; [done|]. split; [by apply Forall_singleton|].
    split; [intros n [= <-]; cbn; lia|]. split; [done|]. cbn. f_equal. lia. }
  induction steps as [|step steps IH]; intros total_bytes w;
    cbn [handlers.tunnel_loop]; rewrite (bind_Ret _ _ _ _ _ (emit_after _ _)).
  { destruct (Hstop total_bytes w) as (events & ? & ? & ? & ? & ?).
    exists events. cbn. eauto. }
  destruct (recv utils.BUFFER_SIZE (relay_recv step)) as [[|b data]|e] eqn:Hread.
  - destruct (Hstop total_bytes w) as (events & ? & ? & ? & ? & ?).
    exists events. cbn. eauto.
  - rewrite (bind_Ret _ _ _ _ _ (emit_after _ _)), after_after. cbn [app].
    assert (Hsend : relays from_socket to_socket (Sendall to_socket (b :: data))).
    { right. exists (b :: data). split; [done|]. split; [done|].
      by eapply recv_bounded. }
    destruct (relay_send step) as [e|] eqn:Hforward.
    + exists [Recv from_socket; Sendall to_socket (b :: data)].
      split; [by destruct (is_socket_error e)|].
      split; [by repeat (apply Forall_cons_2; [done|])|].
      pose proof (bytes_to_nonneg to_socket
                    [Recv from_socket; Sendall to_socket (b :: data)]).
      destruct (is_socket_error e) eqn:He; cbn [fst].
      * split; [intros n [= <-]; lia|]. split; [done|].
        intros Hok. apply Forall_cons in Hok as [[Hok _] _]. congruence.
      * split; [done|]. split; [by intros ? [= <-]|].
        intros Hok. apply Forall_cons in Hok as [[Hok _] _]. congruence.
    + destruct (IH (total_bytes + Z.of_nat (length (b :: data)))
                  (after w [Recv from_socket; Sendall to_socket (b :: data)]))
        as (events & Hw & Hev & Hle & Hraise & Heq).
      exists ([Recv from_socket; Sendall to_socket (b :: data)] ++ events).
      rewrite Hw, after_after. split; [done|].
      split; [by repeat (apply Forall_cons_2; [done|])|].
      assert (Hbytes :
        bytes_to to_socket ([Recv from_socket; Sendall to_socket (b :: data)] ++ events)
        = Z.of_nat (length (b :: data)) + bytes_to to_socket events).
      { rewrite bytes_to_app. cbn -[length]. rewrite decide_True by done. lia. }
      rewrite Hbytes. split; [|split; [done|]].
      * intros n Hn. specialize (Hle n Hn). lia.
      * intros Hok. apply Forall_cons in Hok as [_ Hok].
        rewrite (Heq Hok). f_equal. lia.
  - exists [Recv from_socket]. split; [by destruct (is_socket_error e)|].
    split; [by apply Forall_singleton|].
    destruct (is_socket_error e) eqn:He; cbn [fst].
    + split; [intros n [= <-]; cbn; lia|]. split; [done|].
      intros _. cbn. f_equal. lia.
    + split; [done|]. split; [by intros ? [= <-]|].
      intros Hok. apply Forall_cons in Hok as [[_ Hok] _].
      destruct (relay_recv step) as [d|e'] eqn:Hr; [done|].
      cbn in Hread. injection Hread as ->. specialize (Hok e eq_refl). congruence.
Qed.

(** The relay counts what it forwards.  [tunnel] only reads from its
    first socket and sends to its second, in chunks that are not empty
    and no longer than the buffer.  A socket error ends it quietly; the
    count it returns never exceeds the number of bytes it passed to
    [sendall], and is that number if no forward failed.  Only an
    exception that is no socket error leaves it. *)
Theorem tunnel_counts_forwarded (from_socket to_socket : socket)
    (steps : list relay_step) (w : world) :
  let r := handlers.tunnel from_socket to_socket steps w in
  ∃ events,
    r.2 = after w events
    ∧ Forall (relays from_socket to_socket) events
    ∧ match r.1 with
      | Ret n => 0 ≤ n ≤ bytes_to to_socket events
      | Raise e => is_socket_error e = false
      end
    ∧ (undisturbed steps → r.1 = Ret (bytes_to to_socket events)).
Proof.
  cbn zeta. unfold handlers.tunnel.
  destruct (tunnel_loop_spec from_socket to_socket steps 0 w)
    as (events & Hw & Hev & Hle & Hraise & Heq).
  exists events. split; [done|]. split; [done|]. split; [|done].
  destruct (handlers.tunnel_loop from_socket to_socket steps 0 w).1 as [n|e];
    [apply (Hle n eq_refl)|apply (Hraise e eq_refl)].
Qed.

Lemma encode_Some s data w : Utf8.encode s = Some data → encode s w = (Ret data, w).
Proof. unfold encode. by intros ->. Qed.

Lemma encode_None s w :
  Utf8.encode s = None →
  encode s w = (Raise (Exn UnicodeEncodeError (lit "surrogates not allowed")), w).
Proof. unfold encode. by intros ->. Qed.

Lemma on_exit_emit {A} (body : M A) e w :
  on_exit body (emit e) w = ((body w).1, after (body w).2 [e]).
Proof. unfold on_exit. by destruct (body w). Qed.

Lemma perform_None {C : Type} e (k : unit → M C) w :
  (perform e None ≫= k) w = k () (after w [e]).
Proof. done. Qed.

Lemma perform_Some {C : Type} e x (k : unit → M C) w :
  (perform e (Some x) ≫= k) w = (Raise x, after w [e]).
Proof. done. Qed.

Lemma log_request_written env entry w :
  (LOG_FLAG w = true → env_log_request env = None) →
  logging_utils.log_request env entry w
  = (Ret (), after w (if LOG_FLAG w then [LogRequest entry] else [])).
Proof.
  intros Hlog. unfold logging_utils.log_request, get_LOG_FLAG, mbind, M_bind.
  destruct (LOG_FLAG w); [|by rewrite after_nil].
  by rewrite (Hlog eq_refl).
Qed.

Lemma log_request_failed env entry w e :
  LOG_FLAG w = true → env_log_request env = Some e →
  logging_utils.log_request env entry w = (Raise e, after w [LogRequest entry]).
Proof.
  intros Hflag Hlog. unfold logging_utils.log_request, get_LOG_FLAG, mbind, M_bind.
  by rewrite Hflag, Hlog.
Qed.

Lemma bytes_to_other from_socket to_socket s events :
  Forall (relays from_socket to_socket) events → to_socket ≠ s →
  bytes_to s events = 0.
Proof.
  intros Hev Hs. induction Hev as [|e events He _ IH]; [done|].
  rewrite bytes_to_cons, IH. destruct He as [->|(data & -> & _)]; [done|].
  by rewrite decide_False.
Qed.

(** What [thread] makes of a relay: the list with its count, or the
    empty list if it raised. *)
Lemma thread_tunnel_spec from_socket to_socket steps w :
  ∃ events count,
    handlers.thread (handlers.tunnel from_socket to_socket steps) w
    = (Ret count, after w events)
    ∧ Forall (relays from_socket to_socket) events
    ∧ 0 ≤ foldr Z.add 0 count ≤ bytes_to to_socket events
    ∧ (undisturbed steps → foldr Z.add 0 count = bytes_to to_socket events).
Proof.
  unfold handlers.thread, handlers.tunnel.
  destruct (tunnel_loop_spec from_socket to_socket steps 0 w)
    as (events & Hw & Hev & Hle & Hraise & Heq).
  destruct (handlers.tunnel_loop from_socket to_socket steps 0 w) as [[n|e] w1];
    cbn [fst snd] in *; subst w1.
  - exists events, [n]. split; [done|]. split; [done|]. cbn.
    specialize (Hle n eq_refl). split; [lia|].
    intros Hok. specialize (Heq Hok). injection Heq as ->. lia.
  - exists events, []. split; [done|]. split; [done|]. cbn.
    pose proof (bytes_to_nonneg to_socket events). split; [lia|].
    intros Hok. by specialize (Heq Hok).
Qed.

(** A tunnel that is set up is recorded once.  If the dial succeeds, the
    line [200 Connection Established] goes out and the request log, if
    logging is on, can be written, then [handle_https] runs the two
    relays, writes the log, adds one request to the statistics of its host
    and closes both sockets.  The bytes sent and received that it logs
    and records are the counts of the two relays: neither exceeds what was
    passed to [sendall] on the client and on the origin socket during the
    relay, and both are exactly that if the relays ran without incident.
    The time to first byte is taken when the 200 line has gone out. *)
Theorem handle_https_records (env : environment) (server_ip : list N)
    (server_port : Z) (hostname client_data : list N) (start_time : Q) (w : world) :
  env_connect env = None →
  env_established_send env = None →
  (LOG_FLAG w = true → env_log_request env = None) →
  ∃ relay sent received,
    handlers.handle_https env server_ip server_port hostname client_data start_time w
    = (Ret (),
       {| request_counter := request_counter w;
          domain_stats :=
            utils.update_domain_stats hostname sent received
              (env_end env - start_time)%Q
              (Some (env_established_clock env - start_time)%Q) (domain_stats w);
          LOG_FLAG := LOG_FLAG w;
          trace := trace w ++
            [Settimeout server_socket 2; Connect server_ip server_port;
             Sendall client_socket
               (blit "HTTP/1.1 200 Connection Established" ++ bCRLF ++ bCRLF)]
            ++ relay
            ++ (if LOG_FLAG w then
                  [LogRequest
                     {| log_hostname := hostname;
                        log_incoming_header := client_data;
                        log_modified_header := None;
                        log_server_response := None;
                        log_response_sent :=
                          Some (lit "HTTP/1.1 200 Connection Established");
                        log_bytes_sent := Some sent;
                        log_bytes_received := Some received;
                        log_duration := Some (env_end env - start_time)%Q;
                        log_ttfb :=
                          Some (env_established_clock env - start_time)%Q |}]
                else [])
            ++ [Close server_socket; Close client_socket] |})
    ∧ Forall (λ e, relays client_socket server_socket e
                   ∨ relays server_socket client_socket e) relay
    ∧ 0 ≤ sent ≤ bytes_to client_socket relay
    ∧ 0 ≤ received ≤ bytes_to server_socket relay
    ∧ (undisturbed (env_client_to_origin env) →
       undisturbed (env_origin_to_client env) →
       sent = bytes_to client_socket relay
       ∧ received = bytes_to server_socket relay).
Proof.
  intros Hdial Hestablished Hlog. unfold handlers.handle_https.
  match goal with |- context [on_exit ?b ?c] => set (body := b) end.
  assert (Hbody : ∃ relay sent received,
    body w
    = (Ret (),
       {| request_counter := request_counter w;
          domain_stats :=
            utils.update_domain_stats hostname sent received
              (env_end env - start_time)%Q
              (Some (env_established_clock env - start_time)%Q) (domain_stats w);
          LOG_FLAG := LOG_FLAG w;
          trace := trace w ++
            [Settimeout server_socket 2; Connect server_ip server_port;
             Sendall client_socket
               (blit "HTTP/1.1 200 Connection Established" ++ bCRLF ++ bCRLF)]
            ++ relay
            ++ (if LOG_FLAG w then
                  [LogRequest
                     {| log_hostname := hostname;
                        log_incoming_header := client_data;
                        log_modified_header := None;
                        log_server_response := None;
                        log_response_sent :=
                          Some (lit "HTTP/1.1 200 Connection Established");
                        log_bytes_sent := Some sent;
                        log_bytes_received := Some received;
                        log_duration := Some (env_end env - start_time)%Q;
                        log_ttfb :=
                          Some (env_established_clock env - start_time)%Q |}]
                else []) |})
    ∧ Forall (λ e, relays client_socket server_socket e
                   ∨ relays server_socket client_socket e) relay
    ∧ 0 ≤ sent ≤ bytes_to client_socket relay
    ∧ 0 ≤ received ≤ bytes_to server_socket relay
    ∧ (undisturbed (env_client_to_origin env) →
       undisturbed (env_origin_to_client env) →
       sent = bytes_to client_socket relay
       ∧ received = bytes_to server_socket relay)).
  { subst body. rewrite Hdial, Hestablished.
    rewrite (bind_Ret _ _ _ _ _ (emit_after _ _)).
    rewrite !perform_None, !after_after. cbn [app].
    set (w1 := after w _).
    destruct (thread_tunnel_spec client_socket server_socket
                (env_client_to_origin env) w1)
      as (events1 & t1_bytes & Ht1 & Hev1 & Hle1 & Heq1).
    rewrite (bind_Ret _ _ _ _ _ Ht1).
    destruct (thread_tunnel_spec server_socket client_socket
                (env_origin_to_client env) (after w1 events1))
      as (events2 & t2_bytes & Ht2 & Hev2 & Hle2 & Heq2).
    rewrite (bind_Ret _ _ _ _ _ Ht2). subst w1. rewrite !after_after. cbn zeta.
    exists (events1 ++ events2), (foldr Z.add 0 t2_bytes), (foldr Z.add 0 t1_bytes).
    assert (Hb1 : bytes_to client_socket (events1 ++ events2)
                  = bytes_to client_socket events2).
    { by rewrite bytes_to_app, (bytes_to_other _ _ _ _ Hev1). }
    assert (Hb2 : bytes_to server_socket (events1 ++ events2)
                  = bytes_to server_socket events1).
    { rewrite bytes_to_app, (bytes_to_other _ _ _ _ Hev2) by done. lia. }
    rewrite Hb1, Hb2.
    split; [|split; [|split; [done|split; [done|]]]].
    - rewrite (bind_Ret _ _ _ _ _ (log_request_written env _ (after w _) Hlog)),
        after_after.
      unfold with_domain_stats, after.
      cbn -[lit blit app utils.update_domain_stats].
      by rewrite <- !app_assoc.
    - apply Forall_app. split; (eapply Forall_impl; [eassumption|]); cbn; eauto.
    - intros Hok1 Hok2. by rewrite (Heq1 Hok1), (Heq2 Hok2). }
  destruct Hbody as (relay & sent & received & Hbody & Hrest).
  exists relay, sent, received. split; [|exact Hrest].
  unfold try_except, on_exit, mbind, M_bind. rewrite Hbody.
  unfold emit. cbn -[lit blit app utils.update_domain_stats].
  by rewrite <- !app_assoc.
Qed.

(** A tunnel whose request log cannot be written is not counted.  With
    logging on, if writing the log file raises, [handle_https] has run
    the relays but leaves the statistics as they were: it closes the
    origin socket, prints the error with the host name and closes the
    client socket. *)
Theorem handle_https_log_failure (env : environment) (server_ip : list N)
    (server_port : Z) (hostname client_data : list N) (start_time : Q) (w : world)
    (e : exn) :
  env_connect env = None →
  env_established_send env = None →
  LOG_FLAG w = true →
  env_log_request env = Some e →
  ∃ relay entry,
    handlers.handle_https env server_ip server_port hostname client_data start_time w
    = (Ret (),
       after w
         ([Settimeout server_socket 2; Connect server_ip server_port;
           Sendall client_socket
             (blit "HTTP/1.1 200 Connection Established" ++ bCRLF ++ bCRLF)]
          ++ relay
          ++ [LogRequest entry; Close server_socket;
              Print (lit "HTTPS error " ++ exn_text e ++ lit " for " ++ hostname);
              Close client_socket]))
    ∧ Forall (λ e, relays client_socket server_socket e
                   ∨ relays server_socket client_socket e) relay.
Proof.
  intros Hdial Hestablished Hflag Hlog. unfold handlers.handle_https.
  match goal with |- context [on_exit ?b ?c] => set (body := b) end.
  assert (Hbody : ∃ relay entry,
    body w
    = (Raise e,
       after w
         ([Settimeout server_socket 2; Connect server_ip server_port;
           Sendall client_socket
             (blit "HTTP/1.1 200 Connection Established" ++ bCRLF ++ bCRLF)]
          ++ relay ++ [LogRequest entry]))
    ∧ Forall (λ e, relays client_socket server_socket e
                   ∨ relays server_socket client_socket e) relay).
  { subst body. rewrite Hdial, Hestablished.
    rewrite (bind_Ret _ _ _ _ _ (emit_after _ _)).
    rewrite !perform_None, !after_after. cbn [app].
    set (w1 := after w _).
    destruct (thread_tunnel_spec client_socket server_socket
                (env_client_to_origin env) w1)
      as (events1 & t1_bytes & Ht1 & Hev1 & _).
    rewrite (bind_Ret _ _ _ _ _ Ht1).
    destruct (thread_tunnel_spec server_socket client_socket
                (env_origin_to_client env) (after w1 events1))
      as (events2 & t2_bytes & Ht2 & Hev2 & _).
    rewrite (bind_Ret _ _ _ _ _ Ht2). subst w1. rewrite !after_after. cbn zeta.
    eexists (events1 ++ events2), _. split.
    - erewrite (bind_Raise _ _ _ _ _
                  (log_request_failed env _ (after w _) e Hflag Hlog)).
      rewrite after_after. by rewrite <- !app_assoc.
    - apply Forall_app. split; (eapply Forall_impl; [eassumption|]); cbn; eauto. }
  destruct Hbody as (relay & entry & Hbody & Hrelay).
  exists relay, entry. split; [|exact Hrelay].
  assert (Hexit : on_exit body (emit (Close server_socket)) w
                  = (Raise e,
                     after w
                       (([Settimeout server_socket 2; Connect server_ip server_port;
                          Sendall client_socket
                            (blit "HTTP/1.1 200 Connection Established"
                             ++ bCRLF ++ bCRLF)]
                         ++ relay ++ [LogRequest entry]) ++ [Close server_socket]))).
  { rewrite on_exit_emit, Hbody. cbn [fst snd]. by rewrite after_after. }
  unfold try_except. rewrite (bind_Raise _ _ _ _ _ Hexit).
  rewrite (bind_Ret _ _ _ _ _ (emit_after _ _)), emit_after, !after_after.
  by rewrite <- !app_assoc.
Qed.

(** *** The response loop of the HTTP forwarder *)

Lemma counted_step st (chunk : list byte) (t : Q) :
  counted st → chunk ≠ [] →
  counted
    {| handlers.total_bytes_sent :=
         handlers.total_bytes_sent st + Z.of_nat (length chunk);
       handlers.server_response :=
         if decide (Z.of_nat (length (handlers.server_response st)) < 65536)
         then handlers.server_response st
              ++ take (Z.to_nat
                         (65536 - Z.of_nat (length (handlers.server_response st))))
                   chunk
         else handlers.server_response st;
       handlers.ttfb_recorded := true;
       handlers.ttfb :=
         if handlers.ttfb_recorded st then handlers.ttfb st else Some t |}.
Proof.
  intros (Hnn & Hlen & Hrec & Httfb) Hchunk. unfold counted.
  cbn [handlers.total_bytes_sent handlers.server_response
       handlers.ttfb_recorded handlers.ttfb].
  assert (0 < Z.of_nat (length chunk)) by (destruct chunk; [done|cbn; lia]).
  split; [lia|]. split; [|split].
  - case_decide; [rewrite length_app, length_take; lia|lia].
  - split; [done|lia].
  - destruct (handlers.ttfb_recorded st) eqn:Hr.
    + split; [|lia]. intros Hnone. apply Httfb in Hnone.
      assert (true = false); [|done]. apply Hrec. lia.
    + split; [done|lia].
Qed.

Lemma response_loop_spec start_time steps st w :
  let r := handlers.response_loop start_time steps st w in
  ∃ events,
    r.2 = after w events
    ∧ Forall (relays server_socket client_socket) events
    ∧ (∀ st', r.1 = Ret st' →
         (counted st → counted st')
         ∧ handlers.total_bytes_sent st ≤ handlers.total_bytes_sent st'
           ≤ handlers.total_bytes_sent st + bytes_to client_socket events)
    ∧ (∀ e, r.1 = Raise e → is_timeout e = false)
    ∧ (steady steps →
       ∃ st', r.1 = Ret st'
              ∧ handlers.total_bytes_sent st'
                = handlers.total_bytes_sent st + bytes_to client_socket events).
Proof.
  cbn zeta. revert st w.
  assert (Hrecv : relays server_socket client_socket (Recv server_socket)) by by left.
  induction steps as [|step steps IH]; intros st w;
    cbn [handlers.response_loop]; rewrite (bind_Ret _ _ _ _ _ (emit_after _ _)).
  { exists [Recv server_socket]. split; [done|]. split; [by apply Forall_singleton|].
    split; [intros st' [= <-]; cbn; split; [done|lia]|]. split; [done|].
    intros _. exists st. split; [done|]. cbn. lia. }
  destruct (recv utils.BUFFER_SIZE (http_recv step)) as [[|b chunk]|e] eqn:Hread.
  - exists [Recv server_socket]. split; [done|]. split; [by apply Forall_singleton|].
    split; [intros st' [= <-]; cbn; split; [done|lia]|]. split; [done|].
    intros _. exists st. split; [done|]. cbn. lia.
  - rewrite (bind_Ret _ _ _ _ _ (emit_after _ _)), after_after. cbn [app].
    assert (Hsend : relays server_socket client_socket
                      (Sendall client_socket (b :: chunk))).
    { right. exists (b :: chunk). split; [done|]. split; [done|].
      by eapply recv_bounded. }
    assert (Hbytes : ∀ events,
      bytes_to client_socket
        ([Recv server_socket; Sendall client_socket (b :: chunk)] ++ events)
      = Z.of_nat (length (b :: chunk)) + bytes_to client_socket events).
    { intros events. rewrite bytes_to_app. cbn -[length].
      rewrite decide_True by done. lia. }
    destruct (http_forward step) as [e|] eqn:Hforward.
    + destruct (is_timeout e) eqn:He.
      * destruct (IH st (after w [Recv server_socket;
                                   Sendall client_socket (b :: chunk)]))
          as (events & Hw & Hev & Hle & Hraise & Heq).
        exists ([Recv server_socket; Sendall client_socket (b :: chunk)] ++ events).
        rewrite Hw, after_after. split; [done|].
        split; [by repeat (apply Forall_cons_2; [done|])|].
        rewrite Hbytes. split; [|split; [done|]].
        -- intros st' Hst'. destruct (Hle st' Hst') as [Hinv Hbound].
           split; [done|]. cbn [length] in *. lia.
        -- intros Hok. apply Forall_cons in Hok as [[Hok _] _]. congruence.
      * exists [Recv server_socket; Sendall client_socket (b :: chunk)].
        split; [done|]. split; [by repeat (apply Forall_cons_2; [done|])|].
        split; [done|]. split; [by intros ? [= <-]|].
        intros Hok. apply Forall_cons in Hok as [[Hok _] _]. congruence.
    + destruct (handlers.ttfb_recorded st) eqn:Hrecorded; cbv beta iota zeta;
        match goal with |- context [handlers.response_loop start_time steps ?st1] =>
          set (st2 := st1) end;
        (assert (Htotal : handlers.total_bytes_sent st2
                          = handlers.total_bytes_sent st
                            + Z.of_nat (length (b :: chunk))) by done);
        (assert (Hcounted : counted st → counted st2);
         [intros Hc;
          pose proof (counted_step st (b :: chunk) (http_clock step - start_time)%Q
                        Hc ltac:(done)) as Hs;
          rewrite Hrecorded in Hs; exact Hs|]);
        clearbody st2;
        destruct (IH st2 (after w [Recv server_socket;
                                    Sendall client_socket (b :: chunk)]))
          as (events & Hw & Hev & Hle & Hraise & Heq);
        exists ([Recv server_socket; Sendall client_socket (b :: chunk)] ++ events);
        rewrite Hw, after_after; (split; [done|]);
        (split; [by repeat (apply Forall_cons_2; [done|])|]);
        rewrite Hbytes; (split; [|split; [done|]]).
      * intros st' Hst'. destruct (Hle st' Hst') as [Hinv Hbound].
        split; [by intros ?; apply Hinv, Hcounted|lia].
      * intros Hok. apply Forall_cons in Hok as [_ Hok].
        destruct (Heq Hok) as (st' & Hst' & Hsum). exists st'.
        split; [done|]. lia.
      * intros st' Hst'. destruct (Hle st' Hst') as [Hinv Hbound].
        split; [by intros ?; apply Hinv, Hcounted|lia].
      * intros Hok. apply Forall_cons in Hok as [_ Hok].
        destruct (Heq Hok) as (st' & Hst' & Hsum). exists st'.
        split; [done|]. lia.
  - destruct (is_timeout e) eqn:He.
    + destruct (IH st (after w [Recv server_socket]))
        as (events & Hw & Hev & Hle & Hraise & Heq).
      exists ([Recv server_socket] ++ events).
      rewrite Hw, after_after. split; [done|].
      split; [by apply Forall_cons_2|].
      rewrite bytes_to_app. change (bytes_to client_socket [Recv server_socket]) with 0.
      split; [|split; [done|]].
      * intros st' Hst'. destruct (Hle st' Hst') as [Hinv Hbound]. split; [done|lia].
      * intros Hok. apply Forall_cons in Hok as [_ Hok].
        destruct (Heq Hok) as (st' & Hst' & Hsum). exists st'. split; [done|lia].
    + exists [Recv server_socket]. split; [done|]. split; [by apply Forall_singleton|].
      split; [done|]. split; [by intros ? [= <-]|].
      intros Hok. apply Forall_cons in Hok as [[_ Hok] _].
      destruct (http_recv step) as [d|e'] eqn:Hr; [done|].
      cbn in Hread. injection Hread as ->. specialize (Hok e eq_refl). congruence.
Qed.

(** The response loop counts what it forwards.  It only reads from the
    origin socket and sends to the client socket, in chunks that are not
    empty and no longer than the buffer; a time-out is passed over, and
    only another exception leaves the loop.  When the loop ends, the bytes
    it has counted do not exceed what it passed to [sendall], and are
    that number if no forward failed; the excerpt it keeps for the log is
    as long as the count, but at most 65536 bytes; and it has a time to
    first byte exactly if it has counted a byte. *)
Theorem response_loop_accounting (start_time : Q) (steps : list http_step)
    (w : world) :
  let r := handlers.response_loop start_time steps
             {| handlers.total_bytes_sent := 0; handlers.server_response := [];
                handlers.ttfb_recorded := false; handlers.ttfb := None |} w in
  ∃ events,
    r.2 = after w events
    ∧ Forall (relays server_socket client_socket) events
    ∧ match r.1 with
      | Ret st =>
          0 ≤ handlers.total_bytes_sent st ≤ bytes_to client_socket events
          ∧ Z.of_nat (length (handlers.server_response st))
            = Z.min 65536 (handlers.total_bytes_sent st)
          ∧ (handlers.ttfb st = None ↔ handlers.total_bytes_sent st = 0)
      | Raise e => is_timeout e = false
      end
    ∧ (steady steps →
       ∃ st, r.1 = Ret st
             ∧ handlers.total_bytes_sent st = bytes_to client_socket events).
Proof.
  cbn zeta.
  match goal with |- context [handlers.response_loop start_time steps ?st0] =>
    set (st := st0) end.
  assert (Hst : counted st) by (by repeat split).
  destruct (response_loop_spec start_time steps st w)
    as (events & Hw & Hev & Hle & Hraise & Heq).
  exists events. split; [done|]. split; [done|]. split; [|exact Heq].
  destruct (handlers.response_loop start_time steps st w).1 as [st'|e];
    [|apply (Hraise e eq_refl)].
  destruct (Hle st' eq_refl) as [Hinv Hbound].
  destruct (Hinv Hst) as (Hnn & Hlen & _ & Httfb). cbn in Hbound.
  split; [lia|]. by split.
Qed.

(** The first part of [handle_http]: the dial, the request and the
    response loop. *)
Lemma origin_exchange_spec (env : environment) (modified_data server_ip : list N)
    (server_port : Z) (start_time : Q) (w : world) :
  let r :=
    (emit (Settimeout server_socket 5) ;;
     perform (Connect server_ip server_port) (env_connect env) ;;
     data ← encode modified_data;
     perform (Sendall server_socket data) (env_origin_send env) ;;
     handlers.response_loop start_time (env_origin_reads env)
       {| handlers.total_bytes_sent := 0; handlers.server_response := [];
          handlers.ttfb_recorded := false; handlers.ttfb := None |}) w in
  ∃ events,
    r.2 = after w events
    ∧ ∀ st, r.1 = Ret st →
        ∃ request loop,
          Utf8.encode modified_data = Some request
          ∧ events = [Settimeout server_socket 5; Connect server_ip server_port;
                      Sendall server_socket request] ++ loop
          ∧ Forall (relays server_socket client_socket) loop
          ∧ 0 ≤ handlers.total_bytes_sent st ≤ bytes_to client_socket loop.
Proof.
  cbn zeta. match goal with |- context [(?m w).2] => remember (m w) as r eqn:Hr end.
  rewrite (bind_Ret _ _ _ _ _ (emit_after _ _)) in Hr.
  destruct (env_connect env) as [e|].
  { rewrite perform_Some, after_after in Hr. subst r. by eexists. }
  rewrite perform_None, after_after in Hr. cbn [app] in Hr.
  unfold encode in Hr. destruct (Utf8.encode modified_data) as [request|].
  2:{ subst r. unfold raise, mbind, M_bind. by eexists. }
  unfold mret at 1 in Hr. unfold M_ret at 1 in Hr.
  rewrite (bind_Ret _ _ _ _ _ eq_refl) in Hr.
  destruct (env_origin_send env) as [e|].
  { rewrite perform_Some, after_after in Hr. subst r. by eexists. }
  rewrite perform_None, after_after in Hr. cbn [app] in Hr.
  match type of Hr with context [handlers.response_loop _ _ ?st0 ?w0] =>
    set (st := st0) in *; set (w1 := w0) in * end.
  assert (Hst : counted st) by (by repeat split).
  destruct (response_loop_spec start_time (env_origin_reads env) st w1)
    as (loop & Hw & Hev & Hle & _).
  subst r. eexists. split; [rewrite Hw; subst w1; by rewrite after_after|].
  intros st' Hst'. exists request, loop. split; [done|]. split; [done|].
  split; [done|]. destruct (Hle st' Hst') as [Hinv Hbound].
  destruct (Hinv Hst) as (Hnn & _). cbn in Hbound. lia.
Qed.

(** The two ways in which [handle_http] ends.  Either nothing raised:
    then it has dialled the origin, sent the rewritten request, run the
    response loop and closed the origin socket; it has written the
    request log if logging is on, and added one request to the statistics
    of its host, with the bytes that the loop counted as bytes sent and
    the length of the encoded request text as bytes received; and it has
    left the client socket open.  Or something raised: then the
    statistics are as they were, the origin socket has been closed, and
    the last two things it did were to print the error with the host name
    and to close the client socket. *)
Theorem handle_http_outcomes (env : environment) (client_data server_ip : list N)
    (server_port : Z) (hostname : list N) (start_time : Q) (w : world) :
  let modified_data := utils.modify_headers client_data (Some hostname) in
  let r := handlers.handle_http env client_data server_ip server_port hostname
             start_time w in
  (∃ request received loop st,
     Utf8.encode modified_data = Some request
     ∧ Utf8.encode client_data = Some received
     ∧ Forall (relays server_socket client_socket) loop
     ∧ 0 ≤ handlers.total_bytes_sent st ≤ bytes_to client_socket loop
     ∧ r = (Ret (),
            {| request_counter := request_counter w;
               domain_stats :=
                 utils.update_domain_stats hostname (handlers.total_bytes_sent st)
                   (Z.of_nat (length received)) (env_end env - start_time)%Q
                   (handlers.ttfb st) (domain_stats w);
               LOG_FLAG := LOG_FLAG w;
               trace := trace w ++
                 [Settimeout server_socket 5; Connect server_ip server_port;
                  Sendall server_socket request]
                 ++ loop ++ [Close server_socket]
                 ++ (if LOG_FLAG w then
                       [LogRequest
                          {| log_hostname := hostname;
                             log_incoming_header := client_data;
                             log_modified_header := Some modified_data;
                             log_server_response :=
                               Some (match handlers.server_response st with
                                     | [] => []
                                     | _ :: _ =>
                                         Utf8.decode Utf8.ignore
                                           (handlers.server_response st)
                                     end);
                             log_response_sent := Some (lit "HTTP/1.1 200 OK");
                             log_bytes_sent := Some (handlers.total_bytes_sent st);
                             log_bytes_received := Some (Z.of_nat (length received));
                             log_duration := Some (env_end env - start_time)%Q;
                             log_ttfb := handlers.ttfb st |}]
                     else []) |}))
  ∨ (∃ events e,
       Close server_socket ∈ events
       ∧ r = (Ret (),
              after w (events
                       ++ [Print (lit "HTTP error " ++ exn_text e ++ lit " for "
                                  ++ hostname);
                           Close client_socket]))).
Proof.
  cbn zeta. unfold handlers.handle_http. cbn zeta.
  set (modified_data := utils.modify_headers client_data (Some hostname)).
  assert (Hcaught : ∀ (body : M unit) e events,
    Close server_socket ∈ events →
    body w = (Raise e, after w events) →
    ∃ events e,
      Close server_socket ∈ events
      ∧ try_except body
          (λ e, emit (Print (lit "HTTP error " ++ exn_text e ++ lit " for " ++ hostname)) ;;
                emit (Close client_socket)) w
        = (Ret (),
           after w (events
                    ++ [Print (lit "HTTP error " ++ exn_text e ++ lit " for "
                               ++ hostname);
                        Close client_socket]))).
  { intros body e events Hclosed Hbody. exists events, e. split; [done|].
    unfold try_except. rewrite Hbody.
    by rewrite (bind_Ret _ _ _ _ _ (emit_after _ _)), emit_after, !after_after. }
  destruct (origin_exchange_spec env modified_data server_ip server_port start_time w)
    as (events & Hw & Hret).
  match goal with |- context [on_exit ?b ?c] => set (origin := b) in * end.
  assert (Hexit : on_exit origin (emit (Close server_socket)) w
                  = ((origin w).1, after w (events ++ [Close server_socket]))).
  { by rewrite on_exit_emit, Hw, after_after. }
  assert (Hclosed : ∀ more, Close server_socket ∈ (events ++ [Close server_socket]) ++ more).
  { intros more. apply elem_of_app. left. apply elem_of_app. right.
    by apply list_elem_of_singleton. }
  destruct (origin w).1 as [st|e] eqn:Horigin.
  2:{ right. eapply (Hcaught _ e (events ++ [Close server_socket]));
        [rewrite <- (app_nil_r (_ ++ _)); apply Hclosed|].
      by rewrite (bind_Raise _ _ _ _ _ Hexit). }
  destruct (Hret st eq_refl) as (request & loop & Hrequest & -> & Hloop & Hbound).
  destruct (Utf8.encode client_data) as [received|] eqn:Hreceived.
  2:{ right. eapply (Hcaught _ _ (_ ++ [Close server_socket]));
        [rewrite <- (app_nil_r (_ ++ _)); apply Hclosed|].
      rewrite (bind_Ret _ _ _ _ _ Hexit).
      by rewrite (bind_Raise _ _ _ _ _ (encode_None _ _ Hreceived)). }
  destruct (LOG_FLAG w) eqn:Hflag.
  - destruct (env_log_request env) as [e|] eqn:Hlog.
    + right. eapply (Hcaught _ e (_ ++ [LogRequest _])); [apply Hclosed|].
      rewrite (bind_Ret _ _ _ _ _ Hexit).
      rewrite (bind_Ret _ _ _ _ _ (encode_Some _ _ _ Hreceived)).
      erewrite (bind_Raise _ _ _ _ _ (log_request_failed env _ (after w _) e Hflag Hlog)).
      by rewrite after_after.
    + left. exists request, received, loop, st.
      split; [done|]. split; [done|]. split; [done|]. split; [done|].
      unfold try_except. rewrite (bind_Ret _ _ _ _ _ Hexit).
      rewrite (bind_Ret _ _ _ _ _ (encode_Some _ _ _ Hreceived)).
      rewrite (bind_Ret _ _ _ _ _
                 (log_request_written env _ (after w _) ltac:(done))).
      rewrite (bind_Ret _ _ _ _ _ (encode_Some _ _ _ Hreceived)).
      unfold with_domain_stats, after.
      cbn -[lit blit app utils.update_domain_stats]. rewrite Hflag.
      by rewrite <- !app_assoc.
  - left. exists request, received, loop, st.
    split; [done|]. split; [done|]. split; [done|]. split; [done|].
    unfold try_except. rewrite (bind_Ret _ _ _ _ _ Hexit).
    rewrite (bind_Ret _ _ _ _ _ (encode_Some _ _ _ Hreceived)).
    rewrite (bind_Ret _ _ _ _ _
               (log_request_written env _ (after w _) ltac:(cbn; congruence))).
    rewrite (bind_Ret _ _ _ _ _ (encode_Some _ _ _ Hreceived)).
    unfold with_domain_stats, after.
    cbn -[lit blit app utils.update_domain_stats]. rewrite Hflag.
    by rewrite <- !app_assoc, app_nil_r.
Qed.

(** *** [send_error] and the early exits of the worker *)

Lemma send_error_sends (env : environment) (code : Z) (message : list N)
    (bytes : list byte) (w : world) :
  Utf8.encode (status_line code message) = Some bytes →
  proxy.send_error env code message w
  = (Ret (), after w [Sendall client_socket bytes; Close client_socket]).
Proof.
  intros Henc. unfold proxy.send_error, encode. fold (status_line code message).
  rewrite Henc.
  unfold try_except, perform, mbind, M_bind, mret, M_ret, raise, emit, after.
  destruct (env_error_send env); cbn -[lit blit app]; by rewrite <- !app_assoc.
Qed.

Lemma send_error_eq (env : environment) (code : Z) (message : list N) (w : world) :
  proxy.send_error env code message w
  = (Ret (),
     after w (match Utf8.encode (status_line code message) with
              | Some bytes => [Sendall client_socket bytes]
              | None => []
              end ++ [Close client_socket])).
Proof.
  destruct (Utf8.encode (status_line code message)) as [bytes|] eqn:Henc.
  - by apply send_error_sends.
  - unfold proxy.send_error, encode. fold (status_line code message). by rewrite Henc.
Qed.

(** [send_error] never raises and always closes the client socket, as the
    last thing it does.  Before that it calls [sendall] at most once, with
    the encoded status line, and ignores a failure of that send; if the
    status line cannot be encoded it sends nothing.  The dictionaries and
    the logging flag are left alone. *)
Theorem send_error_closes (env : environment) (code : Z) (message : list N)
    (w : world) :
  ∃ sent,
    proxy.send_error env code message w
    = (Ret (), after w (sent ++ [Close client_socket]))
    ∧ (sent = []
       ∨ ∃ bytes, Utf8.encode (status_line code message) = Some bytes
                  ∧ sent = [Sendall client_socket bytes]).
Proof.
  rewrite send_error_eq.
  destruct (Utf8.encode (status_line code message)) as [bytes|].
  - exists [Sendall client_socket bytes]. split; [done|]. right. by exists bytes.
  - exists []. split; [done|]. by left.
Qed.

(** The start of an admitted connection: the time-out, the check and
    the first read. *)
Ltac proxy_start Hadmitted :=
  unfold proxy.proxy;
  rewrite (bind_Ret _ _ _ _ _ (emit_after _ _));
  unfold with_request_counter;
  unfold mbind at 1; unfold M_bind at 1; cbn [request_counter after fst snd];
  rewrite Hadmitted; cbn [negb];
  unfold try_except;
  rewrite (bind_Ret _ _ _ _ _ (emit_after _ _)).

(** A client that is admitted and closes without sending anything is
    answered [502 Bad Gateway]: the worker reads once, sends the status
    line and closes.  No name is resolved and nothing is recorded. *)
Theorem proxy_empty_read (env : environment) (client_ip : peer) (w : world) :
  let ip := proxy.client_ip_str client_ip in
  let checked := proxy.check_rate_limit ip (env_time env) (request_counter w) in
  checked.1 = true →
  recv utils.BUFFER_SIZE (env_request env) = Ret [] →
  proxy.proxy env client_ip w
  = (Ret (),
     {| request_counter := checked.2;
        domain_stats := domain_stats w;
        LOG_FLAG := LOG_FLAG w;
        trace := trace w ++
          [Settimeout client_socket 1; Recv client_socket;
           Sendall client_socket (blit "HTTP/1.1 502 Bad Gateway" ++ bCRLF ++ bCRLF);
           Close client_socket] |}).
Proof.
  intros ip checked Hadmitted Hread. subst ip checked. proxy_start Hadmitted.
  unfold answer. rewrite Hread. unfold mbind at 1. unfold M_bind at 1.
  rewrite (send_error_sends _ _ _ (blit "HTTP/1.1 502 Bad Gateway" ++ bCRLF ++ bCRLF))
    by (vm_compute; reflexivity).
  unfold after. cbn -[lit blit app]. by rewrite <- !app_assoc.
Qed.

(** A client that is admitted and sends nothing in time, or whose read
    fails in any other way, is dropped without an answer: the worker
    reads once and closes. *)
Theorem proxy_read_error (env : environment) (client_ip : peer) (w : world)
    (e : exn) :
  let ip := proxy.client_ip_str client_ip in
  let checked := proxy.check_rate_limit ip (env_time env) (request_counter w) in
  checked.1 = true →
  env_request env = Raise e →
  proxy.proxy env client_ip w
  = (Ret (),
     {| request_counter := checked.2;
        domain_stats := domain_stats w;
        LOG_FLAG := LOG_FLAG w;
        trace := trace w ++
          [Settimeout client_socket 1; Recv client_socket; Close client_socket] |}).
Proof.
  intros ip checked Hadmitted Hread. subst ip checked. proxy_start Hadmitted.
  unfold answer. rewrite Hread. unfold mbind at 1. unfold M_bind at 1.
  unfold emit. cbn -[lit blit app]. by rewrite <- !app_assoc.
Qed.

(** A first buffer that the classifier does not accept is answered
    [400 Bad Request]: the worker sends the status line and closes.  No
    name is resolved and nothing is recorded. *)
Theorem proxy_bad_request (env : environment) (client_ip : peer) (w : world)
    (raw : list byte) :
  let ip := proxy.client_ip_str client_ip in
  let checked := proxy.check_rate_limit ip (env_time env) (request_counter w) in
  checked.1 = true →
  recv utils.BUFFER_SIZE (env_request env) = Ret raw →
  raw ≠ [] →
  (proxy.parse_server_info raw).2 = false →
  proxy.proxy env client_ip w
  = (Ret (),
     {| request_counter := checked.2;
        domain_stats := domain_stats w;
        LOG_FLAG := LOG_FLAG w;
        trace := trace w ++
          [Settimeout client_socket 1; Recv client_socket;
           Sendall client_socket (blit "HTTP/1.1 400 Bad Request" ++ bCRLF ++ bCRLF);
           Close client_socket] |}).
Proof.
  intros ip checked Hadmitted Hread Hraw Hinvalid. subst ip checked.
  proxy_start Hadmitted.
  unfold answer. rewrite Hread. unfold mbind at 1. unfold M_bind at 1.
  destruct raw as [|b raw]; [done|].
  destruct (proxy.parse_server_info (b :: raw)) as [[[hostname server_port] is_connect] valid].
  cbn [snd] in Hinvalid. subst valid.
  rewrite (send_error_sends _ _ _ (blit "HTTP/1.1 400 Bad Request" ++ bCRLF ++ bCRLF))
    by (vm_compute; reflexivity).
  unfold after. cbn -[lit blit app]. by rewrite <- !app_assoc.
Qed.

(** A request for a blocked host is answered [403 Forbidden] and goes no
    further: the worker prints the notice, writes the blocked-request log
    if logging is on (printing a second notice if that fails), sends the
    status line and closes.  The host name is not resolved, no connection
    is opened, and no statistics are recorded. *)
Theorem proxy_blocked (env : environment) (client_ip : peer) (w : world)
    (raw : list byte) (hostname : list N) (server_port : option Z)
    (is_connect : option bool) :
  let ip := proxy.client_ip_str client_ip in
  let checked := proxy.check_rate_limit ip (env_time env) (request_counter w) in
  checked.1 = true →
  recv utils.BUFFER_SIZE (env_request env) = Ret raw →
  raw ≠ [] →
  proxy.parse_server_info raw = (Some hostname, server_port, is_connect, true) →
  proxy.is_blocked hostname = true →
  proxy.proxy env client_ip w
  = (Ret (),
     {| request_counter := checked.2;
        domain_stats := domain_stats w;
        LOG_FLAG := LOG_FLAG w;
        trace := trace w ++
          [Settimeout client_socket 1; Recv client_socket;
           Print (lit "Blocked request to " ++ hostname ++ lit " from " ++ ip)]
          ++ (if LOG_FLAG w then
                LogBlocked hostname ip ::
                match env_log_blocked env with
                | Some e => [Print (lit "Failed to log blocked request: " ++ exn_text e)]
                | None => []
                end
              else [])
          ++ [Sendall client_socket (blit "HTTP/1.1 403 Forbidden" ++ bCRLF ++ bCRLF);
              Close client_socket] |}).
Proof.
  intros ip checked Hadmitted Hread Hraw Hparse Hblocked. subst ip checked.
  proxy_start Hadmitted.
  unfold answer. rewrite Hread. unfold mbind at 1. unfold M_bind at 1.
  destruct raw as [|b raw]; [done|]. rewrite Hparse, Hblocked.
  rewrite (bind_Ret _ _ _ _ _ (emit_after _ _)).
  unfold get_LOG_FLAG. unfold mbind at 1. unfold M_bind at 1. cbn [LOG_FLAG after].
  destruct (LOG_FLAG w) eqn:Hflag.
  - unfold logging_utils.log_blocked_request, try_except, perform, emit.
    unfold mbind, M_bind, raise, mret, M_ret.
    destruct (env_log_blocked env) as [e|]; cbn -[lit blit app proxy.send_error];
      rewrite (send_error_sends _ _ _ (blit "HTTP/1.1 403 Forbidden" ++ bCRLF ++ bCRLF))
        by (vm_compute; reflexivity);
      unfold after; cbn -[lit blit app]; by rewrite <- !app_assoc.
  - unfold mbind, M_bind, mret, M_ret.
    rewrite (send_error_sends _ _ _ (blit "HTTP/1.1 403 Forbidden" ++ bCRLF ++ bCRLF))
      by (vm_compute; reflexivity).
    unfold after. cbn -[lit blit app]. by rewrite <- !app_assoc.
Qed.

(** A host name that does not resolve is answered [502 Bad Gateway],
    and only then: the worker asks for the address, sends the status line
    and closes.  If the resolver fails with anything but [gaierror], the
    worker closes without an answer.  Either way no connection is opened
    and nothing is recorded. *)
Theorem proxy_unresolved (env : environment) (client_ip : peer) (w : world)
    (raw : list byte) (hostname : list N) (server_port : option Z)
    (is_connect : option bool) (e : exn) :
  let ip := proxy.client_ip_str client_ip in
  let checked := proxy.check_rate_limit ip (env_time env) (request_counter w) in
  checked.1 = true →
  recv utils.BUFFER_SIZE (env_request env) = Ret raw →
  raw ≠ [] →
  proxy.parse_server_info raw = (Some hostname, server_port, is_connect, true) →
  proxy.is_blocked hostname = false →
  env_resolve env = Raise e →
  proxy.proxy env client_ip w
  = (Ret (),
     {| request_counter := checked.2;
        domain_stats := domain_stats w;
        LOG_FLAG := LOG_FLAG w;
        trace := trace w ++
          [Settimeout client_socket 1; Recv client_socket; Gethostbyname hostname]
          ++ (if bool_decide (exn_class_of e = socket_gaierror)
              then [Sendall client_socket
                      (blit "HTTP/1.1 502 Bad Gateway" ++ bCRLF ++ bCRLF)]
              else [])
          ++ [Close client_socket] |}).
Proof.
  intros ip checked Hadmitted Hread Hraw Hparse Hblocked Hresolve. subst ip checked.
  proxy_start Hadmitted.
  unfold answer. rewrite Hread. unfold mbind at 1. unfold M_bind at 1.
  destruct raw as [|b raw]; [done|]. rewrite Hparse, Hblocked, Hresolve.
  rewrite (bind_Ret _ _ _ _ _ (emit_after _ _)).
  destruct (bool_decide (exn_class_of e = socket_gaierror)).
  - rewrite (send_error_sends _ _ _ (blit "HTTP/1.1 502 Bad Gateway" ++ bCRLF ++ bCRLF))
      by (vm_compute; reflexivity).
    unfold after. cbn -[lit blit app]. by rewrite <- !app_assoc.
  - unfold raise, emit. cbn -[lit blit app]. by rewrite <- !app_assoc.
Qed.

(** What a forwarded request is counted as.  When the worker hands a
    plain-HTTP request to the forwarder, the bytes received that go into
    the statistics of the host, if the exchange is recorded at all, are
    the length of the first buffer plus three for every byte in it that
    is not UTF-8: the buffer is decoded with [backslashreplace] and
    encoded again before it is measured. *)
Theorem proxy_http_bytes_received (env : environment) (client_ip : peer) (w : world)
    (raw : list byte) (hostname server_ip : list N) (server_port : Z) :
  let ip := proxy.client_ip_str client_ip in
  let checked := proxy.check_rate_limit ip (env_time env) (request_counter w) in
  checked.1 = true →
  recv utils.BUFFER_SIZE (env_request env) = Ret raw →
  raw ≠ [] →
  proxy.parse_server_info raw = (Some hostname, Some server_port, Some false, true) →
  proxy.is_blocked hostname = false →
  env_resolve env = Ret server_ip →
  let w' := (proxy.proxy env client_ip w).2 in
  domain_stats w' = domain_stats w
  ∨ ∃ sent duration ttfb,
      domain_stats w'
      = utils.update_domain_stats hostname sent
          (Z.of_nat (length raw + 3 * undecodable raw)) duration ttfb (domain_stats w).
Proof.
  intros ip checked Hadmitted Hread Hraw Hparse Hblocked Hresolve.
  subst ip checked. cbn zeta.
  assert (Hrun : ∃ w0,
    proxy.proxy env client_ip w
    = try_except
        (handlers.handle_http env (Utf8.decode Utf8.backslashreplace raw) server_ip
           server_port hostname (env_start env))
        (λ _, emit (Close client_socket)) w0
    ∧ domain_stats w0 = domain_stats w).
  { eexists. split.
    - proxy_start Hadmitted.
      unfold answer. rewrite Hread. unfold mbind at 1. unfold M_bind at 1.
      destruct raw as [|b raw]; [done|]. rewrite Hparse, Hblocked.
      rewrite (bind_Ret _ _ _ _ _ (emit_after _ _)). rewrite Hresolve.
      reflexivity.
    - done. }
  destruct Hrun as (w0 & -> & Hw0). unfold try_except.
  pose proof (handle_http_bytes_received env (Utf8.decode Utf8.backslashreplace raw)
                server_ip server_port hostname (env_start env) w0) as Hhttp.
  cbn zeta in Hhttp.
  destruct (handlers.handle_http env (Utf8.decode Utf8.backslashreplace raw) server_ip
              server_port hostname (env_start env) w0) as [[[]|e] w2];
    cbn [snd fst] in Hhttp |- *;
    destruct Hhttp as [_ [Hsame|(data & sent & duration & ttfb & Hdata & Hstats)]];
    cbn [domain_stats emit snd] in *; rewrite <- Hw0;
    try (by left); right;
    exists sent, duration, ttfb; rewrite Hstats; repeat f_equal;
    destruct (encode_decode_backslashreplace raw) as (out & Hout & Hlen & _);
    unfold Utf8.decode in Hdata; rewrite Hout in Hdata;
    injection Hdata as <-; by rewrite Hlen.
Qed.

(** *** The worker as a whole *)







End connections_more.

(* ====================================================================== *)
(** * The properties at concrete inputs *)
(* ====================================================================== *)

Section examples.
Import proxy.
Local Open Scope Q_scope.

(** A hundred and one checks of one client at the same instant: the
    first hundred are admitted, in arrival order, the last is denied. *)
Example hundred_and_one_checks :
  answers (replicate 101 (ip1, 0)) ∅ = replicate 100 true ++ [false].
Proof. vm_compute. reflexivity. Qed.

(** A client that is denied at 5 and again at 9 is admitted at 10, when
    the hundred readings of 0 have left the window. *)
Example admitted_again :
  answers [(ip1, 5); (ip1, 9); (ip1, 10)] {[ ip1 := replicate 100 0 ]}
  = [false; false; true].
Proof. vm_compute. reflexivity. Qed.


(** A denied check at a full ledger. *)
Lemma denied_check_prunes_only_witness :
  let rc : gmap (list N) (list Q) := {[ ip1 := replicate 100 0 ]} in
  check_rate_limit ip1 5 rc = (false, rc)
  ∧ rc !! ip1 = Some (filter (λ t, 5 - t < window) (rc !!! ip1)).
Proof.
  intros rc.
  assert (Hc : check_rate_limit ip1 5 rc = (false, rc)) by (vm_compute; reflexivity).
  split; [exact Hc|]. exact (proj1 (denied_check_prunes_only ip1 5 rc rc Hc)).
Defined.

(** *** The header rewriter *)

Example rewrite_one_connection :
  utils.modify_headers one_connection None
  = lit "GET /a?b=1 HTTP/1.1" ++ CRLF
    ++ lit "Host: example.com" ++ CRLF
    ++ lit "Connection: close" ++ CRLF ++ CRLF.
Proof. vm_compute. reflexivity. Qed.

(** C6 as stated fails.  A request with two [Connection] headers is
    rewritten to one with two [Connection: close] headers, not one; and a
    request whose only line beginning with [connection:] stands after the
    empty line is rewritten to one with no [Connection] header in its
    header block. *)
Lemma modify_headers_not_exactly_one :
  connection_headers (header_block (utils.modify_headers two_connections None))
  = [lit "Connection: close"; lit "Connection: close"]
  ∧ ¬ exactly_one_connection_close (utils.modify_headers two_connections None)
  ∧ connection_headers (header_block (utils.modify_headers connection_in_body None))
    = []
  ∧ ¬ exactly_one_connection_close (utils.modify_headers connection_in_body None).
Proof.
  unfold exactly_one_connection_close.
  assert (H2 : connection_headers
                 (header_block (utils.modify_headers two_connections None))
               = [lit "Connection: close"; lit "Connection: close"])
    by (vm_compute; reflexivity).
  assert (H0 : connection_headers
                 (header_block (utils.modify_headers connection_in_body None)) = [])
    by (vm_compute; reflexivity).
  rewrite H2, H0. repeat split; discriminate.
Qed.

(** The [Connection] headers of the rewritten request of scenario S1. *)
Lemma modify_headers_connection_close_witness :
  connection_headers (body_lines one_connection) = []
  ∧ exactly_one_connection_close (utils.modify_headers one_connection None).
Proof.
  assert (Hb : connection_headers (body_lines one_connection) = [])
    by (vm_compute; reflexivity).
  split; [exact Hb|].
  apply (proj2 (modify_headers_connection_close one_connection None Hb)).
  vm_compute. lia.
Defined.

(** *** The request classifier *)

Example classify_absolute_form :
  parse_server_info (default [] (Utf8.encode one_connection))
  = (Some (lit "example.com"), Some 80%Z, Some false, true).
Proof. vm_compute. reflexivity. Qed.

Example classify_connect :
  parse_server_info (blit "CONNECT Example.com:443 HTTP/1.1" ++ bCRLF ++ bCRLF)
  = (Some (lit "example.com"), Some 443%Z, Some true, true).
Proof. vm_compute. reflexivity. Qed.

(** A port that is no integer makes [int] raise inside the classifier;
    the answer is the invalid tuple. *)
Example classify_bad_port :
  let data := blit "CONNECT example.com:https HTTP/1.1" ++ bCRLF ++ bCRLF in
  parse_server_info_body data
  = Raise (Exn ValueError (lit "invalid literal for int()"))
  ∧ parse_server_info data = (None, None, None, false).
Proof. split; vm_compute; reflexivity. Qed.

(** C5 as stated fails.  The CONNECT targets with the ports 0 and 99999,
    both outside 1 to 65535, are classified valid, with those ports. *)
Lemma connect_port_out_of_range_valid :
  parse_server_info (blit "CONNECT example.com:0 HTTP/1.1" ++ bCRLF ++ bCRLF)
  = (Some (lit "example.com"), Some 0%Z, Some true, true)
  ∧ parse_server_info (blit "CONNECT example.com:99999 HTTP/1.1" ++ bCRLF ++ bCRLF)
    = (Some (lit "example.com"), Some 99999%Z, Some true, true).
Proof. split; vm_compute; reflexivity. Qed.

(** The classification of the CONNECT request with the port 0. *)
Lemma connect_port_unchecked_witness :
  let data := blit "CONNECT example.com:0 HTTP/1.1" ++ bCRLF ++ bCRLF in
  request_parts data = [lit "CONNECT"; lit "example.com:0"; lit "HTTP/1.1"]
  ∧ Py.upper (lit "CONNECT") = lit "CONNECT"
  ∧ (parse_server_info data).2 = true.
Proof.
  intros data.
  assert (Hp : request_parts data
               = [lit "CONNECT"; lit "example.com:0"; lit "HTTP/1.1"])
    by (vm_compute; reflexivity).
  assert (Hm : Py.upper (lit "CONNECT") = lit "CONNECT") by (vm_compute; reflexivity).
  split; [exact Hp|]. split; [exact Hm|].
  apply (proj2 (connect_port_unchecked data _ _ _ Hp Hm)).
  exists (lit "example.com"), (lit "0"), 0%Z. split; vm_compute; reflexivity.
Defined.

(** The classification of the input of scenario S3. *)
Lemma parse_server_info_total_witness :
  malformed (blit "GARBAGE")
  ∧ parse_server_info (blit "GARBAGE") = (None, None, None, false).
Proof.
  assert (Hm : malformed (blit "GARBAGE")).
  { apply too_few_parts. vm_compute. lia. }
  split; [exact Hm|].
  exact (proj2 (proj2 (parse_server_info_total (blit "GARBAGE"))) Hm).
Defined.

(** *** The statistics *)


(** *** Connections *)

(** C3 as stated fails.  With the dial refused, the CONNECT tunneler
    closes the origin socket, prints the error and closes the client
    socket; the 502 status line is not sent. *)
Lemma dial_failure_sends_no_502 :
  let w := (handlers.handle_https (environment_of 0 connect_request (Some refused) [])
              origin_ip 443 (lit "example.com") (lit "CONNECT example.com:443 HTTP/1.1")
              0 (world_of ∅ true)).2 in
  trace w = [Settimeout server_socket 2; Connect origin_ip 443; Close server_socket;
             Print (lit "HTTPS error [Errno 111] Connection refused for example.com");
             Close client_socket]
  ∧ Sendall client_socket (blit "HTTP/1.1 502 Bad Gateway" ++ bCRLF ++ bCRLF) ∉ trace w.
Proof.
  intros w.
  assert (Ht : trace w
    = [Settimeout server_socket 2; Connect origin_ip 443; Close server_socket;
       Print (lit "HTTPS error [Errno 111] Connection refused for example.com");
       Close client_socket]) by (vm_compute; reflexivity).
  split; [exact Ht|]. rewrite Ht. intros Hin.
  repeat (apply elem_of_cons in Hin as [Hin|Hin]; [discriminate Hin|]).
  by apply elem_of_nil in Hin.
Qed.

(** The CONNECT tunneler at a refused dial. *)
Lemma handle_https_dial_failure_witness :
  let env := environment_of 0 connect_request (Some refused) [] in
  env_connect env = Some refused
  ∧ (handlers.handle_https env origin_ip 443 (lit "example.com")
       (lit "CONNECT example.com:443 HTTP/1.1") 0 (world_of ∅ true)).1 = Ret ().
Proof.
  intros env.
  assert (Hd : env_connect env = Some refused) by reflexivity.
  split; [exact Hd|].
  by rewrite (handle_https_dial_failure env origin_ip 443 (lit "example.com")
                (lit "CONNECT example.com:443 HTTP/1.1") 0 (world_of ∅ true) refused Hd).
Defined.

(** C4 as stated fails.  A connection from a client with a hundred
    readings in the window is denied; the worker prints the notice, sends
    the 429 and closes.  Nothing it emits carries the count 100: the
    notice has the IP only, and no log file is written. *)
Lemma rate_limited_without_count :
  let w := (proxy (environment_of 1 connect_request None []) peer1 full_world).2 in
  length (request_counter w !!! ip1) = 100%nat
  ∧ trace w = [Settimeout client_socket 1;
               Print (lit "Rate limit exceeded for 192.168.1.7");
               Sendall client_socket
                 (blit "HTTP/1.1 429 Too Many Requests" ++ bCRLF ++ bCRLF);
               Close client_socket]
  ∧ Forall (silent_about 100) (trace w).
Proof.
  intros w.
  assert (Ht : trace w
    = [Settimeout client_socket 1;
       Print (lit "Rate limit exceeded for 192.168.1.7");
       Sendall client_socket (blit "HTTP/1.1 429 Too Many Requests" ++ bCRLF ++ bCRLF);
       Close client_socket]) by (vm_compute; reflexivity).
  split; [vm_compute; reflexivity|]. split; [exact Ht|]. rewrite Ht.
  repeat constructor.
Qed.

(** The worker at the same connection. *)
Lemma proxy_rate_limited_witness :
  let env := environment_of 1 connect_request None [] in
  (check_rate_limit ip1 1 (request_counter full_world)).1 = false
  ∧ (proxy env peer1 full_world).1 = Ret ().
Proof.
  intros env.
  assert (Hd : (check_rate_limit (client_ip_str peer1) (env_time env)
                  (request_counter full_world)).1 = false)
    by (vm_compute; reflexivity).
  split; [exact Hd|]. by rewrite (proxy_rate_limited env peer1 full_world Hd).
Defined.

(** C7 fails on the code.  The worker receives the request of 56 bytes,
    forwards it and relays the answer; the request log and the statistics
    then report 59 bytes received: the undecodable byte was replaced by
    the four characters of its escape before the bytes were counted. *)
Lemma bytes_received_counts_escapes :
  let w := (proxy (environment_of 0 request_with_ff None
                     [blit "HTTP/1.1 200 OK" ++ bCRLF ++ bCRLF])
              peer1 (world_of ∅ true)).2 in
  length request_with_ff = 56%nat
  ∧ bytes_received <$> domain_stats w !! lit "example.com" = Some 59%Z
  ∧ omap (λ e, match e with
               | LogRequest entry => log_bytes_received entry
               | _ => None
               end) (trace w) = [59%Z].
Proof. intros w. repeat split; vm_compute; reflexivity. Qed.

(** The same request without the stray byte is counted exactly. *)
Example bytes_received_of_utf8 :
  let request := blit "GET http://example.com/ HTTP/1.1" ++ bCRLF
                 ++ blit "Host: example.com" ++ bCRLF ++ bCRLF in
  let w := (proxy (environment_of 0 request None
                     [blit "HTTP/1.1 200 OK" ++ bCRLF ++ bCRLF])
              peer1 (world_of ∅ true)).2 in
  bytes_received <$> domain_stats w !! lit "example.com"
  = Some (Z.of_nat (length request)).
Proof. vm_compute. reflexivity. Qed.

(** *** Further instances *)

(** A burst of five checks on a ledger with 98 live readings: two are
    admitted, three denied. *)
Lemma burst_admitted_until_full_witness :
  let rc : gmap (list N) (list Q) := {[ ip1 := replicate 98 0 ]} in
  Forall (λ t, 1 - t < window) (rc !!! ip1)
  ∧ answers (replicate 5 (ip1, 1)) rc = [true; true; false; false; false].
Proof.
  intros rc.
  assert (Hin : Forall (λ t, 1 - t < window) (rc !!! ip1)).
  { apply Forall_forall. intros t Ht.
    assert (Hrc : rc !!! ip1 = replicate 98 0) by (vm_compute; reflexivity).
    rewrite Hrc in Ht. apply elem_of_replicate in Ht as [-> _]. reflexivity. }
  split; [exact Hin|].
  rewrite (burst_admitted_until_full ip1 1 5 rc Hin).
  assert (Hlen : length (rc !!! ip1) = 98%nat) by (vm_compute; reflexivity).
  rewrite Hlen. reflexivity.
Defined.

(** A client with a full ledger of readings of the instant 0 is admitted
    three times in a row from the instant 10 on. *)
Lemma idle_client_admitted_again_witness :
  let rc := request_counter full_world in
  Forall (λ now, Forall (λ t, window <= now - t) (rc !!! ip1)) [10; 12; 11]
  ∧ answers (map (pair ip1) [10; 12; 11]) rc = [true; true; true].
Proof.
  intros rc.
  assert (Hold : Forall (λ now, Forall (λ t, window <= now - t) (rc !!! ip1))
                   [10; 12; 11]).
  { assert (Hrc : rc !!! ip1 = replicate 100 0) by (vm_compute; reflexivity).
    rewrite Hrc.
    repeat (apply Forall_cons_2;
            [apply Forall_forall; intros t Ht;
             apply elem_of_replicate in Ht as [-> _]; vm_compute; discriminate|]).
    apply Forall_nil_2. }
  split; [exact Hold|].
  apply (idle_client_admitted_again ip1 [10; 12; 11] rc Hold).
  vm_compute. lia.
Defined.

(** The request of scenario S1 leaves the rewriter with the origin-form
    target. *)
Lemma modify_headers_strips_origin_witness :
  hd [] (Py.split CRLF (utils.modify_headers one_connection (Some (lit "example.com"))))
  = lit "GET /a?b=1 HTTP/1.1".
Proof.
  apply (modify_headers_strips_origin false (lit "GET") (lit "example.com")
           (lit "a?b=1") (lit " HTTP/1.1") one_connection
           (Some (lit "example.com")));
    try (vm_compute; reflexivity);
    try (apply (bool_decide_unpack _); vm_compute; reflexivity).
  right. by eexists.
Defined.

(** Two exchanges with different hosts, recorded in either order. *)
Lemma record_commutes_witness :
  let a := {| call_hostname := lit "a"; call_sent := 100; call_received := 50;
              call_duration := 2 # 10; call_ttfb := Some (5 # 100) |} in
  let b := {| call_hostname := lit "b"; call_sent := 7; call_received := 9;
              call_duration := 1 # 10; call_ttfb := None |} in
  call_hostname a ≠ call_hostname b ∧ record a (record b ∅) = record b (record a ∅).
Proof.
  intros a b.
  assert (Hne : call_hostname a ≠ call_hostname b) by discriminate.
  split; [exact Hne|]. exact (record_commutes a b ∅ Hne).
Defined.

(** A request with a scheme, a host in mixed case and a port. *)
Lemma absolute_form_classified_witness :
  parse_server_info port_request
  = (Some (lit "example.com"), Some 8080%Z, Some false, true).
Proof.
  rewrite (absolute_form_classified port_request (lit "GET") false (lit "Example.com")
             (Some (lit "8080")) (Some (lit "a")) [lit "HTTP/1.1"]).
  - vm_compute. reflexivity.
  - vm_compute. reflexivity.
  - discriminate.
  - discriminate.
  - apply (bool_decide_unpack _). vm_compute. reflexivity.
  - intros d [= <-]. split; [discriminate|].
    repeat (apply Forall_cons_2; [vm_compute; reflexivity|]). apply Forall_nil_2.
  - intros p [= <-]. apply (bool_decide_unpack _). vm_compute. reflexivity.
Defined.

(** A request in origin form. *)
Lemma origin_form_rejected_witness :
  parse_server_info origin_form_request = (None, None, None, false).
Proof.
  apply (origin_form_rejected origin_form_request (lit "GET") (lit "index.html")
           [lit "HTTP/1.1"]).
  - vm_compute. reflexivity.
  - discriminate.
Defined.

(** A tunnel in which the client sends 5 bytes and the origin 11. *)
Lemma handle_https_records_witness :
  let env := environment_with (Ret connect_request) (Ret origin_ip) None
               (chunks [blit "hello"]) (chunks [blit "hello"; blit " world"]) in
  env_connect env = None ∧ env_established_send env = None
  ∧ (handlers.handle_https env origin_ip 443 (lit "example.com")
       (lit "CONNECT example.com:443 HTTP/1.1") 0 (world_of ∅ true)).1 = Ret ().
Proof.
  intros env.
  assert (Hd : env_connect env = None) by reflexivity.
  assert (He : env_established_send env = None) by reflexivity.
  split; [exact Hd|]. split; [exact He|].
  destruct (handle_https_records env origin_ip 443 (lit "example.com")
              (lit "CONNECT example.com:443 HTTP/1.1") 0 (world_of ∅ true) Hd He
              (λ _, eq_refl))
    as (relay & sent & received & Hrun & _).
  by rewrite Hrun.
Defined.

(** The same tunnel when the request log cannot be written. *)
Lemma handle_https_log_failure_witness :
  let env := environment_with (Ret connect_request) (Ret origin_ip) (Some disk_full)
               (chunks [blit "hello"]) (chunks [blit "hello"; blit " world"]) in
  env_log_request env = Some disk_full
  ∧ domain_stats
      (handlers.handle_https env origin_ip 443 (lit "example.com")
         (lit "CONNECT example.com:443 HTTP/1.1") 0 (world_of ∅ true)).2 = ∅.
Proof.
  intros env.
  assert (Hl : env_log_request env = Some disk_full) by reflexivity.
  split; [exact Hl|].
  destruct (handle_https_log_failure env origin_ip 443 (lit "example.com")
              (lit "CONNECT example.com:443 HTTP/1.1") 0 (world_of ∅ true) disk_full
              eq_refl eq_refl eq_refl Hl)
    as (relay & entry & Hrun & _).
  by rewrite Hrun.
Defined.

(** A client that connects and closes at once. *)
Lemma proxy_empty_read_witness :
  let env := environment_of 0 [] None [] in
  (check_rate_limit ip1 0 ∅).1 = true
  ∧ trace (proxy env peer1 (world_of ∅ false)).2
    = [Settimeout client_socket 1; Recv client_socket;
       Sendall client_socket (blit "HTTP/1.1 502 Bad Gateway" ++ bCRLF ++ bCRLF);
       Close client_socket].
Proof.
  intros env.
  assert (Ha : (check_rate_limit (client_ip_str peer1) (env_time env)
                  (request_counter (world_of ∅ false))).1 = true)
    by (vm_compute; reflexivity).
  split; [exact Ha|].
  by rewrite (proxy_empty_read env peer1 (world_of ∅ false) Ha eq_refl).
Defined.

(** A client that connects and stays silent. *)
Lemma proxy_read_error_witness :
  let env := environment_with (Raise timed_out) (Ret origin_ip) None [] [] in
  env_request env = Raise timed_out
  ∧ trace (proxy env peer1 (world_of ∅ false)).2
    = [Settimeout client_socket 1; Recv client_socket; Close client_socket].
Proof.
  intros env.
  assert (Ha : (check_rate_limit (client_ip_str peer1) (env_time env)
                  (request_counter (world_of ∅ false))).1 = true)
    by (vm_compute; reflexivity).
  assert (Hr : env_request env = Raise timed_out) by reflexivity.
  split; [exact Hr|].
  by rewrite (proxy_read_error env peer1 (world_of ∅ false) timed_out Ha Hr).
Defined.

(** A request in origin form is answered 400. *)
Lemma proxy_bad_request_witness :
  let env := environment_of 0 origin_form_request None [] in
  (parse_server_info origin_form_request).2 = false
  ∧ trace (proxy env peer1 (world_of ∅ false)).2
    = [Settimeout client_socket 1; Recv client_socket;
       Sendall client_socket (blit "HTTP/1.1 400 Bad Request" ++ bCRLF ++ bCRLF);
       Close client_socket].
Proof.
  intros env.
  assert (Ha : (check_rate_limit (client_ip_str peer1) (env_time env)
                  (request_counter (world_of ∅ false))).1 = true)
    by (vm_compute; reflexivity).
  assert (Hr : recv utils.BUFFER_SIZE (env_request env) = Ret origin_form_request)
    by (vm_compute; reflexivity).
  assert (Hp : (parse_server_info origin_form_request).2 = false)
    by (vm_compute; reflexivity).
  split; [exact Hp|].
  by rewrite (proxy_bad_request env peer1 (world_of ∅ false) origin_form_request
                Ha Hr ltac:(discriminate) Hp).
Defined.

(** A request for a blocked host, with logging on. *)
Lemma proxy_blocked_witness :
  let env := environment_of 0 blocked_request None [] in
  is_blocked (lit "www.youtube.com") = true
  ∧ trace (proxy env peer1 (world_of ∅ true)).2
    = [Settimeout client_socket 1; Recv client_socket;
       Print (lit "Blocked request to www.youtube.com from 192.168.1.7");
       LogBlocked (lit "www.youtube.com") ip1;
       Sendall client_socket (blit "HTTP/1.1 403 Forbidden" ++ bCRLF ++ bCRLF);
       Close client_socket].
Proof.
  intros env.
  assert (Ha : (check_rate_limit (client_ip_str peer1) (env_time env)
                  (request_counter (world_of ∅ true))).1 = true)
    by (vm_compute; reflexivity).
  assert (Hr : recv utils.BUFFER_SIZE (env_request env) = Ret blocked_request)
    by (vm_compute; reflexivity).
  assert (Hp : parse_server_info blocked_request
               = (Some (lit "www.youtube.com"), Some 80%Z, Some false, true))
    by (vm_compute; reflexivity).
  assert (Hb : is_blocked (lit "www.youtube.com") = true) by (vm_compute; reflexivity).
  split; [exact Hb|].
  by rewrite (proxy_blocked env peer1 (world_of ∅ true) blocked_request
                (lit "www.youtube.com") (Some 80%Z) (Some false)
                Ha Hr ltac:(discriminate) Hp Hb).
Defined.

(** A request for a host whose name does not resolve. *)
Lemma proxy_unresolved_witness :
  let request := blit "GET http://example.com/ HTTP/1.1" ++ bCRLF ++ bCRLF in
  let env := environment_with (Ret request) (Raise unknown_name) None [] [] in
  env_resolve env = Raise unknown_name
  ∧ trace (proxy env peer1 (world_of ∅ false)).2
    = [Settimeout client_socket 1; Recv client_socket;
       Gethostbyname (lit "example.com");
       Sendall client_socket (blit "HTTP/1.1 502 Bad Gateway" ++ bCRLF ++ bCRLF);
       Close client_socket].
Proof.
  intros request env.
  assert (Ha : (check_rate_limit (client_ip_str peer1) (env_time env)
                  (request_counter (world_of ∅ false))).1 = true)
    by (vm_compute; reflexivity).
  assert (Hr : recv utils.BUFFER_SIZE (env_request env) = Ret request)
    by (vm_compute; reflexivity).
  assert (Hp : parse_server_info request
               = (Some (lit "example.com"), Some 80%Z, Some false, true))
    by (vm_compute; reflexivity).
  assert (Hb : is_blocked (lit "example.com") = false) by (vm_compute; reflexivity).
  assert (He : env_resolve env = Raise unknown_name) by reflexivity.
  split; [exact He|].
  by rewrite (proxy_unresolved env peer1 (world_of ∅ false) request
                (lit "example.com") (Some 80%Z) (Some false) unknown_name
                Ha Hr ltac:(discriminate) Hp Hb He).
Defined.

(** The request of 56 bytes with one byte that is not UTF-8 is counted
    as 59 bytes or not at all. *)
Lemma proxy_http_bytes_received_witness :
  let env := environment_of 0 request_with_ff None
               [blit "HTTP/1.1 200 OK" ++ bCRLF ++ bCRLF] in
  let w := world_of ∅ true in
  (length request_with_ff + 3 * undecodable request_with_ff = 59)%nat
  ∧ (domain_stats (proxy env peer1 w).2 = domain_stats w
     ∨ ∃ sent duration ttfb,
         domain_stats (proxy env peer1 w).2
         = utils.update_domain_stats (lit "example.com") sent 59 duration ttfb
             (domain_stats w)).
Proof.
  intros env w.
  assert (Ha : (check_rate_limit (client_ip_str peer1) (env_time env)
                  (request_counter w)).1 = true)
    by (vm_compute; reflexivity).
  assert (Hr : recv utils.BUFFER_SIZE (env_request env) = Ret request_with_ff)
    by (vm_compute; reflexivity).
  assert (Hp : parse_server_info request_with_ff
               = (Some (lit "example.com"), Some 80%Z, Some false, true))
    by (vm_compute; reflexivity).
  assert (Hb : is_blocked (lit "example.com") = false) by (vm_compute; reflexivity).
  assert (Hn : (length request_with_ff + 3 * undecodable request_with_ff = 59)%nat)
    by (vm_compute; reflexivity).
  split; [exact Hn|].
  pose proof (proxy_http_bytes_received env peer1 w request_with_ff
                (lit "example.com") (lit "93.184.216.34") 80
                Ha Hr ltac:(discriminate) Hp Hb eq_refl) as Hrun.
  cbn zeta in Hrun. by rewrite Hn in Hrun.
Defined.

End examples.
